(** * next-print: ESC/POS command builder and WebUSB printer session

    A shallow embedding of [src/lib/escpos.ts] and the properties its
    specification states about it.

    - JavaScript strings are sequences of UTF-16 code units ([jsstring]);
      [TextEncoder.encode] is [utf8_encode].
    - The arrays the builder pushes to and the [Uint8Array]s it returns are
      objects of a store ([gmap] from locations to contents), so that sharing
      between the builder's buffer and the arrays handed out by [build] is
      visible.
    - Methods run in a state-and-exception monad [M]; an omitted argument of a
      method with a default value is [None].
    - What the language leaves to the engine is an [Engine]: how many
      arguments one call takes (the limit that [push(...bytes)] meets), how
      long a string can be, and the messages of the errors thrown beyond
      these.
    - Integer-valued [number] arguments are [Z]; the amounts of a receipt are
      IEEE-754 binary64 values ([PrimFloat.float]), as JavaScript has them. *)

From Stdlib Require Import ZArith List String Ascii Bool Lia.
From Stdlib Require Import Floats.PrimFloat Floats.FloatOps Floats.SpecFloat.
From Stdlib Require Import Decimal.
From stdpp Require Import base option list gmap.

Open Scope Z_scope.

(* A decimal literal such as [9.995] denotes the nearest binary64 number, as
   it does in JavaScript. *)
Set Warnings "-inexact-float".

(* ===================================================================== *)
(** * JavaScript values the code relies on *)
(* ===================================================================== *)

Module JS.

(** A string is a sequence of UTF-16 code units. *)
Abbreviation jsstring := (list Z).

(** A string literal of ASCII characters. *)
Fixpoint js (s : string) : jsstring :=
  match s with
  | EmptyString => []
  | String a r => Z.of_N (N_of_ascii a) :: js r
  end.

(** A thrown value, as a [catch] clause sees it: its [message] property when
    it has one that is neither [undefined] nor [null], and [String(err)]. *)
Record Thrown := { err_message : option jsstring; err_string : jsstring }.

Inductive completion (A : Type) : Type :=
| Normal (a : A)
| Throw (e : Thrown).
Arguments Normal {A} a.
Arguments Throw {A} e.

(** Computations over a state [S] that may throw. *)
Definition M (S A : Type) : Type := S -> completion A * S.

Definition ret {S A} (a : A) : M S A := fun s => (Normal a, s).

Definition bind {S A B} (c : M S A) (k : A -> M S B) : M S B :=
  fun s =>
    match c s with
    | (Normal a, s') => k a s'
    | (Throw e, s') => (Throw e, s')
    end.

Definition throw {S A} (e : Thrown) : M S A := fun s => (Throw e, s).

(** [try { body } catch (err) { handler(err) }] *)
Definition try_catch {S A} (body : M S A) (handler : Thrown -> M S A) : M S A :=
  fun s =>
    match body s with
    | (Normal a, s') => (Normal a, s')
    | (Throw e, s') => handler e s'
    end.

Definition lift {S A} (c : completion A) : M S A := fun s => (c, s).

(** ** [TextEncoder.prototype.encode] *)

Definition is_high_surrogate (c : Z) : bool := (0xD800 <=? c) && (c <=? 0xDBFF).
Definition is_low_surrogate (c : Z) : bool := (0xDC00 <=? c) && (c <=? 0xDFFF).

Definition utf8_of_code_point (cp : Z) : list Z :=
  if cp <? 0x80 then [cp]
  else if cp <? 0x800 then
    [Z.lor 0xC0 (Z.shiftr cp 6); Z.lor 0x80 (Z.land cp 0x3F)]
  else if cp <? 0x10000 then
    [Z.lor 0xE0 (Z.shiftr cp 12);
     Z.lor 0x80 (Z.land (Z.shiftr cp 6) 0x3F);
     Z.lor 0x80 (Z.land cp 0x3F)]
  else
    [Z.lor 0xF0 (Z.shiftr cp 18);
     Z.lor 0x80 (Z.land (Z.shiftr cp 12) 0x3F);
     Z.lor 0x80 (Z.land (Z.shiftr cp 6) 0x3F);
     Z.lor 0x80 (Z.land cp 0x3F)].

(** U+FFFD, which replaces a surrogate that has no partner. *)
Definition replacement : list Z := [0xEF; 0xBF; 0xBD].

Fixpoint utf8_encode (s : jsstring) : list Z :=
  match s with
  | [] => []
  | c :: rest =>
      if is_high_surrogate c then
        match rest with
        | d :: rest' =>
            if is_low_surrogate d then
              utf8_of_code_point
                (0x10000 + (c - 0xD800) * 0x400 + (d - 0xDC00))
                ++ utf8_encode rest'
            else replacement ++ utf8_encode rest
        | [] => replacement
        end
      else if is_low_surrogate c then replacement ++ utf8_encode rest
      else utf8_of_code_point c ++ utf8_encode rest
  end.

(** ** What is left to the engine *)

(** An engine takes [max_arguments] arguments in one call and throws a
    [RangeError] when a spread gives it more; it makes strings of up to
    [max_string_length] code units and throws a [RangeError] when one would
    be longer. The messages of these errors, and of the one that
    [String.prototype.repeat] throws for a negative count, are the
    engine's. The engines in use take at least 65 535 arguments, and fewer
    arguments than a string has room for code units. *)
Class Engine :=
  { max_arguments : Z;
    max_string_length : Z;
    max_arguments_floor : 65535 <= max_arguments;
    max_string_length_floor : max_arguments <= max_string_length;
    message_too_many_arguments : jsstring;
    message_invalid_string_length : jsstring;
    message_invalid_count : Z -> jsstring }.

(** A thrown [RangeError] object with the given message; [String(err)] is
    the name, followed by the message when there is one. *)
Definition RangeError (message : jsstring) : Thrown :=
  {| err_message := Some message;
     err_string :=
       match message with
       | [] => js "RangeError"
       | _ => js "RangeError: " ++ message
       end |}.

Section WithEngine.

Context {engine : Engine}.

(** ** [String.prototype.repeat], template literals *)

Definition String_repeat (s : jsstring) (count : Z) : completion jsstring :=
  if count <? 0 then Throw (RangeError (message_invalid_count count))
  else if max_string_length <? Z.of_nat (length s) * count
  then Throw (RangeError message_invalid_string_length)
  else Normal (List.concat (List.repeat s (Z.to_nat count))).

(** A template literal (or [+]) whose pieces are [parts]. *)
Definition String_concat (parts : list jsstring) : completion jsstring :=
  if max_string_length <? Z.of_nat (length (List.concat parts))
  then Throw (RangeError message_invalid_string_length)
  else Normal (List.concat parts).

End WithEngine.

(** ** [String.prototype.padEnd] *)

(** [s.padEnd(n)]: spaces are added up to [n] code units, nothing is cut. *)
Definition padEnd (s : jsstring) (n : nat) : jsstring :=
  s ++ List.repeat 32 (n - length s)%nat.

(** ** Conversion of a number to an element of a [Uint8Array] *)

Definition ToUint8 (x : Z) : Z := x mod 256.

End JS.

Export JS.

Declare Scope js_scope.
Notation "'let*' x ':=' c 'in' k" := (bind c (fun x => k))
  (at level 10, x binder, c at level 100, k at level 200) : js_scope.
Open Scope js_scope.

(* ===================================================================== *)
(** * The ESC/POS command builder *)
(* ===================================================================== *)

Definition ESC : Z := 0x1b.
Definition GS : Z := 0x1d.
Definition LF : Z := 0x0a.

Inductive TextAlign := LEFT | CENTER | RIGHT.

Definition TextAlign_value (a : TextAlign) : Z :=
  match a with LEFT => 0x00 | CENTER => 0x01 | RIGHT => 0x02 end.

Inductive TextSize := NORMAL | DOUBLE_HEIGHT | DOUBLE_WIDTH | DOUBLE_BOTH.

Definition TextSize_value (s : TextSize) : Z :=
  match s with
  | NORMAL => 0x00
  | DOUBLE_HEIGHT => 0x10
  | DOUBLE_WIDTH => 0x20
  | DOUBLE_BOTH => 0x30
  end.

Inductive CutType := FULL | PARTIAL.

Definition CutType_value (t : CutType) : Z :=
  match t with FULL => 0x00 | PARTIAL => 0x01 end.

(** Locations of arrays, and the store that holds their contents. *)
Abbreviation loc := positive.
Abbreviation Store := (gmap positive (list Z)).

(** [new Array] / [new Uint8Array]: a location that is not in use. *)
Definition new_array (init : list Z) : M Store loc :=
  fun σ => let l := fresh (dom σ) in (Normal l, <[l := init]> σ).

(** An instance of the class: its private field [data] refers to an array. *)
Record ESCPOSBuilder := { data : loc }.

Module Builder.

(** [this.data.push(x1, ..., xn)], the arguments written out *)
Definition push (this : ESCPOSBuilder) (items : list Z) : M Store unit :=
  fun σ => (Normal tt, alter (fun l => l ++ items) (data this) σ).

Section WithEngine.

Context {engine : Engine}.

(** [this.data.push(...Array.from(encoded))]: every byte is an argument of
    the one call, which the engine refuses, before anything is pushed, when
    they are more than it takes. *)
Definition push_spread (this : ESCPOSBuilder) (encoded : list Z)
  : M Store unit :=
  if max_arguments <? Z.of_nat (length encoded)
  then throw (RangeError message_too_many_arguments)
  else push this encoded.

Definition initialize (this : ESCPOSBuilder) : M Store ESCPOSBuilder :=
  let* _ := push this [ESC; 0x40] in ret this.

(** [new ESCPOSBuilder()] *)
Definition new : M Store ESCPOSBuilder :=
  let* d := new_array [] in
  initialize {| data := d |}.

Definition align (this : ESCPOSBuilder) (alignment : TextAlign)
  : M Store ESCPOSBuilder :=
  let* _ := push this [ESC; 0x61; TextAlign_value alignment] in ret this.

Definition textSize (this : ESCPOSBuilder) (size : TextSize)
  : M Store ESCPOSBuilder :=
  let* _ := push this [ESC; 0x21; TextSize_value size] in ret this.

Definition bold (this : ESCPOSBuilder) (enabled : option bool)
  : M Store ESCPOSBuilder :=
  let enabled := default true enabled in
  let* _ := push this [ESC; 0x45; if enabled then 0x01 else 0x00] in ret this.

Definition underline (this : ESCPOSBuilder) (mode : option Z)
  : M Store ESCPOSBuilder :=
  let mode := default 1 mode in
  let* _ := push this [ESC; 0x2d; mode] in ret this.

Definition text (this : ESCPOSBuilder) (text : jsstring)
  : M Store ESCPOSBuilder :=
  let encoded := utf8_encode text in
  let* _ := push_spread this encoded in ret this.

Definition line (this : ESCPOSBuilder) (txt : option jsstring)
  : M Store ESCPOSBuilder :=
  let txt := default [] txt in
  let* _ := text this txt in
  let* _ := push this [LF] in
  ret this.

(** [for (let i = 0; i < lines; i++) this.data.push(LF)], with the number of
    rounds that are left. *)
Fixpoint feed_loop (rounds : nat) (this : ESCPOSBuilder) : M Store unit :=
  match rounds with
  | O => ret tt
  | S k => let* _ := push this [LF] in feed_loop k this
  end.

Definition feed (this : ESCPOSBuilder) (lines : option Z)
  : M Store ESCPOSBuilder :=
  let lines := default 1 lines in
  let* _ := feed_loop (Z.to_nat lines) this in ret this.

Definition drawLine (this : ESCPOSBuilder) (char : option jsstring)
  (length : option Z) : M Store ESCPOSBuilder :=
  let char := default (js "-") char in
  let length := default 32 length in
  let* s := lift (String_repeat char length) in
  let* _ := line this (Some s) in
  ret this.

Definition barcode (this : ESCPOSBuilder) (dat : jsstring) (height : option Z)
  : M Store ESCPOSBuilder :=
  let height := default 50 height in
  let* _ := push this [GS; 0x68; height] in
  let* _ := push this [GS; 0x77; 0x02] in
  let* _ := push this [GS; 0x6b; 0x04] in
  let encoded := utf8_encode dat in
  let* _ := push_spread this encoded in
  let* _ := push this [0x00] in
  ret this.

Definition qrCode (this : ESCPOSBuilder) (dat : jsstring) (size : option Z)
  : M Store ESCPOSBuilder :=
  let size := default 6 size in
  let qrData := utf8_encode dat in
  let len := Z.of_nat (length qrData) in
  let pL := len mod 256 in
  let pH := len / 256 in
  let* _ := push this [GS; 0x28; 0x6b; 0x04; 0x00; 0x31; 0x41; 0x32; 0x00] in
  let* _ := push this [GS; 0x28; 0x6b; 0x03; 0x00; 0x31; 0x43; size] in
  let* _ := push this [GS; 0x28; 0x6b; 0x03; 0x00; 0x31; 0x45; 0x30] in
  let* _ := push this [GS; 0x28; 0x6b; pL + 3; pH; 0x31; 0x50; 0x30] in
  let* _ := push_spread this qrData in
  let* _ := push this [GS; 0x28; 0x6b; 0x03; 0x00; 0x31; 0x51; 0x30] in
  ret this.

Definition openDrawer (this : ESCPOSBuilder) : M Store ESCPOSBuilder :=
  let* _ := push this [ESC; 0x70; 0x00; 0x32; 0xff] in ret this.

Definition cut (this : ESCPOSBuilder) (type : option CutType)
  : M Store ESCPOSBuilder :=
  let type := default FULL type in
  let* _ := push this [GS; 0x56; CutType_value type] in ret this.

(** [new Uint8Array(this.data)]: a new array, every element converted. *)
Definition build (this : ESCPOSBuilder) : M Store loc :=
  fun σ => new_array (map ToUint8 (default [] (σ !! data this))) σ.

(** [this.data = []; this.initialize()] *)
Definition reset (this : ESCPOSBuilder) : M Store ESCPOSBuilder :=
  let* d := new_array [] in
  initialize {| data := d |}.

End WithEngine.

End Builder.

(* ===================================================================== *)
(** * Numbers as text: [Number.prototype.toString] and [toFixed] *)
(* ===================================================================== *)

Module Number.

Fixpoint digits_of_uint (u : Decimal.uint) : jsstring :=
  match u with
  | Nil => []
  | D0 r => 48 :: digits_of_uint r
  | D1 r => 49 :: digits_of_uint r
  | D2 r => 50 :: digits_of_uint r
  | D3 r => 51 :: digits_of_uint r
  | D4 r => 52 :: digits_of_uint r
  | D5 r => 53 :: digits_of_uint r
  | D6 r => 54 :: digits_of_uint r
  | D7 r => 55 :: digits_of_uint r
  | D8 r => 56 :: digits_of_uint r
  | D9 r => 57 :: digits_of_uint r
  end.

(** The decimal digits of a natural number; ["0"] for zero. *)
Definition decimal_digits (n : Z) : jsstring :=
  digits_of_uint (N.to_uint (Z.to_N n)).

(** A finite non-zero binary64 value is [m * 2^e], up to its sign. *)

(** The value when it is an integer. *)
Definition integer_value (m : positive) (e : Z) : option Z :=
  if 0 <=? e then Some (Zpos m * 2 ^ e)
  else if Zpos m mod 2 ^ (- e) =? 0 then Some (Zpos m / 2 ^ (- e))
  else None.

(** [10^21 <= m * 2^e] *)
Definition at_least_1e21 (m : positive) (e : Z) : bool :=
  if 0 <=? e then 10 ^ 21 <=? Zpos m * 2 ^ e
  else 10 ^ 21 * 2 ^ (- e) <=? Zpos m.

(** The integer [n] for which [n / 10^f - m * 2^e] is closest to zero, the
    larger one when there are two. *)
Definition nearest_scaled (f : Z) (m : positive) (e : Z) : Z :=
  let num := Zpos m * 10 ^ f in
  if 0 <=? e then num * 2 ^ e
  else (2 * num + 2 ^ (- e)) / (2 * 2 ^ (- e)).

Definition sign_text (negative : bool) : jsstring :=
  if negative then js "-" else [].

Section WithEngine.

(** [Number::toString] of the engine for the values whose text is not
    computed here: finite numbers that are not integers below [2^53] in
    magnitude. *)
Variable general : float -> jsstring.

(** [String(x)] for a number [x], as a template literal computes it. *)
Definition toString (x : float) : jsstring :=
  match Prim2SF x with
  | S754_nan => js "NaN"
  | S754_zero _ => js "0"
  | S754_infinity s => sign_text s ++ js "Infinity"
  | S754_finite s m e =>
      match integer_value m e with
      | Some n =>
          if n <? 2 ^ 53 then sign_text s ++ decimal_digits n else general x
      | None => general x
      end
  end.

(** [x.toFixed(2)] *)
Definition toFixed2 (x : float) : jsstring :=
  match Prim2SF x with
  | S754_nan => js "NaN"
  | S754_infinity s => sign_text s ++ js "Infinity"
  | S754_zero _ => js "0.00"
  | S754_finite s m e =>
      if at_least_1e21 m e then sign_text s ++ toString (PrimFloat.abs x)
      else
        let n := nearest_scaled 2 m e in
        let digits := decimal_digits n in
        let k := length digits in
        let digits :=
          if (k <=? 2)%nat then List.repeat 48 (3 - k)%nat ++ digits
          else digits in
        let k := length digits in
        sign_text s ++ firstn (k - 2) digits ++ js "." ++ skipn (k - 2) digits
  end.

End WithEngine.

End Number.

(* ===================================================================== *)
(** * The sample receipt *)
(* ===================================================================== *)

Record ReceiptItem := { name : jsstring; quantity : float; price : float }.

Section Receipt.

Context {engine : Engine}.

(** What the engine prints for numbers outside the integers, see
    [Number.toString]. *)
Variable general : float -> jsstring.

(** [new Date().toLocaleString()] at the time of the call. *)
Variable now : jsstring.

Let toString := Number.toString general.
Let toFixed2 := Number.toFixed2 general.

(** [items.forEach((item) => ...)], threading the captured [subtotal]. *)
Fixpoint forEach_item (builder : ESCPOSBuilder) (items : list ReceiptItem)
  (subtotal : float) : M Store float :=
  match items with
  | [] => ret subtotal
  | item :: rest =>
      let total := (quantity item * price item)%float in
      let subtotal := (subtotal + total)%float in
      let* itemLine :=
        lift (String_concat
                [padEnd (name item) 18; js " "; toString (quantity item);
                 js "x "; toFixed2 (price item)]) in
      let* _ := Builder.line builder (Some itemLine) in
      let* b := Builder.align builder RIGHT in
      let* amount := lift (String_concat [js "$"; toFixed2 total]) in
      let* b := Builder.line b (Some amount) in
      let* _ := Builder.align b LEFT in
      forEach_item builder rest subtotal
  end.

Definition buildReceipt (storeName : jsstring) (items : list ReceiptItem)
  (tax : option float) (payment : option jsstring) : M Store loc :=
  let tax := default 0%float tax in
  let payment := default (js "CASH") payment in
  let* builder := Builder.new in
  (* Header *)
  let* b := Builder.align builder CENTER in
  let* b := Builder.textSize b DOUBLE_BOTH in
  let* b := Builder.bold b (Some true) in
  let* b := Builder.line b (Some storeName) in
  let* b := Builder.bold b (Some false) in
  let* b := Builder.textSize b NORMAL in
  let* b := Builder.line b (Some now) in
  let* b := Builder.feed b (Some 1) in
  let* b := Builder.drawLine b (Some (js "=")) (Some 32) in
  let* _ := Builder.align b LEFT in
  (* Items *)
  let* subtotal := forEach_item builder items 0%float in
  (* Totals *)
  let* b := Builder.drawLine builder (Some (js "-")) (Some 32) in
  let* b := Builder.align b RIGHT in
  let* txt := lift (String_concat [js "Subtotal: $"; toFixed2 subtotal]) in
  let* _ := Builder.line b (Some txt) in
  let* _ :=
    if (0 <? tax)%float
    then
      let* txt := lift (String_concat [js "Tax: $"; toFixed2 tax]) in
      Builder.line builder (Some txt)
    else ret builder in
  let grandTotal := (subtotal + tax)%float in
  let* b := Builder.textSize builder DOUBLE_HEIGHT in
  let* b := Builder.bold b (Some true) in
  let* txt := lift (String_concat [js "TOTAL: $"; toFixed2 grandTotal]) in
  let* b := Builder.line b (Some txt) in
  let* b := Builder.textSize b NORMAL in
  let* b := Builder.bold b (Some false) in
  let* txt := lift (String_concat [js "Payment: "; payment]) in
  let* b := Builder.line b (Some txt) in
  let* _ := Builder.drawLine b (Some (js "=")) (Some 32) in
  (* Footer *)
  let* b := Builder.align builder CENTER in
  let* b := Builder.feed b (Some 1) in
  let* b := Builder.line b (Some (js "Thank you for your business!")) in
  let* b := Builder.line b (Some (js "Visit us again soon")) in
  let* b := Builder.feed b (Some 3) in
  let* _ := Builder.cut b None in
  Builder.build builder.

End Receipt.

(* ===================================================================== *)
(** * The WebUSB printer session *)
(* ===================================================================== *)

(** The descriptors and results of the WebUSB interface, with the members
    the code reads. *)
Module USB.

Inductive Direction := dir_in | dir_out.

Record USBEndpoint := { endpointNumber : Z; direction : Direction }.

(** [endpoints] is read with [?.]: it may be missing. *)
Record USBAlternateInterface :=
  { alternateSetting : Z; endpoints : option (list USBEndpoint) }.

Record USBInterface :=
  { interfaceNumber : Z;
    alternates : list USBAlternateInterface;
    claimed : bool }.

Record USBConfiguration :=
  { configurationValue : Z; interfaces : list USBInterface }.

(** A device object: its descriptors and its current condition.
    [configurations] is read with [?.]: it may be missing. *)
Record USBDevice :=
  { configurations : option (list USBConfiguration);
    configuration : option USBConfiguration;
    opened : bool;
    productName : option jsstring;
    manufacturerName : option jsstring;
    vendorId : Z;
    productId : Z;
    serialNumber : option jsstring }.

Inductive RequestType := request_standard | request_class | request_vendor.
Inductive Recipient :=
  recipient_device | recipient_interface | recipient_endpoint | recipient_other.

Record USBControlTransferParameters :=
  { requestType : RequestType;
    recipient : Recipient;
    request : Z;
    value : Z;
    index : Z }.

Inductive Status := ok | stall.

Definition Status_text (s : Status) : jsstring :=
  match s with ok => js "ok" | stall => js "stall" end.

Record USBOutTransferResult := { bytesWritten : Z; status : Status }.

(** The calls the session makes on a device, and what came back. *)
Inductive Call :=
| call_open
| call_selectConfiguration (configurationValue : Z)
| call_claimInterface (interfaceNumber : Z)
| call_controlTransferOut (setup : USBControlTransferParameters)
    (payload : list Z)
| call_transferOut (endpointNumber : Z) (payload : list Z)
| call_close.

Inductive Reply := reply_void | reply_out (r : USBOutTransferResult).

Definition Event : Type := Call * completion Reply.

(** The device's side: how it answers each call, given its condition and
    what has happened so far; it answers with a result or a thrown value and
    its new condition. *)
Record Transport :=
  { do_open : USBDevice -> list Event -> completion unit * USBDevice;
    do_selectConfiguration :
      Z -> USBDevice -> list Event -> completion unit * USBDevice;
    do_claimInterface :
      Z -> USBDevice -> list Event -> completion unit * USBDevice;
    do_controlTransferOut :
      USBControlTransferParameters -> list Z -> USBDevice -> list Event ->
      completion USBOutTransferResult * USBDevice;
    do_transferOut :
      Z -> list Z -> USBDevice -> list Event ->
      completion USBOutTransferResult * USBDevice;
    do_close : USBDevice -> list Event -> completion unit * USBDevice }.

End USB.

Module Printer.

Import USB.

Record PrinterEndpoint := { iface : USB.USBInterface; endpointNumber : Z }.

Record PrinterInfo :=
  { productName : option jsstring;
    manufacturerName : option jsstring;
    vendorId : Z;
    productId : Z;
    serialNumber : option jsstring }.

(** What [print] resolves to. *)
Record TransferOutcome :=
  { success : bool; bytesWritten : option Z; error : option jsstring }.

(** An instance of [WebUSBPrinter] with the device object its field [device]
    refers to, and the record of the calls made on the device. *)
Record WebUSBPrinter :=
  { device : option USB.USBDevice; calls : list USB.Event }.

Definition TypeError_null : Thrown :=
  {| err_message := Some (js "Cannot read properties of null");
     err_string := js "TypeError: Cannot read properties of null" |}.

Definition completion_map {A B} (f : A -> B) (c : completion A)
  : completion B :=
  match c with Normal a => Normal (f a) | Throw e => Throw e end.

(** One call on the device: the device answers, and the call is recorded. *)
Definition invoke {A} (c : Call) (reply : A -> Reply)
  (answer : USBDevice -> list Event -> completion A * USBDevice)
  : M WebUSBPrinter A :=
  fun s =>
    match device s with
    | None => (Throw TypeError_null, s)
    | Some d =>
        let '(r, d') := answer d (calls s) in
        (r, {| device := Some d';
               calls := calls s ++ [(c, completion_map reply r)] |})
    end.

Definition connect (dev : USBDevice) : M WebUSBPrinter unit :=
  fun s => (Normal tt, {| device := Some dev; calls := calls s |}).

Definition is_out (e : USBEndpoint) : bool :=
  match direction e with dir_out => true | dir_in => false end.

(** [for (const alt of iface.alternates)] *)
Fixpoint scan_alternates (ifc : USBInterface)
  (alts : list USBAlternateInterface) : option PrinterEndpoint :=
  match alts with
  | [] => None
  | alt :: rest =>
      match endpoints alt ≫= List.find is_out with
      | Some ep =>
          Some {| iface := ifc; endpointNumber := USB.endpointNumber ep |}
      | None => scan_alternates ifc rest
      end
  end.

(** [for (const iface of config.interfaces)] *)
Fixpoint scan_interfaces (ifaces : list USBInterface)
  : option PrinterEndpoint :=
  match ifaces with
  | [] => None
  | ifc :: rest =>
      match scan_alternates ifc (alternates ifc) with
      | Some r => Some r
      | None => scan_interfaces rest
      end
  end.

Definition findOutEndpoint (dev : USBDevice) : option PrinterEndpoint :=
  match configurations dev ≫= head with
  | None => None
  | Some config => scan_interfaces (interfaces config)
  end.

Section WithTransport.

Variable usb : Transport.

(** One call on a device object that a method was handed: the device
    answers, the object is in its new condition, and the call is added to
    the record. *)
Definition call {A} (c : Call) (reply : A -> Reply)
  (answer : USBDevice -> list Event -> completion A * USBDevice)
  (device : USBDevice) (log : list Event)
  : completion A * (USBDevice * list Event) :=
  let '(r, device) := answer device log in
  (r, (device, log ++ [(c, completion_map reply r)])).

(** [openAndClaim(device, interfaceNumber)] does not use [this]: it works on
    the device object it is handed. The object changes under the calls, so
    that it is passed along with the record of calls: a member of [device]
    is read from the object as it is when the code reads it. *)
Definition openAndClaim (device : USBDevice) (interfaceNumber : Z)
  (log : list Event) : completion unit * (USBDevice * list Event) :=
  let '(r, (device, log)) :=
    if negb (opened device)
    then call call_open (fun _ => reply_void) (do_open usb) device log
    else (Normal tt, (device, log)) in
  match r with
  | Throw e => (Throw e, (device, log))
  | Normal _ =>
      let '(r, (device, log)) :=
        if negb (bool_decide
                   (configurationValue <$> configuration device = Some 1))
           && bool_decide (is_Some (configurations device ≫= head))
        then call (call_selectConfiguration 1) (fun _ => reply_void)
               (do_selectConfiguration usb 1) device log
        else (Normal tt, (device, log)) in
      match r with
      | Throw e => (Throw e, (device, log))
      | Normal _ =>
          call (call_claimInterface interfaceNumber) (fun _ => reply_void)
            (do_claimInterface usb interfaceNumber) device log
      end
  end.

(** A method called with [this.device] as its argument: it works on the
    device object of the session, and what it does to the object and to the
    record of calls is what the session sees afterwards. *)
Definition on_device {A}
  (method : USBDevice -> list Event -> completion A * (USBDevice * list Event))
  : M WebUSBPrinter A :=
  fun s =>
    match device s with
    | None => (Throw TypeError_null, s)
    | Some d =>
        let '(r, (d', log)) := method d (calls s) in
        (r, {| device := Some d'; calls := log |})
    end.

Definition failure (msg : jsstring) : TransferOutcome :=
  {| success := false; bytesWritten := None; error := Some msg |}.

Definition priming (interfaceNumber : Z) : USBControlTransferParameters :=
  {| requestType := request_class;
     recipient := recipient_interface;
     request := 0x22;
     value := 0x01;
     index := interfaceNumber |}.

Definition print (dat : list Z) : M WebUSBPrinter TransferOutcome :=
  fun s =>
    match device s with
    | None => (Normal (failure (js "No device connected")), s)
    | Some dev =>
        match findOutEndpoint dev with
        | None => (Normal (failure (js "No OUT endpoint found")), s)
        | Some endpoint =>
            try_catch
              (let* _ :=
                 on_device
                   (fun device =>
                      openAndClaim device (interfaceNumber (iface endpoint))) in
               let* _ :=
                 try_catch
                   (let* _ :=
                      invoke
                        (call_controlTransferOut
                           (priming (interfaceNumber (iface endpoint))) [])
                        reply_out
                        (do_controlTransferOut usb
                           (priming (interfaceNumber (iface endpoint))) []) in
                    ret tt)
                   (fun _ => ret tt) in
               let* result :=
                 invoke (call_transferOut (endpointNumber endpoint) dat)
                   reply_out
                   (do_transferOut usb (endpointNumber endpoint) dat) in
               match USB.status result with
               | ok =>
                   ret {| success := true;
                          bytesWritten := Some (USB.bytesWritten result);
                          error := None |}
               | st => ret (failure (js "Transfer status: " ++ Status_text st))
               end)
              (fun err =>
                 ret (failure (default (err_string err) (err_message err))))
              s
        end
    end.

Definition disconnect : M WebUSBPrinter unit :=
  fun s =>
    let '(r, s') :=
      match device s with
      | Some dev =>
          if opened dev
          then invoke call_close (fun _ => reply_void) (do_close usb) s
          else (Normal tt, s)
      | None => (Normal tt, s)
      end in
    match r with
    | Normal _ => (Normal tt, {| device := None; calls := calls s' |})
    | Throw e => (Throw e, s')
    end.

End WithTransport.

Definition getDeviceInfo (s : WebUSBPrinter) : option PrinterInfo :=
  match device s with
  | None => None
  | Some dev =>
      Some {| productName := USB.productName dev;
              manufacturerName := USB.manufacturerName dev;
              vendorId := USB.vendorId dev;
              productId := USB.productId dev;
              serialNumber := USB.serialNumber dev |}
  end.

End Printer.

(* ===================================================================== *)
(** * Clients of the builder, and reading the bytes as text *)
(* ===================================================================== *)

(** A call of a public method of the builder. *)
Inductive Op :=
| op_initialize
| op_align (alignment : TextAlign)
| op_textSize (size : TextSize)
| op_bold (enabled : option bool)
| op_underline (mode : option Z)
| op_text (txt : jsstring)
| op_line (txt : option jsstring)
| op_feed (lines : option Z)
| op_drawLine (char : option jsstring) (length : option Z)
| op_barcode (dat : jsstring) (height : option Z)
| op_qrCode (dat : jsstring) (size : option Z)
| op_openDrawer
| op_cut (type : option CutType)
| op_build
| op_reset.

Section Clients.

Context {engine : Engine}.

(** The call on [this]; the result is the builder, as the client holds it
    afterwards. *)
Definition call_op (o : Op) (this : ESCPOSBuilder) : M Store ESCPOSBuilder :=
  match o with
  | op_initialize => Builder.initialize this
  | op_align a => Builder.align this a
  | op_textSize s => Builder.textSize this s
  | op_bold e => Builder.bold this e
  | op_underline m => Builder.underline this m
  | op_text t => Builder.text this t
  | op_line t => Builder.line this t
  | op_feed n => Builder.feed this n
  | op_drawLine c n => Builder.drawLine this c n
  | op_barcode d h => Builder.barcode this d h
  | op_qrCode d s => Builder.qrCode this d s
  | op_openDrawer => Builder.openDrawer this
  | op_cut t => Builder.cut this t
  | op_build => let* _ := Builder.build this in ret this
  | op_reset => Builder.reset this
  end.

(** A client that makes the calls one after the other and goes on with the
    same builder when a call throws. *)
Fixpoint script (ops : list Op) (this : ESCPOSBuilder) (σ : Store)
  : ESCPOSBuilder * Store :=
  match ops with
  | [] => (this, σ)
  | o :: rest =>
      match call_op o this σ with
      | (Normal this', σ') => script rest this' σ'
      | (Throw _, σ') => script rest this σ'
      end
  end.

End Clients.

(** The bytes a text contributes to a built array. *)
Definition text_bytes (s : jsstring) : list Z := map ToUint8 (utf8_encode s).

Fixpoint starts_with (pat l : list Z) : bool :=
  match pat, l with
  | [], _ => true
  | p :: pat', x :: l' => (p =? x) && starts_with pat' l'
  | _ :: _, [] => false
  end.

(** [pat] is somewhere in [l]. *)
Fixpoint occurs (pat l : list Z) : bool :=
  starts_with pat l
  || match l with
     | [] => false
     | _ :: l' => occurs pat l'
     end.

(** The built bytes [out], read as text, show [s]. *)
Definition shows (out : list Z) (s : string) : bool :=
  occurs (text_bytes (js s)) out.

(** The bytes cut at every line feed. *)
Fixpoint lines_of (bs : list Z) : list (list Z) :=
  match bs with
  | [] => [[]]
  | b :: rest =>
      if b =? LF then [] :: lines_of rest
      else
        match lines_of rest with
        | l :: ls => (b :: l) :: ls
        | [] => [[b]]
        end
  end.

Definition join_lines (lines : list (list Z)) : list Z :=
  flat_map (fun l => l ++ [LF]) lines.

(** * The layout of a receipt, as the specification describes it *)

Section Layout.

Variable general : float -> jsstring.
Variable now : jsstring.

Let toString := Number.toString general.
Let toFixed2 := Number.toFixed2 general.

(** The sum of the line totals, none of them rounded. *)
Definition subtotal_of (items : list ReceiptItem) : float :=
  fold_left (fun acc item => (acc + quantity item * price item)%float)
    items 0%float.

Definition rule (c : string) : list Z :=
  utf8_encode (List.concat (List.repeat (js c) 32)).

Definition item_lines (item : ReceiptItem) : list (list Z) :=
  [ [ESC; 0x61; 0x00]
      ++ utf8_encode
           (padEnd (name item) 18 ++ js " " ++ toString (quantity item)
              ++ js "x " ++ toFixed2 (price item));
    [ESC; 0x61; 0x02]
      ++ utf8_encode
           (js "$" ++ toFixed2 (quantity item * price item)%float) ].

Definition tax_lines (tax : float) : list (list Z) :=
  if (0 <? tax)%float then [utf8_encode (js "Tax: $" ++ toFixed2 tax)]
  else [].

(** The lines of a receipt, each one ended by a line feed in the output. *)
Definition receipt_lines (storeName : jsstring) (items : list ReceiptItem)
  (tax : float) (payment : jsstring) : list (list Z) :=
  [ [ESC; 0x40; ESC; 0x61; 0x01; ESC; 0x21; 0x30; ESC; 0x45; 0x01]
      ++ utf8_encode storeName;
    [ESC; 0x45; 0x00; ESC; 0x21; 0x00] ++ utf8_encode now;
    [];
    rule "=" ]
  ++ flat_map item_lines items
  ++ [ [ESC; 0x61; 0x00] ++ rule "-";
       [ESC; 0x61; 0x02]
         ++ utf8_encode (js "Subtotal: $" ++ toFixed2 (subtotal_of items)) ]
  ++ tax_lines tax
  ++ [ [ESC; 0x21; 0x10; ESC; 0x45; 0x01]
         ++ utf8_encode
              (js "TOTAL: $" ++ toFixed2 (subtotal_of items + tax)%float);
       [ESC; 0x21; 0x00; ESC; 0x45; 0x00]
         ++ utf8_encode (js "Payment: " ++ payment);
       rule "=";
       [ESC; 0x61; 0x01];
       utf8_encode (js "Thank you for your business!");
       utf8_encode (js "Visit us again soon");
       [];
       [];
       [] ].

(** What follows the last line feed: the full cut. *)
Definition receipt_trailer : list Z := [GS; 0x56; 0x00].

(** The texts that depend on what is printed: the two of an item, and
    those of a whole receipt in the order they are pushed. *)
Definition item_texts (item : ReceiptItem) : list jsstring :=
  [ padEnd (name item) 18 ++ js " " ++ toString (quantity item)
      ++ js "x " ++ toFixed2 (price item);
    js "$" ++ toFixed2 (quantity item * price item)%float ].

Definition receipt_texts (storeName : jsstring) (items : list ReceiptItem)
  (tax : float) (payment : jsstring) : list jsstring :=
  [storeName; now]
  ++ flat_map item_texts items
  ++ [js "Subtotal: $" ++ toFixed2 (subtotal_of items)]
  ++ (if (0 <? tax)%float then [js "Tax: $" ++ toFixed2 tax] else [])
  ++ [ js "TOTAL: $" ++ toFixed2 (subtotal_of items + tax)%float;
       js "Payment: " ++ payment ].

Definition receipt_data (storeName : jsstring) (items : list ReceiptItem)
  (tax : float) (payment : jsstring) : list Z :=
  join_lines (receipt_lines storeName items tax payment) ++ receipt_trailer.

End Layout.

(** * The store-data frame of a QR code, as the specification describes it *)

Definition qr_store_header (len : Z) : list Z :=
  [0x1D; 0x28; 0x6B; (len + 3) mod 256; (len + 3) / 256; 0x31; 0x50; 0x30].

(* ===================================================================== *)
(** * Notions used in the statements *)
(* ===================================================================== *)

(** Printable ASCII: one code unit, one byte, and never a line feed. *)
Definition printable (s : jsstring) : Prop := Forall (λ c, 32 <= c < 127) s.

(** A literal of printable characters. *)
Definition printableb (s : jsstring) : bool :=
  forallb (λ c, (32 <=? c) && (c <? 127)) s.

(** A text that contributes no line feed to the output. *)
Definition single_line (s : jsstring) : Prop := ¬ In LF (text_bytes s).

(** A line of the layout that holds no line feed once built. *)
Definition line_ok (l : list Z) : Prop := ¬ In LF (map ToUint8 l).


(** The bytes of the array a computation returns. *)
Definition built (c : M Store loc) (σ : Store) : option (list Z) :=
  match c σ with
  | (Normal r, σ') => σ' !! r
  | (Throw _, _) => None
  end.

Section ItemData.

Variable general : float → jsstring.

(** What one round of the loop over the items pushes. *)
Definition item_data (item : ReceiptItem) : list Z :=
  utf8_encode
    (padEnd (name item) 18 ++ js " "
       ++ Number.toString general (quantity item)
       ++ js "x " ++ Number.toFixed2 general (price item))
  ++ [0x0A] ++ [0x1B; 0x61; 0x02]
  ++ utf8_encode
       (js "$" ++ Number.toFixed2 general (quantity item * price item)%float)
  ++ [0x0A] ++ [0x1B; 0x61; 0x00].

End ItemData.


(** The two length bytes [qrCode] pushes, for data of [len] bytes. *)
Definition qrCode_length_bytes (len : Z) : Z * Z := (len mod 256 + 3, len / 256).

Section Fitting.

Context {engine : Engine}.

(** A text whose bytes are no more than one call of [push] takes. *)
Definition fits (t : jsstring) : Prop :=
  Z.of_nat (length (utf8_encode t)) <= max_arguments.

(** The message of the error thrown for a text that does not fit: where the
    text is made, when it is too long for a string; where it is pushed,
    otherwise. *)
Definition overflow_message (t : jsstring) : jsstring :=
  if max_string_length <? Z.of_nat (length t)
  then message_invalid_string_length
  else message_too_many_arguments.

(** A receipt all of whose texts fit. *)
Definition receipt_fits (general : float → jsstring) (now : jsstring)
  (storeName : jsstring) (items : list ReceiptItem) (tax : float)
  (payment : jsstring) : Prop :=
  Forall fits (receipt_texts general now storeName items tax payment).

End Fitting.

(** An engine for the examples: one that takes 100 000 arguments in a call
    and makes strings of up to [2^29 - 24] code units, and that words its
    errors as V8 does. *)
Definition example_engine : Engine :=
  {| max_arguments := 100000;
     max_string_length := 536870888;
     max_arguments_floor := ltac:(lia);
     max_string_length_floor := ltac:(lia);
     message_too_many_arguments := js "Maximum call stack size exceeded";
     message_invalid_string_length := js "Invalid string length";
     message_invalid_count := λ n,
       js "Invalid count value: " ++ Number.sign_text (n <? 0)
         ++ Number.decimal_digits (Z.abs n) |}.

Section BuilderEffects.

Implicit Types (this : ESCPOSBuilder) (σ : Store) (buf : list Z).

(** A call either appends to the buffer and returns, or throws after it has
    appended what it pushes before the throw (nothing, for most), or (for
    [build]) makes a new array, or (for [reset]) gives the builder a new
    buffer. *)
Inductive effect this σ buf : Op → completion ESCPOSBuilder * Store → Prop :=
| effect_append o bs :
    o ≠ op_build → o ≠ op_reset →
    effect this σ buf o (Normal this, <[data this := buf ++ bs]> σ)
| effect_throw o e bs :
    o ≠ op_build → o ≠ op_reset →
    effect this σ buf o (Throw e, <[data this := buf ++ bs]> σ)
| effect_build :
    effect this σ buf op_build
      (Normal this, <[fresh (dom σ) := map ToUint8 buf]> σ)
| effect_reset :
    effect this σ buf op_reset
      (Normal {| data := fresh (dom σ) |},
       <[fresh (dom σ) := [0x1B; 0x40]]> σ).

End BuilderEffects.

Section DeviceNotions.

Import USB Printer.

(** An alternate setting without an OUT endpoint. *)
Definition has_no_out (alt : USBAlternateInterface) : Prop :=
  ∀ eps, endpoints alt = Some eps → Forall (λ e, direction e = dir_in) eps.

(** The device of the specification's example: two interfaces, and an OUT
    endpoint only in the second alternate setting of the second one. *)
Definition ep_in (n : Z) : USBEndpoint :=
  {| USB.endpointNumber := n; direction := dir_in |}.
Definition ep_out (n : Z) : USBEndpoint :=
  {| USB.endpointNumber := n; direction := dir_out |}.
Definition example_iface0 : USBInterface :=
  {| interfaceNumber := 0;
     alternates := [ {| alternateSetting := 0; endpoints := Some [ep_in 1] |} ];
     claimed := false |}.
Definition example_iface1 : USBInterface :=
  {| interfaceNumber := 1;
     alternates :=
       [ {| alternateSetting := 0; endpoints := Some [ep_in 2] |};
         {| alternateSetting := 1; endpoints := Some [ep_in 2; ep_out 3] |} ];
     claimed := false |}.
Definition example_device (configs : option (list USBConfiguration))
  : USBDevice :=
  {| configurations := configs;
     configuration := None;
     opened := false;
     USB.productName := None;
     USB.manufacturerName := None;
     USB.vendorId := 0x04b8;
     USB.productId := 0x0e15;
     USB.serialNumber := None |}.
Definition example_config : USBConfiguration :=
  {| configurationValue := 1;
     interfaces := [example_iface0; example_iface1] |}.


(** The priming control transfer. *)
Definition is_priming (c : Call) : bool :=
  match c with call_controlTransferOut _ _ => true | _ => false end.


(** What [print] reports for the result of the bulk transfer. *)
Definition transfer_outcome (r : USBOutTransferResult) : TransferOutcome :=
  match USB.status r with
  | ok => {| success := true;
             bytesWritten := Some (USB.bytesWritten r);
             error := None |}
  | stall => failure (js "Transfer status: stall")
  end.


(** A printer whose priming control transfer throws and whose bulk transfer
    stalls. *)
Definition NotSupportedError : Thrown :=
  {| err_message := Some (js "The request is not supported");
     err_string := js "NotSupportedError: The request is not supported" |}.

Definition stalling_printer : Transport :=
  {| do_open := λ d _,
       (Normal tt,
        {| configurations := configurations d;
           configuration := configuration d;
           opened := true;
           USB.productName := USB.productName d;
           USB.manufacturerName := USB.manufacturerName d;
           USB.vendorId := USB.vendorId d;
           USB.productId := USB.productId d;
           USB.serialNumber := USB.serialNumber d |});
     do_selectConfiguration := λ _ d _, (Normal tt, d);
     do_claimInterface := λ _ d _, (Normal tt, d);
     do_controlTransferOut := λ _ _ d _, (Throw NotSupportedError, d);
     do_transferOut := λ _ _ d _,
       (Normal {| USB.bytesWritten := 0; status := stall |}, d);
     do_close := λ d _, (Normal tt, d) |}.

End DeviceNotions.

(* ===================================================================== *)
(** * The rest of the code: what the session asks of the browser, and the
      item list of the receipt form *)
(* ===================================================================== *)

(** A string as JavaScript has them: every code unit is a 16-bit value. *)
Definition well_formed (s : jsstring) : Prop := Forall (λ c, 0 <= c < 65536) s.

Definition is_byte (b : Z) : Prop := 0 <= b < 256.

(** The characters of a string, as Unicode has them: a high surrogate
    followed by a low one is one character beyond U+FFFF; any other
    surrogate stands for U+FFFD; every other code unit is its own
    character. *)
Fixpoint code_points (s : jsstring) : list Z :=
  match s with
  | [] => []
  | c :: rest =>
      if is_high_surrogate c then
        match rest with
        | d :: rest' =>
            if is_low_surrogate d
            then (0x10000 + (c - 0xD800) * 0x400 + (d - 0xDC00))
                   :: code_points rest'
            else 0xFFFD :: code_points rest
        | [] => [0xFFFD]
        end
      else if is_low_surrogate c then 0xFFFD :: code_points rest
      else c :: code_points rest
  end.

(** Reading UTF-8 (RFC 3629): one byte below 0x80; two bytes from 0xC2, for
    U+0080 to U+07FF; three bytes from 0xE0, for U+0800 to U+FFFF without
    the surrogates; four bytes from 0xF0, for U+10000 to U+10FFFF; every
    byte after the first is one of 0x80 to 0xBF. Anything else is not
    UTF-8. *)
Definition is_continuation (b : Z) : bool := (0x80 <=? b) && (b <=? 0xBF).

Fixpoint utf8_decode (bs : list Z) : option (list Z) :=
  match bs with
  | [] => Some []
  | b1 :: r1 =>
      if (0 <=? b1) && (b1 <=? 0x7F) then cons b1 <$> utf8_decode r1
      else
        match r1 with
        | [] => None
        | b2 :: r2 =>
            if (0xC2 <=? b1) && (b1 <=? 0xDF) then
              if is_continuation b2
              then cons ((b1 - 0xC0) * 0x40 + (b2 - 0x80)) <$> utf8_decode r2
              else None
            else
              match r2 with
              | [] => None
              | b3 :: r3 =>
                  if (0xE0 <=? b1) && (b1 <=? 0xEF) then
                    let cp :=
                      (b1 - 0xE0) * 0x1000 + (b2 - 0x80) * 0x40
                      + (b3 - 0x80) in
                    if is_continuation b2 && is_continuation b3
                       && (0x800 <=? cp)
                       && negb ((0xD800 <=? cp) && (cp <=? 0xDFFF))
                    then cons cp <$> utf8_decode r3
                    else None
                  else
                    match r3 with
                    | [] => None
                    | b4 :: r4 =>
                        if (0xF0 <=? b1) && (b1 <=? 0xF4) then
                          let cp :=
                            (b1 - 0xF0) * 0x40000 + (b2 - 0x80) * 0x1000
                            + (b3 - 0x80) * 0x40 + (b4 - 0x80) in
                          if is_continuation b2 && is_continuation b3
                             && is_continuation b4
                             && (0x10000 <=? cp) && (cp <=? 0x10FFFF)
                          then cons cp <$> utf8_decode r4
                          else None
                        else None
                    end
              end
        end
  end.

(** A decimal digit, as a code unit. *)
Definition is_digit (c : Z) : Prop := 48 <= c <= 57.

(** A number that [toFixed] prints in decimal notation: zero, or a finite
    number below [10^21] in magnitude. *)
Definition prints_in_decimal (x : float) : Prop :=
  match Prim2SF x with
  | S754_zero _ => True
  | S754_finite _ m e => Number.at_least_1e21 m e = false
  | _ => False
  end.

(** ** Asking the browser for devices *)

Module Navigator.

Import USB Printer.

(** An element of the [filters] argument of [requestDevice]. *)
Record USBDeviceFilter :=
  { vendorId : option Z; productId : option Z }.

(** [navigator.usb]: what the browser answers to [getDevices()] and to
    [requestDevice({filters})], a result or a rejection. *)
Record USB :=
  { answer_getDevices : completion (list USBDevice);
    answer_requestDevice : list USBDeviceFilter → completion USBDevice }.

(** The thrown [new Error('WebUSB is not supported in this browser')]. *)
Definition Error_not_supported : Thrown :=
  {| err_message := Some (js "WebUSB is not supported in this browser");
     err_string := js "Error: WebUSB is not supported in this browser" |}.

Section WithNavigator.

(** [navigator.usb], or [None] when ['usb' in navigator] is false. *)
Variable usb : option USB.

Definition getDevices : M WebUSBPrinter (list USBDevice) :=
  match usb with
  | None => throw Error_not_supported
  | Some api => lift (answer_getDevices api)
  end.

Definition requestDevice (filters : option (list USBDeviceFilter))
  : M WebUSBPrinter USBDevice :=
  match usb with
  | None => throw Error_not_supported
  | Some api =>
      let deviceFilters :=
        default [ {| vendorId := None; productId := None |} ] filters in
      let* dev := lift (answer_requestDevice api deviceFilters) in
      let* _ :=
        (λ s, (Normal tt, {| device := Some dev; calls := calls s |})) in
      ret dev
  end.

End WithNavigator.

End Navigator.

Section SessionNotions.

Import USB Printer.

(** The calls [print] makes when nothing fails, in their order: [open]
    unless the device is open, [selectConfiguration(1)] when [select] says
    so, then the claim, the priming transfer and the bulk transfer. *)
Definition print_plan (dev : USBDevice) (select : bool) (pe : PrinterEndpoint)
  (dat : list Z) : list Call :=
  (if opened dev then [] else [call_open])
  ++ (if select then [call_selectConfiguration 1] else [])
  ++ [ call_claimInterface (interfaceNumber (iface pe));
       call_controlTransferOut (priming (interfaceNumber (iface pe))) [];
       call_transferOut (endpointNumber pe) dat ].

(** Whether [openAndClaim] selects configuration 1 on a device in this
    condition: the value of its active configuration is not 1 (or it has no
    active configuration), and it has a first configuration. *)
Definition needs_configuration (dev : USBDevice) : bool :=
  negb (bool_decide (configurationValue <$> configuration dev = Some 1))
  && bool_decide (is_Some (configurations dev ≫= head)).

(** The calls of [openAndClaim] when nothing fails. *)
Definition claim_plan (dev : USBDevice) (select : bool) (n : Z) : list Call :=
  (if opened dev then [] else [call_open])
  ++ (if select then [call_selectConfiguration 1] else [])
  ++ [call_claimInterface n].

(** The identifiers of a device. *)
Definition info_of (dev : USBDevice) : PrinterInfo :=
  {| productName := USB.productName dev;
     manufacturerName := USB.manufacturerName dev;
     vendorId := USB.vendorId dev;
     productId := USB.productId dev;
     serialNumber := USB.serialNumber dev |}.

(** A device that is open and answers every call. *)
Definition willing_printer : Transport :=
  {| do_open := λ d _, (Normal tt, d);
     do_selectConfiguration := λ _ d _, (Normal tt, d);
     do_claimInterface := λ _ d _, (Normal tt, d);
     do_controlTransferOut := λ _ p d _,
       (Normal {| USB.bytesWritten := Z.of_nat (length p); status := ok |}, d);
     do_transferOut := λ _ p d _,
       (Normal {| USB.bytesWritten := Z.of_nat (length p); status := ok |}, d);
     do_close := λ d _, (Normal tt, d) |}.

End SessionNotions.

(** ** The item list of the receipt form ([PrinterControl.tsx]) *)

From Stdlib Require Uint63.

Module PrinterControl.

(** [array.filter((x, i) => keep(x, i))], the index counted from [i]. *)
Fixpoint filter_indexed {A} (keep : A → Z → bool) (i : Z) (l : list A)
  : list A :=
  match l with
  | [] => []
  | x :: rest =>
      if keep x i then x :: filter_indexed keep (i + 1) rest
      else filter_indexed keep (i + 1) rest
  end.

Section WithEngine.

Variable general : float → jsstring.

(** The new value of [items] that [handleAddItem] sets. *)
Definition handleAddItem (items : list ReceiptItem) : list ReceiptItem :=
  items
    ++ [ {| name :=
              js "Item "
                ++ Number.toString general
                     (PrimFloat.of_uint63
                        (Uint63.of_Z (Z.of_nat (length items) + 1)));
            quantity := 1;
            price := 0 |} ].

End WithEngine.

(** The new value of [items] that [handleRemoveItem(index)] sets. *)
Definition handleRemoveItem (items : list ReceiptItem) (index : Z)
  : list ReceiptItem :=
  filter_indexed (λ _ i, negb (i =? index)) 0 items.

End PrinterControl.


(* ===================================================================== *)
(** * Text and lines *)
(* ===================================================================== *)

Section TextFacts.

Lemma utf8_encode_printable s : printable s → utf8_encode s = s.
Proof.
  induction 1 as [|c s Hc Hs IH]; [reflexivity|].
  cbn [utf8_encode]. unfold is_high_surrogate, is_low_surrogate.
  destruct (Z.leb_spec 0xD800 c); [lia|].
  destruct (Z.leb_spec 0xDC00 c); [lia|]. cbn [andb].
  unfold utf8_of_code_point. destruct (Z.ltb_spec c 0x80); [|lia].
  cbn [app]. by rewrite IH.
Qed.

Lemma ToUint8_printable s : printable s → map ToUint8 s = s.
Proof.
  induction 1 as [|c s Hc Hs IH]; [reflexivity|].
  cbn [map]. rewrite IH. unfold ToUint8. by rewrite Z.mod_small by lia.
Qed.

Lemma text_bytes_printable s : printable s → text_bytes s = s.
Proof.
  intros H. unfold text_bytes.
  rewrite (utf8_encode_printable _ H). by apply ToUint8_printable.
Qed.

Lemma printable_app a b : printable a → printable b → printable (a ++ b).
Proof. apply Forall_app_2. Qed.

Lemma printable_no_LF s : printable s → ¬ In LF s.
Proof.
  intros H Hin. unfold printable in H. rewrite Forall_forall in H.
  apply list_elem_of_In in Hin. specialize (H _ Hin). unfold LF in H. lia.
Qed.

(** Encoding goes through a concatenation unless that would join the two
    halves of a surrogate pair. *)
Lemma utf8_encode_cons c rest :
  utf8_encode (c :: rest)
  = if is_high_surrogate c then
      match rest with
      | d :: rest' =>
          if is_low_surrogate d then
            utf8_of_code_point (0x10000 + (c - 0xD800) * 0x400 + (d - 0xDC00))
              ++ utf8_encode rest'
          else replacement ++ utf8_encode rest
      | [] => replacement
      end
    else if is_low_surrogate c then replacement ++ utf8_encode rest
    else utf8_of_code_point c ++ utf8_encode rest.
Proof. by destruct rest. Qed.

Lemma utf8_encode_app_aux n :
  ∀ a b, (length a <= n)%nat →
    (∀ d b', b = d :: b' → is_low_surrogate d = false) →
    utf8_encode (a ++ b) = utf8_encode a ++ utf8_encode b.
Proof.
  induction n as [|n IH]; intros a b Hlen Hb.
  - destruct a; [reflexivity | cbn in Hlen; lia].
  - destruct a as [|c rest]; [reflexivity|].
    cbn [length] in Hlen.
    change ((c :: rest) ++ b) with (c :: (rest ++ b)).
    rewrite (utf8_encode_cons c (rest ++ b)), (utf8_encode_cons c rest).
    destruct (is_high_surrogate c).
    + destruct rest as [|d rest'].
      * destruct b as [|d b']; [reflexivity|].
        cbn [app]. by rewrite (Hb d b' eq_refl).
      * cbn [length] in Hlen.
        change ((d :: rest') ++ b) with (d :: (rest' ++ b)).
        cbv beta iota.
        destruct (is_low_surrogate d).
        -- rewrite (IH rest' b) by first [exact Hb | lia]. by rewrite app_assoc.
        -- change (d :: (rest' ++ b)) with ((d :: rest') ++ b).
           rewrite (IH (d :: rest') b) by first [exact Hb | cbn [length]; lia].
           by rewrite app_assoc.
    + destruct (is_low_surrogate c);
        rewrite (IH rest b) by first [exact Hb | lia]; by rewrite app_assoc.
Qed.

Lemma utf8_encode_app a b :
  (∀ d b', b = d :: b' → is_low_surrogate d = false) →
  utf8_encode (a ++ b) = utf8_encode a ++ utf8_encode b.
Proof. apply (utf8_encode_app_aux (length a)). lia. Qed.

Lemma utf8_encode_app_printable a b :
  printable b → utf8_encode (a ++ b) = utf8_encode a ++ b.
Proof.
  intros Hb. rewrite utf8_encode_app, (utf8_encode_printable _ Hb); [done|].
  intros d b' ->. apply Forall_cons in Hb as [Hd _].
  unfold is_low_surrogate. destruct (Z.leb_spec 0xDC00 d); [lia|done].
Qed.

Lemma utf8_encode_printable_app a b :
  printable a → utf8_encode (a ++ b) = a ++ utf8_encode b.
Proof.
  induction 1 as [|c s Hc Hs IH]; [reflexivity|].
  cbn [app utf8_encode]. unfold is_high_surrogate, is_low_surrogate.
  destruct (Z.leb_spec 0xD800 c); [lia|].
  destruct (Z.leb_spec 0xDC00 c); [lia|]. cbn [andb].
  unfold utf8_of_code_point. destruct (Z.ltb_spec c 0x80); [|lia].
  cbn [app]. by rewrite IH.
Qed.

Lemma printable_repeat c n : 32 <= c < 127 → printable (List.repeat c n).
Proof. intros Hc. induction n; cbn; by constructor. Qed.

Lemma printable_concat_repeat s n :
  printable s → printable (List.concat (List.repeat s n)).
Proof.
  intros Hs. induction n; cbn; [constructor|]. by apply printable_app.
Qed.

Lemma printableb_spec s : printableb s = true → printable s.
Proof.
  unfold printableb, printable. rewrite forallb_forall, Forall_forall.
  intros H c Hc. apply list_elem_of_In, H in Hc. lia.
Qed.

(** ** Looking for a text *)

Lemma starts_with_app pat l rest :
  starts_with pat l = true → starts_with pat (l ++ rest) = true.
Proof.
  revert l. induction pat as [|p pat IH]; intros l H; [reflexivity|].
  destruct l as [|x l]; [discriminate|]. cbn in *.
  apply andb_true_iff in H as [-> H]. by rewrite IH.
Qed.

Lemma occurs_app_l pat a b : occurs pat a = true → occurs pat (a ++ b) = true.
Proof.
  induction a as [|x a IH]; cbn [occurs app]; intros H.
  - rewrite orb_false_r in H. destruct pat; [|discriminate].
    by destruct b.
  - apply orb_true_iff in H as [H|H].
    + change (x :: a ++ b) with ((x :: a) ++ b).
      by rewrite (starts_with_app _ _ _ H).
    + rewrite (IH H). apply orb_true_r.
Qed.

Lemma occurs_app_r pat a b : occurs pat b = true → occurs pat (a ++ b) = true.
Proof.
  intros H. induction a as [|x a IH]; cbn [occurs app]; [done|].
  rewrite IH. apply orb_true_r.
Qed.

Lemma occurs_in_lines pat l lines trailer :
  In l lines → occurs pat (map ToUint8 l) = true →
  occurs pat (map ToUint8 (join_lines lines ++ trailer)) = true.
Proof.
  intros Hin Hocc. rewrite map_app. apply occurs_app_l.
  induction lines as [|l0 lines IH]; [destruct Hin|].
  cbn [join_lines flat_map]. rewrite map_app.
  destruct Hin as [->|Hin].
  - apply occurs_app_l. rewrite map_app. by apply occurs_app_l.
  - apply occurs_app_r. by apply IH.
Qed.

(** ** Cutting into lines *)

Lemma lines_of_nonempty bs : lines_of bs ≠ [].
Proof.
  destruct bs as [|b bs]; cbn; [done|].
  destruct (b =? LF); [done|]. by destruct (lines_of bs).
Qed.

Lemma lines_of_line l rest :
  ¬ In LF l → lines_of (l ++ LF :: rest) = l :: lines_of rest.
Proof.
  induction l as [|x l IH]; intros Hno; cbn [app lines_of].
  - by rewrite Z.eqb_refl.
  - destruct (Z.eqb_spec x LF) as [->|_]; [exfalso; apply Hno; by left|].
    rewrite IH; [done|]. intros Hin. apply Hno. by right.
Qed.

Lemma lines_of_last l : ¬ In LF l → lines_of l = [l].
Proof.
  induction l as [|x l IH]; intros Hno; cbn [lines_of]; [done|].
  destruct (Z.eqb_spec x LF) as [->|_]; [exfalso; apply Hno; by left|].
  rewrite IH; [done|]. intros Hin. apply Hno. by right.
Qed.

Lemma lines_of_join lines trailer :
  Forall (λ l, ¬ In LF l) lines → ¬ In LF trailer →
  lines_of (join_lines lines ++ trailer) = lines ++ [trailer].
Proof.
  intros Hall Ht. induction Hall as [|l lines Hl Hall IH].
  - by apply lines_of_last.
  - change (join_lines (l :: lines)) with ((l ++ [LF]) ++ join_lines lines).
    rewrite <- !app_assoc. cbn [app]. rewrite lines_of_line by done.
    by rewrite IH.
Qed.

Lemma map_join_lines lines :
  map ToUint8 (join_lines lines) = join_lines (map (map ToUint8) lines).
Proof.
  induction lines as [|l lines IH]; [reflexivity|].
  cbn [join_lines flat_map map]. rewrite map_app, map_app.
  unfold join_lines in IH. by rewrite IH.
Qed.

End TextFacts.

(* ===================================================================== *)
(** * The bytes of a text *)
(* ===================================================================== *)

Section Utf8Facts.

(** Below [bound], or-ing [y] into the marker [hi] adds it. *)
Lemma lor_marker_aux hi n :
  forallb (λ y, Z.lor hi (Z.of_nat y) =? hi + Z.of_nat y) (seq 0 n) = true →
  ∀ y, 0 <= y < Z.of_nat n → Z.lor hi y = hi + y.
Proof.
  intros Hall y Hy. rewrite forallb_forall in Hall.
  specialize (Hall (Z.to_nat y)). rewrite Z2Nat.id in Hall by lia.
  apply Z.eqb_eq, Hall, in_seq. lia.
Qed.

Lemma lor_0x80 y : 0 <= y < 64 → Z.lor 0x80 y = 0x80 + y.
Proof. apply (lor_marker_aux 0x80 64). by vm_compute. Qed.

Lemma lor_0xC0 y : 0 <= y < 32 → Z.lor 0xC0 y = 0xC0 + y.
Proof. apply (lor_marker_aux 0xC0 32). by vm_compute. Qed.

Lemma lor_0xE0 y : 0 <= y < 16 → Z.lor 0xE0 y = 0xE0 + y.
Proof. apply (lor_marker_aux 0xE0 16). by vm_compute. Qed.

Lemma lor_0xF0 y : 0 <= y < 8 → Z.lor 0xF0 y = 0xF0 + y.
Proof. apply (lor_marker_aux 0xF0 8). by vm_compute. Qed.

Lemma land_0x3F x : 0 <= x → Z.land x 0x3F = x mod 64.
Proof. intros _. apply (Z.land_ones x 6). lia. Qed.

(** The bytes of a code point up to U+10FFFF: between one and four of
    them, each a byte and none zero unless the code point is. *)
Lemma utf8_of_code_point_bytes cp :
  0 <= cp < 0x110000 →
  Forall (λ b, is_byte b ∧ (cp ≠ 0 → b ≠ 0)) (utf8_of_code_point cp)
  ∧ (1 <= length (utf8_of_code_point cp) <= 4)%nat
  ∧ (cp < 0x10000 → (length (utf8_of_code_point cp) <= 3)%nat)
  ∧ (0x10000 <= cp → length (utf8_of_code_point cp) = 4%nat).
Proof.
  intros Hcp. unfold utf8_of_code_point, is_byte.
  assert (H6 : 0 <= cp mod 64 < 64) by (apply Z.mod_pos_bound; lia).
  assert (Hs6 : Z.shiftr cp 6 = cp / 64)
    by (rewrite Z.shiftr_div_pow2 by lia; reflexivity).
  assert (Hs12 : Z.shiftr cp 12 = cp / 4096)
    by (rewrite Z.shiftr_div_pow2 by lia; reflexivity).
  assert (Hs18 : Z.shiftr cp 18 = cp / 262144)
    by (rewrite Z.shiftr_div_pow2 by lia; reflexivity).
  assert (H6' : 0 <= (cp / 64) mod 64 < 64) by (apply Z.mod_pos_bound; lia).
  assert (H12' : 0 <= (cp / 4096) mod 64 < 64) by (apply Z.mod_pos_bound; lia).
  assert (Hd6 : 0 <= cp / 64) by (apply Z.div_pos; lia).
  assert (Hd12 : 0 <= cp / 4096) by (apply Z.div_pos; lia).
  assert (Hd18 : 0 <= cp / 262144) by (apply Z.div_pos; lia).
  rewrite Hs6, Hs12, Hs18, !land_0x3F by lia.
  destruct (Z.ltb_spec cp 0x80); [|destruct (Z.ltb_spec cp 0x800);
    [|destruct (Z.ltb_spec cp 0x10000)]].
  - cbn [length]. repeat split; try lia. repeat constructor; lia.
  - assert (cp / 64 < 32) by (apply Z.div_lt_upper_bound; lia).
    rewrite lor_0xC0, lor_0x80 by lia.
    cbn [length]. repeat split; try lia. repeat constructor; lia.
  - assert (cp / 4096 < 16) by (apply Z.div_lt_upper_bound; lia).
    rewrite lor_0xE0, !lor_0x80 by lia.
    cbn [length]. repeat split; try lia. repeat constructor; lia.
  - assert (cp / 262144 < 8) by (apply Z.div_lt_upper_bound; lia).
    rewrite lor_0xF0, !lor_0x80 by lia.
    cbn [length]. repeat split; try lia. repeat constructor; lia.
Qed.

Lemma surrogate_pair_code_point c d :
  is_high_surrogate c = true → is_low_surrogate d = true →
  0x10000 <= 0x10000 + (c - 0xD800) * 0x400 + (d - 0xDC00) < 0x110000.
Proof. unfold is_high_surrogate, is_low_surrogate. lia. Qed.

Lemma replacement_bytes :
  Forall (λ b, is_byte b ∧ b ≠ 0) replacement ∧ length replacement = 3%nat.
Proof. split; [|reflexivity]. unfold is_byte. repeat constructor; done. Qed.

(** What holds of the encoding of every string of [n] code units or less. *)
Lemma utf8_encode_facts n :
  ∀ s, (length s <= n)%nat → well_formed s →
    Forall is_byte (utf8_encode s)
    ∧ (¬ In 0 s → ¬ In 0 (utf8_encode s))
    ∧ (length s <= length (utf8_encode s) <= 3 * length s)%nat.
Proof.
  destruct replacement_bytes as [Hrep Hreplen].
  assert (Hrepb : Forall is_byte replacement)
    by (eapply Forall_impl; [exact Hrep | by intros ? []]).
  assert (Hrep0 : ¬ In 0 replacement)
    by (intros Hin; apply list_elem_of_In in Hin;
        rewrite Forall_forall in Hrep; by destruct (Hrep _ Hin)).
  induction n as [|n IH]; intros s Hlen Hwf.
  - destruct s; [|cbn in Hlen; lia].
    cbn. split; [constructor|]. split; [tauto | lia].
  - destruct s as [|c rest].
    { cbn. split; [constructor|]. split; [tauto | lia]. }
    apply Forall_cons in Hwf as [Hc Hwf]. cbn [length] in Hlen.
    rewrite utf8_encode_cons.
    assert (Hone : ∀ cp tail,
              0 <= cp < 0x110000 →
              Forall is_byte (utf8_encode tail) →
              Forall is_byte (utf8_of_code_point cp ++ utf8_encode tail)).
    { intros cp tail Hcp Ht. apply Forall_app_2; [|done].
      destruct (utf8_of_code_point_bytes cp Hcp) as [Hb _].
      eapply Forall_impl; [exact Hb | by intros ? []]. }
    assert (Hzero : ∀ cp tail,
              0 <= cp < 0x110000 → cp ≠ 0 →
              ¬ In 0 (utf8_encode tail) →
              ¬ In 0 (utf8_of_code_point cp ++ utf8_encode tail)).
    { intros cp tail Hcp Hne Ht Hin. apply in_app_or in Hin as [Hin|Hin];
        [|done].
      destruct (utf8_of_code_point_bytes cp Hcp) as [Hb _].
      apply list_elem_of_In in Hin. rewrite Forall_forall in Hb.
      destruct (Hb _ Hin) as [_ Hnz]. by apply Hnz. }
    destruct (is_high_surrogate c) eqn:Hhigh.
    + destruct rest as [|d rest'].
      * rewrite Hreplen. cbn [length]. split; [done|]. split; [done | lia].
      * apply Forall_cons in Hwf as [Hd Hwf']. cbn [length] in Hlen.
        destruct (is_low_surrogate d) eqn:Hlow.
        -- pose proof (surrogate_pair_code_point c d Hhigh Hlow) as Hcp.
           destruct (IH rest' ltac:(lia) Hwf') as (Hb & Hz & Hl).
           assert (Hcp' :
             0 <= 0x10000 + (c - 0xD800) * 0x400 + (d - 0xDC00) < 0x110000)
             by lia.
           destruct (utf8_of_code_point_bytes _ Hcp') as (_ & _ & _ & H4).
           specialize (H4 ltac:(lia)).
           split; [apply Hone; [lia|done]|]. split.
           ++ intros Hno. apply Hzero; [lia | lia |]. apply Hz.
              intros Hin. apply Hno. right; by right.
           ++ rewrite length_app, H4. cbn [length]. lia.
        -- destruct (IH (d :: rest') ltac:(cbn [length]; lia)
                       ltac:(by constructor)) as (Hb & Hz & Hl).
           split; [by apply Forall_app_2|]. split.
           ++ intros Hno Hin. apply in_app_or in Hin as [Hin|Hin]; [done|].
              apply Hz; [|done]. intros Hin'. apply Hno. by right.
           ++ rewrite length_app, Hreplen. cbn [length] in *. lia.
    + destruct (IH rest ltac:(lia) Hwf) as (Hb & Hz & Hl).
      destruct (is_low_surrogate c).
      * split; [by apply Forall_app_2|]. split.
        -- intros Hno Hin. apply in_app_or in Hin as [Hin|Hin]; [done|].
           apply Hz; [|done]. intros Hin'. apply Hno. by right.
        -- rewrite length_app, Hreplen. cbn [length]. lia.
      * destruct (utf8_of_code_point_bytes c ltac:(lia))
          as (_ & Hlen14 & Hlen3 & _).
        specialize (Hlen3 ltac:(lia)).
        split; [apply Hone; [lia|done]|]. split.
        -- intros Hno. apply Hzero; [lia | |].
           ++ intros ->. apply Hno. by left.
           ++ apply Hz. intros Hin. apply Hno. by right.
        -- rewrite length_app. cbn [length]. lia.
Qed.

(** Every code unit gives at least one byte. *)
Lemma utf8_encode_length_aux n :
  ∀ s, (length s <= n)%nat → (length s <= length (utf8_encode s))%nat.
Proof.
  assert (Hcp : ∀ cp, (1 <= length (utf8_of_code_point cp))%nat).
  { intros cp. unfold utf8_of_code_point.
    repeat (destruct (_ <? _); [cbn [length]; lia|]). cbn [length]. lia. }
  induction n as [|n IH]; intros s Hlen.
  - destruct s; [done | cbn in Hlen; lia].
  - destruct s as [|c rest]; [cbn; lia|]. cbn [length] in Hlen.
    rewrite utf8_encode_cons.
    destruct (is_high_surrogate c) eqn:Hhigh.
    + destruct rest as [|d rest']; [cbn; lia|]. cbn [length] in Hlen.
      destruct (is_low_surrogate d) eqn:Hlow.
      * pose proof (surrogate_pair_code_point c d Hhigh Hlow) as Hpair.
        pose proof (IH rest' ltac:(lia)).
        rewrite length_app. unfold utf8_of_code_point.
        destruct (Z.ltb_spec (0x10000 + (c - 0xD800) * 0x400 + (d - 0xDC00))
                    0x80); [lia|].
        destruct (Z.ltb_spec (0x10000 + (c - 0xD800) * 0x400 + (d - 0xDC00))
                    0x800); [lia|].
        destruct (Z.ltb_spec (0x10000 + (c - 0xD800) * 0x400 + (d - 0xDC00))
                    0x10000); [lia|].
        cbn [length]. lia.
      * pose proof (IH (d :: rest') ltac:(cbn [length]; lia)).
        rewrite length_app. unfold replacement. cbn [length] in *. lia.
    + pose proof (IH rest ltac:(lia)). pose proof (Hcp c).
      destruct (is_low_surrogate c); rewrite length_app; unfold replacement;
        cbn [length]; lia.
Qed.

Lemma utf8_encode_length_ge s : (length s <= length (utf8_encode s))%nat.
Proof. apply (utf8_encode_length_aux (length s)). lia. Qed.

Lemma utf8_encode_well_formed s :
  well_formed s →
  Forall is_byte (utf8_encode s)
  ∧ (¬ In 0 s → ¬ In 0 (utf8_encode s))
  ∧ (length s <= length (utf8_encode s) <= 3 * length s)%nat.
Proof. apply (utf8_encode_facts (length s)). lia. Qed.

Lemma ToUint8_bytes l : Forall is_byte l → map ToUint8 l = l.
Proof.
  induction 1 as [|b l Hb _ IH]; [reflexivity|].
  cbn [map]. rewrite IH. unfold ToUint8, is_byte in *.
  by rewrite Z.mod_small by lia.
Qed.

Lemma ToUint8_is_byte x : is_byte (ToUint8 x).
Proof. unfold is_byte, ToUint8. apply Z.mod_pos_bound. lia. Qed.

(** ASCII, control characters included. *)
Lemma utf8_encode_ascii s : Forall (λ c, 0 <= c < 128) s → utf8_encode s = s.
Proof.
  induction 1 as [|c s Hc Hs IH]; [reflexivity|].
  rewrite utf8_encode_cons. unfold is_high_surrogate, is_low_surrogate.
  destruct (Z.leb_spec 0xD800 c); [lia|].
  destruct (Z.leb_spec 0xDC00 c); [lia|]. cbn [andb].
  unfold utf8_of_code_point. destruct (Z.ltb_spec c 0x80); [|lia].
  cbn [app]. by rewrite IH.
Qed.

End Utf8Facts.

Section Utf8RoundTrip.

Ltac decide_tests :=
  repeat match goal with
         | |- context [?a <=? ?b] => destruct (Z.leb_spec a b); try lia
         end;
  cbn [andb negb].

(** The bytes of a character are read back as that character. *)
Lemma utf8_decode_code_point cp rest :
  0 <= cp < 0x110000 → ¬ (0xD800 <= cp <= 0xDFFF) →
  utf8_decode (utf8_of_code_point cp ++ rest) = cons cp <$> utf8_decode rest.
Proof.
  intros Hcp Hsur. unfold utf8_of_code_point.
  assert (H6 : 0 <= cp mod 64 < 64) by (apply Z.mod_pos_bound; lia).
  assert (Hs6 : Z.shiftr cp 6 = cp / 64)
    by (rewrite Z.shiftr_div_pow2 by lia; reflexivity).
  assert (Hs12 : Z.shiftr cp 12 = cp / 64 / 64)
    by (rewrite Z.shiftr_div_pow2, Z.div_div by lia; reflexivity).
  assert (Hs18 : Z.shiftr cp 18 = cp / 64 / 64 / 64)
    by (rewrite Z.shiftr_div_pow2, !Z.div_div by lia; reflexivity).
  pose proof (Z.div_mod cp 64 ltac:(lia)) as E1.
  pose proof (Z.div_mod (cp / 64) 64 ltac:(lia)) as E2.
  pose proof (Z.div_mod (cp / 64 / 64) 64 ltac:(lia)) as E3.
  assert (H6' : 0 <= (cp / 64) mod 64 < 64) by (apply Z.mod_pos_bound; lia).
  assert (H12' : 0 <= (cp / 64 / 64) mod 64 < 64)
    by (apply Z.mod_pos_bound; lia).
  assert (Hd6 : 0 <= cp / 64) by (apply Z.div_pos; lia).
  assert (Hd12 : 0 <= cp / 64 / 64) by (apply Z.div_pos; lia).
  assert (Hd18 : 0 <= cp / 64 / 64 / 64) by (apply Z.div_pos; lia).
  rewrite Hs6, Hs12, Hs18, !land_0x3F by lia.
  destruct (Z.ltb_spec cp 0x80); [|destruct (Z.ltb_spec cp 0x800);
    [|destruct (Z.ltb_spec cp 0x10000)]].
  - cbn [app utf8_decode]. decide_tests; reflexivity.
  - assert (cp / 64 < 32) by lia.
    rewrite lor_0xC0, lor_0x80 by lia.
    cbn [app utf8_decode]. unfold is_continuation.
    replace ((0xC0 + cp / 64 - 0xC0) * 0x40 + (0x80 + cp mod 64 - 0x80))
      with cp by lia.
    decide_tests; reflexivity.
  - assert (cp / 64 / 64 < 16) by lia.
    rewrite lor_0xE0, !lor_0x80 by lia.
    cbn [app utf8_decode]. unfold is_continuation. cbv zeta.
    replace ((0xE0 + cp / 64 / 64 - 0xE0) * 0x1000
             + (0x80 + (cp / 64) mod 64 - 0x80) * 0x40
             + (0x80 + cp mod 64 - 0x80)) with cp by lia.
    decide_tests; reflexivity.
  - assert (cp / 64 / 64 / 64 < 8) by lia.
    rewrite lor_0xF0, !lor_0x80 by lia.
    cbn [app utf8_decode]. unfold is_continuation. cbv zeta.
    replace ((0xF0 + cp / 64 / 64 / 64 - 0xF0) * 0x40000
             + (0x80 + (cp / 64 / 64) mod 64 - 0x80) * 0x1000
             + (0x80 + (cp / 64) mod 64 - 0x80) * 0x40
             + (0x80 + cp mod 64 - 0x80)) with cp by lia.
    decide_tests; reflexivity.
Qed.

Lemma utf8_decode_replacement rest :
  utf8_decode (replacement ++ rest) = cons 0xFFFD <$> utf8_decode rest.
Proof. apply (utf8_decode_code_point 0xFFFD); lia. Qed.

Lemma utf8_decode_encode_aux n :
  ∀ s, (length s <= n)%nat → well_formed s →
    utf8_decode (utf8_encode s) = Some (code_points s).
Proof.
  induction n as [|n IH]; intros s Hlen Hwf.
  - destruct s; [reflexivity | cbn in Hlen; lia].
  - destruct s as [|c rest]; [reflexivity|].
    apply Forall_cons in Hwf as [Hc Hwf]. cbn [length] in Hlen.
    rewrite utf8_encode_cons. cbn [code_points].
    destruct (is_high_surrogate c) eqn:Hhigh.
    + destruct rest as [|d rest'].
      * rewrite <- (app_nil_r replacement), utf8_decode_replacement.
        reflexivity.
      * apply Forall_cons in Hwf as [Hd Hwf']. cbn [length] in Hlen.
        destruct (is_low_surrogate d) eqn:Hlow.
        -- pose proof (surrogate_pair_code_point c d Hhigh Hlow).
           rewrite utf8_decode_code_point by lia.
           by rewrite (IH rest') by first [lia | done].
        -- rewrite utf8_decode_replacement.
           by rewrite (IH (d :: rest'))
             by first [cbn [length]; lia | by constructor].
    + destruct (is_low_surrogate c) eqn:Hlow.
      * rewrite utf8_decode_replacement.
        by rewrite (IH rest) by first [lia | done].
      * unfold is_high_surrogate, is_low_surrogate in Hhigh, Hlow.
        rewrite utf8_decode_code_point by lia.
        by rewrite (IH rest) by first [lia | done].
Qed.

(** What [TextEncoder] gives is UTF-8, and it reads back as the
    characters of the string. *)
Lemma utf8_decode_encode s :
  well_formed s → utf8_decode (utf8_encode s) = Some (code_points s).
Proof. apply (utf8_decode_encode_aux (length s)). lia. Qed.

End Utf8RoundTrip.

(* ===================================================================== *)
(** * Facts about the builder *)
(* ===================================================================== *)

Section BuilderFacts.

Context {engine : Engine}.

Implicit Types (this : ESCPOSBuilder) (σ : Store) (buf : list Z).

Lemma push_appends this items σ buf :
  σ !! data this = Some buf →
  Builder.push this items σ = (Normal tt, <[data this := buf ++ items]> σ).
Proof.
  intros Hbuf. unfold Builder.push.
  by rewrite (alter_alt_Some _ _ _ _ Hbuf).
Qed.

Lemma push_inserted this items σ buf :
  Builder.push this items (<[data this := buf]> σ)
  = (Normal tt, <[data this := buf ++ items]> σ).
Proof.
  rewrite (push_appends _ _ _ buf) by apply lookup_insert_eq.
  by rewrite insert_insert_eq.
Qed.

Lemma new_array_fresh init σ :
  new_array init σ = (Normal (fresh (dom σ)), <[fresh (dom σ) := init]> σ)
  ∧ σ !! fresh (dom σ) = None.
Proof.
  split; [reflexivity|]. apply not_elem_of_dom, is_fresh.
Qed.

(** ** Texts that fit *)

Lemma fits_short t : Z.of_nat (length (utf8_encode t)) <= 65535 → fits t.
Proof. unfold fits. pose proof max_arguments_floor. lia. Qed.

Lemma fits_nil : fits [].
Proof. by apply fits_short. Qed.

Lemma fits_dec t : fits t ∨ ¬ fits t.
Proof. unfold fits. lia. Qed.

Lemma fits_string_length t :
  fits t → Z.of_nat (length t) <= max_string_length.
Proof.
  unfold fits. pose proof (utf8_encode_length_ge t).
  pose proof max_string_length_floor. lia.
Qed.

(** A literal that is short. *)
Lemma fits_literal t :
  (Z.of_nat (length (utf8_encode t)) <=? 65535) = true → fits t.
Proof. intros H. apply fits_short. lia. Qed.

Lemma push_spread_appends this items σ buf :
  σ !! data this = Some buf →
  Z.of_nat (length items) <= max_arguments →
  Builder.push_spread this items σ
  = (Normal tt, <[data this := buf ++ items]> σ).
Proof.
  intros Hbuf Hfit. unfold Builder.push_spread.
  destruct (Z.ltb_spec max_arguments (Z.of_nat (length items))); [lia|].
  by apply push_appends.
Qed.

Lemma push_spread_inserted this items σ buf :
  Z.of_nat (length items) <= max_arguments →
  Builder.push_spread this items (<[data this := buf]> σ)
  = (Normal tt, <[data this := buf ++ items]> σ).
Proof.
  intros Hfit.
  rewrite (push_spread_appends _ _ _ buf) by first [apply lookup_insert_eq|done].
  by rewrite insert_insert_eq.
Qed.

Lemma push_spread_throws this items σ :
  max_arguments < Z.of_nat (length items) →
  Builder.push_spread this items σ
  = (Throw (RangeError message_too_many_arguments), σ).
Proof.
  intros Hfit. unfold Builder.push_spread.
  by destruct (Z.ltb_spec max_arguments (Z.of_nat (length items))); [|lia].
Qed.

(** ** Strings that are made *)

Lemma length_concat_repeat (s : jsstring) n :
  length (List.concat (List.repeat s n)) = (length s * n)%nat.
Proof.
  induction n as [|n IH]; cbn [List.repeat List.concat]; [cbn; lia|].
  rewrite length_app, IH. lia.
Qed.

Lemma String_concat_fits parts :
  fits (List.concat parts) →
  String_concat parts = Normal (List.concat parts).
Proof.
  intros Hfit. apply fits_string_length in Hfit. unfold String_concat.
  by destruct (Z.ltb_spec max_string_length
                 (Z.of_nat (length (List.concat parts)))); [lia|].
Qed.

Lemma String_repeat_negative s n :
  n < 0 → String_repeat s n = Throw (RangeError (message_invalid_count n)).
Proof.
  intros Hn. unfold String_repeat.
  by destruct (Z.ltb_spec n 0); [|lia].
Qed.

Lemma String_repeat_returns s n :
  0 <= n → Z.of_nat (length s) * n <= max_string_length →
  String_repeat s n = Normal (List.concat (List.repeat s (Z.to_nat n))).
Proof.
  intros Hn Hlen. unfold String_repeat.
  destruct (Z.ltb_spec n 0); [lia|].
  by destruct (Z.ltb_spec max_string_length (Z.of_nat (length s) * n));
    [lia|].
Qed.

Lemma String_repeat_fits s n :
  0 <= n →
  fits (List.concat (List.repeat s (Z.to_nat n))) →
  String_repeat s n = Normal (List.concat (List.repeat s (Z.to_nat n))).
Proof.
  intros Hn Hfit. apply fits_string_length in Hfit.
  rewrite length_concat_repeat in Hfit.
  apply String_repeat_returns; [done | lia].
Qed.

Lemma String_repeat_too_long s n :
  0 <= n → max_string_length < Z.of_nat (length s) * n →
  String_repeat s n = Throw (RangeError message_invalid_string_length).
Proof.
  intros Hn Hlong. unfold String_repeat.
  destruct (Z.ltb_spec n 0); [lia|].
  by destruct (Z.ltb_spec max_string_length (Z.of_nat (length s) * n));
    [|lia].
Qed.

End BuilderFacts.

(** Runs the pushes of a method body one after the other. *)
Ltac run_pushes Hbuf :=
  unfold bind, ret, lift; cbn beta iota;
  rewrite (push_appends _ _ _ _ Hbuf); cbn beta iota;
  repeat (first [ rewrite push_inserted
                | rewrite push_spread_inserted by assumption ];
          cbn beta iota);
  rewrite <- ?app_assoc; try reflexivity.

Section MethodFacts.

Context {engine : Engine}.

Implicit Types (this : ESCPOSBuilder) (σ : Store) (buf : list Z).

Lemma initialize_appends this σ buf :
  σ !! data this = Some buf →
  Builder.initialize this σ
  = (Normal this, <[data this := buf ++ [0x1B; 0x40]]> σ).
Proof. intros H. unfold Builder.initialize. run_pushes H. Qed.

Lemma align_appends this a σ buf :
  σ !! data this = Some buf →
  Builder.align this a σ
  = (Normal this, <[data this := buf ++ [0x1B; 0x61; TextAlign_value a]]> σ).
Proof. intros H. unfold Builder.align. run_pushes H. Qed.

Lemma textSize_appends this s σ buf :
  σ !! data this = Some buf →
  Builder.textSize this s σ
  = (Normal this, <[data this := buf ++ [0x1B; 0x21; TextSize_value s]]> σ).
Proof. intros H. unfold Builder.textSize. run_pushes H. Qed.

Lemma bold_appends this e σ buf :
  σ !! data this = Some buf →
  Builder.bold this e σ
  = (Normal this,
     <[data this := buf ++ [0x1B; 0x45; if default true e then 1 else 0]]> σ).
Proof. intros H. unfold Builder.bold. run_pushes H. Qed.

Lemma underline_appends this m σ buf :
  σ !! data this = Some buf →
  Builder.underline this m σ
  = (Normal this, <[data this := buf ++ [0x1B; 0x2D; default 1 m]]> σ).
Proof. intros H. unfold Builder.underline. run_pushes H. Qed.

Lemma text_appends this t σ buf :
  σ !! data this = Some buf →
  fits t →
  Builder.text this t σ
  = (Normal this, <[data this := buf ++ utf8_encode t]> σ).
Proof.
  intros H Hfit. unfold Builder.text, bind, ret.
  by rewrite (push_spread_appends _ _ _ _ H Hfit).
Qed.

Lemma text_throws this t σ :
  ¬ fits t →
  Builder.text this t σ = (Throw (RangeError message_too_many_arguments), σ).
Proof.
  intros Hfit. unfold Builder.text, bind.
  rewrite push_spread_throws; [done|]. unfold fits in Hfit. lia.
Qed.

Lemma line_appends this t σ buf :
  σ !! data this = Some buf →
  fits (default [] t) →
  Builder.line this t σ
  = (Normal this,
     <[data this := buf ++ utf8_encode (default [] t) ++ [0x0A]]> σ).
Proof.
  intros H Hfit. unfold Builder.line, bind, ret.
  rewrite (text_appends _ _ _ _ H Hfit), push_inserted.
  by rewrite <- app_assoc.
Qed.

Lemma line_throws this t σ :
  ¬ fits (default [] t) →
  Builder.line this t σ = (Throw (RangeError message_too_many_arguments), σ).
Proof.
  intros Hfit. unfold Builder.line, bind. by rewrite text_throws.
Qed.

Lemma feed_loop_appends n this σ buf :
  σ !! data this = Some buf →
  Builder.feed_loop n this σ
  = (Normal tt, <[data this := buf ++ List.repeat 0x0A n]> σ).
Proof.
  revert σ buf. induction n as [|n IH]; intros σ buf H; cbn [Builder.feed_loop].
  - cbn. rewrite app_nil_r. by rewrite insert_id.
  - unfold bind. rewrite (push_appends _ _ _ _ H).
    rewrite (IH _ (buf ++ [LF])) by apply lookup_insert_eq.
    rewrite insert_insert_eq, <- app_assoc. reflexivity.
Qed.

Lemma feed_appends this n σ buf :
  σ !! data this = Some buf →
  Builder.feed this n σ
  = (Normal this,
     <[data this := buf ++ List.repeat 0x0A (Z.to_nat (default 1 n))]> σ).
Proof.
  intros H. unfold Builder.feed, bind, ret.
  by rewrite (feed_loop_appends _ _ _ _ H).
Qed.

Lemma drawLine_appends this c n σ buf :
  σ !! data this = Some buf →
  0 <= default 32 n →
  fits (List.concat
          (List.repeat (default (js "-") c) (Z.to_nat (default 32 n)))) →
  Builder.drawLine this c n σ
  = (Normal this,
     <[data this :=
         buf ++ utf8_encode
                  (List.concat
                     (List.repeat (default (js "-") c)
                        (Z.to_nat (default 32 n)))) ++ [0x0A]]> σ).
Proof.
  intros H Hn Hfit. unfold Builder.drawLine, bind, lift, ret.
  rewrite String_repeat_fits by done.
  by rewrite (line_appends _ _ _ _ H).
Qed.

Lemma drawLine_throws this c n σ :
  default 32 n < 0 →
  Builder.drawLine this c n σ
  = (Throw (RangeError (message_invalid_count (default 32 n))), σ).
Proof.
  intros Hn. unfold Builder.drawLine, bind, lift.
  by rewrite String_repeat_negative.
Qed.

(** A line that is too long, as a string or for the call of [push], is
    not drawn: the call throws and nothing is pushed. *)
Lemma drawLine_too_long this c n σ :
  0 <= default 32 n →
  ¬ fits (List.concat
            (List.repeat (default (js "-") c) (Z.to_nat (default 32 n)))) →
  Builder.drawLine this c n σ
  = (Throw
       (RangeError
          (if max_string_length
              <? Z.of_nat (length (default (js "-") c)) * default 32 n
           then message_invalid_string_length
           else message_too_many_arguments)), σ).
Proof.
  intros Hn Hfit. unfold Builder.drawLine, bind, lift.
  destruct (Z.ltb_spec max_string_length
              (Z.of_nat (length (default (js "-") c)) * default 32 n)).
  - by rewrite String_repeat_too_long.
  - rewrite String_repeat_returns by done. by rewrite line_throws.
Qed.

Lemma barcode_appends this d h σ buf :
  σ !! data this = Some buf →
  fits d →
  Builder.barcode this d h σ
  = (Normal this,
     <[data this :=
         buf ++ [0x1D; 0x68; default 50 h] ++ [0x1D; 0x77; 0x02]
             ++ [0x1D; 0x6B; 0x04] ++ utf8_encode d ++ [0x00]]> σ).
Proof. intros H Hfit. unfold Builder.barcode. run_pushes H. Qed.

(** The settings are pushed before the data are looked at. *)
Lemma barcode_throws this d h σ buf :
  σ !! data this = Some buf →
  ¬ fits d →
  Builder.barcode this d h σ
  = (Throw (RangeError message_too_many_arguments),
     <[data this :=
         buf ++ [0x1D; 0x68; default 50 h] ++ [0x1D; 0x77; 0x02]
             ++ [0x1D; 0x6B; 0x04]]> σ).
Proof.
  intros H Hfit. unfold Builder.barcode, bind. cbn beta iota zeta.
  rewrite (push_appends _ _ _ _ H). cbn beta iota.
  rewrite !push_inserted. cbn beta iota.
  rewrite push_spread_throws by (unfold fits in Hfit; lia).
  by rewrite <- !app_assoc.
Qed.

Lemma qrCode_appends this d size σ buf :
  σ !! data this = Some buf →
  fits d →
  Builder.qrCode this d size σ
  = (Normal this,
     <[data this :=
         buf ++ [0x1D; 0x28; 0x6B; 0x04; 0x00; 0x31; 0x41; 0x32; 0x00]
             ++ [0x1D; 0x28; 0x6B; 0x03; 0x00; 0x31; 0x43; default 6 size]
             ++ [0x1D; 0x28; 0x6B; 0x03; 0x00; 0x31; 0x45; 0x30]
             ++ [0x1D; 0x28; 0x6B;
                 Z.of_nat (length (utf8_encode d)) mod 256 + 3;
                 Z.of_nat (length (utf8_encode d)) / 256;
                 0x31; 0x50; 0x30]
             ++ utf8_encode d
             ++ [0x1D; 0x28; 0x6B; 0x03; 0x00; 0x31; 0x51; 0x30]]> σ).
Proof. intros H Hfit. unfold Builder.qrCode. run_pushes H. Qed.

(** The four frames that come before the data are pushed before the data
    are. *)
Lemma qrCode_throws this d size σ buf :
  σ !! data this = Some buf →
  ¬ fits d →
  Builder.qrCode this d size σ
  = (Throw (RangeError message_too_many_arguments),
     <[data this :=
         buf ++ [0x1D; 0x28; 0x6B; 0x04; 0x00; 0x31; 0x41; 0x32; 0x00]
             ++ [0x1D; 0x28; 0x6B; 0x03; 0x00; 0x31; 0x43; default 6 size]
             ++ [0x1D; 0x28; 0x6B; 0x03; 0x00; 0x31; 0x45; 0x30]
             ++ [0x1D; 0x28; 0x6B;
                 Z.of_nat (length (utf8_encode d)) mod 256 + 3;
                 Z.of_nat (length (utf8_encode d)) / 256;
                 0x31; 0x50; 0x30]]> σ).
Proof.
  intros H Hfit. unfold Builder.qrCode, bind. cbn beta iota zeta.
  rewrite (push_appends _ _ _ _ H). cbn beta iota.
  rewrite !push_inserted. cbn beta iota.
  rewrite push_spread_throws by (unfold fits in Hfit; lia).
  by rewrite <- !app_assoc.
Qed.

Lemma openDrawer_appends this σ buf :
  σ !! data this = Some buf →
  Builder.openDrawer this σ
  = (Normal this, <[data this := buf ++ [0x1B; 0x70; 0x00; 0x32; 0xFF]]> σ).
Proof. intros H. unfold Builder.openDrawer. run_pushes H. Qed.

Lemma cut_appends this t σ buf :
  σ !! data this = Some buf →
  Builder.cut this t σ
  = (Normal this,
     <[data this := buf ++ [0x1D; 0x56; CutType_value (default FULL t)]]> σ).
Proof. intros H. unfold Builder.cut. run_pushes H. Qed.

Lemma build_copies this σ buf :
  σ !! data this = Some buf →
  Builder.build this σ
  = (Normal (fresh (dom σ)), <[fresh (dom σ) := map ToUint8 buf]> σ).
Proof. intros H. unfold Builder.build. rewrite H. reflexivity. Qed.

Lemma new_initialized σ :
  Builder.new σ
  = (Normal {| data := fresh (dom σ) |}, <[fresh (dom σ) := [0x1B; 0x40]]> σ).
Proof.
  unfold Builder.new, bind, new_array, Builder.initialize, bind, ret.
  cbn beta iota zeta. by rewrite push_inserted.
Qed.

Lemma reset_initialized this σ :
  Builder.reset this σ
  = (Normal {| data := fresh (dom σ) |}, <[fresh (dom σ) := [0x1B; 0x40]]> σ).
Proof. apply new_initialized. Qed.

End MethodFacts.

(** ** What a call does to the store *)

Section Effects.

Context {engine : Engine}.

Implicit Types (this : ESCPOSBuilder) (σ : Store) (buf : list Z).

Lemma effect_throw_untouched this σ buf o e :
  σ !! data this = Some buf →
  o ≠ op_build → o ≠ op_reset →
  effect this σ buf o (Throw e, σ).
Proof.
  intros H Hb Hr. pose proof (effect_throw this σ buf o e [] Hb Hr) as He.
  by rewrite app_nil_r, insert_id in He.
Qed.

Lemma call_op_effect o this σ buf :
  σ !! data this = Some buf → effect this σ buf o (call_op o this σ).
Proof.
  intros H. destruct o; cbn [call_op].
  - rewrite (initialize_appends _ _ _ H). by constructor.
  - rewrite (align_appends _ _ _ _ H). by constructor.
  - rewrite (textSize_appends _ _ _ _ H). by constructor.
  - rewrite (bold_appends _ _ _ _ H). by constructor.
  - rewrite (underline_appends _ _ _ _ H). by constructor.
  - destruct (fits_dec txt) as [Hfit|Hfit].
    + rewrite (text_appends _ _ _ _ H Hfit). by constructor.
    + rewrite (text_throws _ _ _ Hfit). by apply effect_throw_untouched.
  - destruct (fits_dec (default [] txt)) as [Hfit|Hfit].
    + rewrite (line_appends _ _ _ _ H Hfit). by constructor.
    + rewrite (line_throws _ _ _ Hfit). by apply effect_throw_untouched.
  - rewrite (feed_appends _ _ _ _ H). by constructor.
  - destruct (Z.lt_ge_cases (default 32 length) 0) as [Hn|Hn].
    + rewrite (drawLine_throws _ _ _ _ Hn). by apply effect_throw_untouched.
    + destruct (fits_dec
                  (List.concat
                     (List.repeat (default (js "-") char)
                        (Z.to_nat (default 32 length))))) as [Hfit|Hfit].
      * rewrite (drawLine_appends _ _ _ _ _ H Hn Hfit). by constructor.
      * rewrite (drawLine_too_long _ _ _ _ Hn Hfit).
        by apply effect_throw_untouched.
  - destruct (fits_dec dat) as [Hfit|Hfit].
    + rewrite (barcode_appends _ _ _ _ _ H Hfit). by constructor.
    + rewrite (barcode_throws _ _ _ _ _ H Hfit). by constructor.
  - destruct (fits_dec dat) as [Hfit|Hfit].
    + rewrite (qrCode_appends _ _ _ _ _ H Hfit). by constructor.
    + rewrite (qrCode_throws _ _ _ _ _ H Hfit). by constructor.
  - rewrite (openDrawer_appends _ _ _ H). by constructor.
  - rewrite (cut_appends _ _ _ _ H). by constructor.
  - unfold bind, ret. rewrite (build_copies _ _ _ H). constructor.
  - rewrite reset_initialized. constructor.
Qed.

Lemma fresh_not_allocated σ l (v : list Z) :
  σ !! l = Some v → l ≠ fresh (dom σ).
Proof.
  intros Hl ->. pose proof (is_fresh (dom σ)) as Hf.
  apply not_elem_of_dom in Hf. congruence.
Qed.

(** The buffer keeps the head it has, and arrays other than the buffer keep
    their contents, whatever the client calls. *)
Lemma script_keeps ops :
  ∀ this σ buf,
    σ !! data this = Some buf →
    (∃ more, (script ops this σ).2 !! data (script ops this σ).1
             = Some (buf ++ more)
             ∨ (script ops this σ).2 !! data (script ops this σ).1
               = Some ([0x1B; 0x40] ++ more))
    ∧ (∀ l v, σ !! l = Some v → l ≠ data this →
              (script ops this σ).2 !! l = Some v).
Proof.
  induction ops as [|o ops IH]; intros this σ buf H; cbn [script].
  - split; [exists []; left; by rewrite app_nil_r | auto].
  - destruct (call_op_effect o this σ buf H).
    + destruct (IH this (<[data this := buf ++ bs]> σ) (buf ++ bs))
        as [[more Hmore] Hframe]; [apply lookup_insert_eq|].
      split.
      * destruct Hmore as [Hm|Hm].
        -- exists (bs ++ more). left. by rewrite app_assoc.
        -- exists more. by right.
      * intros l v Hl Hne. apply Hframe; [|done].
        by rewrite lookup_insert_ne.
    + destruct (IH this (<[data this := buf ++ bs]> σ) (buf ++ bs))
        as [[more Hmore] Hframe]; [apply lookup_insert_eq|].
      split.
      * destruct Hmore as [Hm|Hm].
        -- exists (bs ++ more). left. by rewrite app_assoc.
        -- exists more. by right.
      * intros l v Hl Hne. apply Hframe; [|done].
        by rewrite lookup_insert_ne.
    + assert (Hne : fresh (dom σ) ≠ data this)
        by (symmetry; eapply fresh_not_allocated; eauto).
      destruct (IH this (<[fresh (dom σ) := map ToUint8 buf]> σ) buf)
        as [Hmore Hframe]; [by rewrite lookup_insert_ne|].
      split; [done|].
      intros l v Hl Hl'. apply Hframe; [|done].
      rewrite lookup_insert_ne; [done|].
      symmetry; eapply fresh_not_allocated; eauto.
    + destruct (IH {| data := fresh (dom σ) |}
                  (<[fresh (dom σ) := [0x1B; 0x40]]> σ) [0x1B; 0x40])
        as [[more Hmore] Hframe]; [apply lookup_insert_eq|].
      split.
      * exists more. right. by destruct Hmore.
      * intros l v Hl Hl'.
        assert (l ≠ fresh (dom σ)) by (eapply fresh_not_allocated; eauto).
        apply Hframe; [|done]. by rewrite lookup_insert_ne.
Qed.

End Effects.

(* ===================================================================== *)
(** * The byte contracts of the builder *)
(* ===================================================================== *)

Section BuilderClaims.

Context {engine : Engine}.

Implicit Types (this : ESCPOSBuilder) (σ : Store) (buf : list Z).

(** C8. For every [TextAlign] value [a] (LEFT = 0, CENTER = 1, RIGHT = 2),
    [align(a)] appends exactly [0x1B, 0x61, a] to the buffer; for every
    [TextSize] value [s] (NORMAL = 0x00, DOUBLE_HEIGHT = 0x10,
    DOUBLE_WIDTH = 0x20, DOUBLE_BOTH = 0x30), [textSize(s)] appends exactly
    [0x1B, 0x21, s]; for every [CutType] value [t] (FULL = 0, PARTIAL = 1),
    [cut(t)] appends exactly [0x1D, 0x56, t]. Each call returns the builder
    and changes nothing else in the store. *)
Theorem align_textSize_cut_bytes this σ buf :
  σ !! data this = Some buf →
  (∀ a, Builder.align this a σ
        = (Normal this,
           <[data this := buf ++ [0x1B; 0x61; TextAlign_value a]]> σ))
  ∧ (∀ s, Builder.textSize this s σ
          = (Normal this,
             <[data this := buf ++ [0x1B; 0x21; TextSize_value s]]> σ))
  ∧ (∀ t, Builder.cut this (Some t) σ
          = (Normal this,
             <[data this := buf ++ [0x1D; 0x56; CutType_value t]]> σ))
  ∧ map TextAlign_value [LEFT; CENTER; RIGHT] = [0; 1; 2]
  ∧ map TextSize_value [NORMAL; DOUBLE_HEIGHT; DOUBLE_WIDTH; DOUBLE_BOTH]
    = [0x00; 0x10; 0x20; 0x30]
  ∧ map CutType_value [FULL; PARTIAL] = [0; 1].
Proof.
  intros H. repeat split.
  - intros a. by apply align_appends.
  - intros s. by apply textSize_appends.
  - intros t. by rewrite (cut_appends _ _ _ _ H).
Qed.

Lemma align_textSize_cut_bytes_witness :
  let this := {| data := 1%positive |} in
  let σ : Store := {[ 1%positive := [0x1B; 0x40] ]} in
  σ !! data this = Some [0x1B; 0x40]
  ∧ Builder.align this RIGHT σ
    = (Normal this, <[data this := [0x1B; 0x40] ++ [0x1B; 0x61; 2]]> σ).
Proof.
  split; [reflexivity|].
  apply (align_textSize_cut_bytes {| data := 1%positive |}
           {[ 1%positive := [0x1B; 0x40] ]} [0x1B; 0x40]).
  reflexivity.
Defined.

(** C10. Called without arguments, [cut()] appends the full-cut bytes
    [0x1D, 0x56, 0x00], [bold()] appends bold-on [0x1B, 0x45, 0x01],
    [feed()] appends exactly one [0x0A], and [line()] appends exactly one
    [0x0A] (the text is empty). *)
Theorem default_arguments this σ buf :
  σ !! data this = Some buf →
  Builder.cut this None σ
  = (Normal this, <[data this := buf ++ [0x1D; 0x56; 0x00]]> σ)
  ∧ Builder.bold this None σ
    = (Normal this, <[data this := buf ++ [0x1B; 0x45; 0x01]]> σ)
  ∧ Builder.feed this None σ
    = (Normal this, <[data this := buf ++ [0x0A]]> σ)
  ∧ Builder.line this None σ
    = (Normal this, <[data this := buf ++ [0x0A]]> σ).
Proof.
  intros H. repeat split.
  - by rewrite (cut_appends _ _ _ _ H).
  - by rewrite (bold_appends _ _ _ _ H).
  - by rewrite (feed_appends _ _ _ _ H).
  - by rewrite (line_appends _ None _ _ H fits_nil).
Qed.

(** C5. The buffer of a builder is [0x1B, 0x40] right after construction and
    right after [reset()], in whatever store that happens; and after any
    sequence of calls of the public methods (initialize, align, textSize,
    bold, underline, text, line, feed, drawLine, barcode, qrCode, openDrawer,
    cut, build, reset; a call may also throw) the buffer still starts with
    [0x1B, 0x40], and so does the array that [build()] then returns. *)
Theorem initialize_prefix_kept σ ops :
  let b0 := {| data := fresh (dom σ) |} in
  let σ0 : Store := <[fresh (dom σ) := [0x1B; 0x40]]> σ in
  Builder.new σ = (Normal b0, σ0)
  ∧ (∀ this, Builder.reset this σ = (Normal b0, σ0))
  ∧ σ0 !! data b0 = Some [0x1B; 0x40]
  ∧ ∃ rest,
      (script ops b0 σ0).2 !! data (script ops b0 σ0).1
      = Some ([0x1B; 0x40] ++ rest)
      ∧ ∃ r σ',
          Builder.build (script ops b0 σ0).1 (script ops b0 σ0).2
          = (Normal r, σ')
          ∧ σ' !! r = Some ([0x1B; 0x40] ++ map ToUint8 rest).
Proof.
  intros b0 σ0.
  assert (H0 : σ0 !! data b0 = Some [0x1B; 0x40]) by apply lookup_insert_eq.
  split; [apply new_initialized|].
  split; [intros this; apply reset_initialized|].
  split; [exact H0|].
  destruct (script_keeps ops b0 σ0 _ H0) as [[rest Hrest] _].
  exists rest.
  assert (Hbuf : (script ops b0 σ0).2 !! data (script ops b0 σ0).1
                 = Some ([0x1B; 0x40] ++ rest)) by (by destruct Hrest).
  split; [exact Hbuf|].
  eexists _, _. split; [apply (build_copies _ _ _ Hbuf)|].
  by rewrite lookup_insert_eq.
Qed.

(** C9. [build()] returns a new array that holds the bytes accumulated so
    far and leaves the buffer as it is: the array is at a location that was
    not in use and is not the buffer; a second [build()] right after yields
    another array with the same bytes; a call made after [build()] that
    returns normally (other than [reset]) returns the same builder, whose
    buffer is the earlier contents with the call's bytes appended; and the
    array returned by the earlier [build()] keeps its contents under every
    sequence of later calls. *)
Theorem build_snapshot this σ buf :
  σ !! data this = Some buf →
  let r1 := fresh (dom σ) in
  let σ1 : Store := <[r1 := map ToUint8 buf]> σ in
  Builder.build this σ = (Normal r1, σ1)
  ∧ σ !! r1 = None ∧ r1 ≠ data this
  ∧ σ1 !! data this = Some buf
  ∧ (∃ r2 σ2, Builder.build this σ1 = (Normal r2, σ2)
              ∧ r2 ≠ r1
              ∧ σ2 !! r1 = Some (map ToUint8 buf)
              ∧ σ2 !! r2 = Some (map ToUint8 buf)
              ∧ σ2 !! data this = Some buf)
  ∧ (∀ o this' σ2, call_op o this σ1 = (Normal this', σ2) → o ≠ op_reset →
       this' = this ∧ ∃ bs, σ2 !! data this = Some (buf ++ bs))
  ∧ (∀ ops, (script ops this σ1).2 !! r1 = Some (map ToUint8 buf)).
Proof.
  intros H r1 σ1.
  assert (Hfresh : σ !! r1 = None) by apply not_elem_of_dom, is_fresh.
  assert (Hne : r1 ≠ data this) by (intros E; congruence).
  assert (H1 : σ1 !! data this = Some buf)
    by (unfold σ1; by rewrite lookup_insert_ne).
  assert (Hr1 : σ1 !! r1 = Some (map ToUint8 buf)) by apply lookup_insert_eq.
  split; [by apply build_copies|].
  split; [done|]. split; [done|]. split; [done|].
  split; [|split].
  - exists (fresh (dom σ1)), (<[fresh (dom σ1) := map ToUint8 buf]> σ1).
    assert (Hr2 : r1 ≠ fresh (dom σ1)) by (eapply fresh_not_allocated; eauto).
    assert (Hd2 : data this ≠ fresh (dom σ1))
      by (eapply fresh_not_allocated; eauto).
    split; [by apply build_copies|].
    split; [done|].
    split; [by rewrite lookup_insert_ne|].
    split; [apply lookup_insert_eq|].
    by rewrite lookup_insert_ne.
  - intros o this' σ2 Hcall Hreset.
    pose proof (call_op_effect o this σ1 buf H1) as He.
    rewrite Hcall in He. inversion He; subst.
    + split; [done|]. exists bs. apply lookup_insert_eq.
    + split; [done|]. exists []. rewrite app_nil_r.
      rewrite lookup_insert_ne; [done|].
      symmetry; eapply fresh_not_allocated; eauto.
    + done.
  - intros ops.
    destruct (script_keeps ops this σ1 buf H1) as [_ Hframe].
    by apply Hframe.
Qed.

End BuilderClaims.

Section BuilderClaimsWitnesses.

Local Existing Instance example_engine.

Lemma default_arguments_witness :
  let this := {| data := 1%positive |} in
  let σ : Store := {[ 1%positive := [0x1B; 0x40] ]} in
  σ !! data this = Some [0x1B; 0x40]
  ∧ Builder.feed this None σ
    = (Normal this, <[data this := [0x1B; 0x40] ++ [0x0A]]> σ).
Proof.
  split; [reflexivity|].
  apply (default_arguments {| data := 1%positive |}
           {[ 1%positive := [0x1B; 0x40] ]} [0x1B; 0x40]).
  reflexivity.
Defined.

Lemma build_snapshot_witness :
  let this := {| data := 1%positive |} in
  let σ : Store := {[ 1%positive := [0x1B; 0x40; 300] ]} in
  σ !! data this = Some [0x1B; 0x40; 300]
  ∧ (script [op_feed None; op_reset; op_cut None] this
       (<[fresh (dom σ) := map ToUint8 [0x1B; 0x40; 300]]> σ)).2
      !! fresh (dom σ)
    = Some (map ToUint8 [0x1B; 0x40; 300]).
Proof.
  split; [reflexivity|].
  apply (build_snapshot {| data := 1%positive |}
           {[ 1%positive := [0x1B; 0x40; 300] ]} [0x1B; 0x40; 300]).
  reflexivity.
Defined.

End BuilderClaimsWitnesses.

(* ===================================================================== *)
(** * The store-data frame of [qrCode] *)
(* ===================================================================== *)

Section QrFrame.

Context {engine : Engine}.

(** The length bytes are those of [len + 3] exactly when adding 3 to the low
    byte does not pass 255. *)
Lemma qrCode_length_bytes_agree len :
  0 <= len →
  qrCode_length_bytes len = ((len + 3) mod 256, (len + 3) / 256)
  ↔ len mod 256 < 253.
Proof.
  intros Hlen. unfold qrCode_length_bytes.
  pose proof (Z.mod_pos_bound len 256 ltac:(lia)) as Hr.
  pose proof (Z.div_mod len 256 ltac:(lia)) as Hdm.
  split.
  - intros [= Hm Hd].
    pose proof (Z.mod_pos_bound (len + 3) 256 ltac:(lia)). lia.
  - intros Hsmall.
    assert (Hq : (len + 3) / 256 = len / 256).
    { symmetry. apply (Z.div_unique (len + 3) 256 (len / 256) (len mod 256 + 3));
        lia. }
    assert (Hm : (len + 3) mod 256 = len mod 256 + 3).
    { symmetry. apply (Z.mod_unique (len + 3) 256 (len / 256) (len mod 256 + 3));
        lia. }
    by rewrite Hq, Hm.
Qed.

(** C1, at data of 253 bytes. The builder's buffer gets the length bytes
    256 and 0, which [build()] turns into 0 and 0, where the frame of the
    specification has [(253+3) mod 256 = 0] and [(253+3) / 256 = 1]: the
    carry out of the low byte is lost. *)
Theorem qrCode_store_header_carry_lost :
  let dat := List.repeat 65 253 in
  let run :=
    (let* b := Builder.new in
     let* b := Builder.qrCode b dat None in
     Builder.build b) ∅ in
  Z.of_nat (length (utf8_encode dat)) = 253
  ∧ run.1 = Normal 2%positive
  ∧ run.2 !! 1%positive
    = Some ([0x1B; 0x40]
              ++ [0x1D; 0x28; 0x6B; 0x04; 0x00; 0x31; 0x41; 0x32; 0x00]
              ++ [0x1D; 0x28; 0x6B; 0x03; 0x00; 0x31; 0x43; 6]
              ++ [0x1D; 0x28; 0x6B; 0x03; 0x00; 0x31; 0x45; 0x30]
              ++ [0x1D; 0x28; 0x6B; 256; 0; 0x31; 0x50; 0x30]
              ++ List.repeat 65 253
              ++ [0x1D; 0x28; 0x6B; 0x03; 0x00; 0x31; 0x51; 0x30])
  ∧ run.2 !! 2%positive
    = Some ([0x1B; 0x40]
              ++ [0x1D; 0x28; 0x6B; 0x04; 0x00; 0x31; 0x41; 0x32; 0x00]
              ++ [0x1D; 0x28; 0x6B; 0x03; 0x00; 0x31; 0x43; 6]
              ++ [0x1D; 0x28; 0x6B; 0x03; 0x00; 0x31; 0x45; 0x30]
              ++ [0x1D; 0x28; 0x6B; 0; 0; 0x31; 0x50; 0x30]
              ++ List.repeat 65 253
              ++ [0x1D; 0x28; 0x6B; 0x03; 0x00; 0x31; 0x51; 0x30])
  ∧ qr_store_header 253 = [0x1D; 0x28; 0x6B; 0; 1; 0x31; 0x50; 0x30].
Proof.
  intros dat run.
  assert (Hfit : fits dat) by (by apply fits_literal).
  assert (Hrun : run
                 = (let* b := ret {| data := 1%positive |} in
                    Builder.build b)
                     (<[1%positive :=
                          [0x1B; 0x40]
                            ++ [0x1D; 0x28; 0x6B; 0x04; 0x00; 0x31; 0x41; 0x32;
                                0x00]
                            ++ [0x1D; 0x28; 0x6B; 0x03; 0x00; 0x31; 0x43; 6]
                            ++ [0x1D; 0x28; 0x6B; 0x03; 0x00; 0x31; 0x45; 0x30]
                            ++ [0x1D; 0x28; 0x6B; 256; 0; 0x31; 0x50; 0x30]
                            ++ List.repeat 65 253
                            ++ [0x1D; 0x28; 0x6B; 0x03; 0x00; 0x31; 0x51;
                                0x30]]> ∅)).
  { unfold run, bind, ret. rewrite new_initialized.
    change (fresh (dom (∅ : Store))) with 1%positive.
    rewrite (qrCode_appends {| data := 1%positive |} dat None _ [0x1B; 0x40])
      by first [apply lookup_insert_eq | exact Hfit].
    rewrite insert_insert_eq. reflexivity. }
  rewrite Hrun. vm_compute. repeat split; reflexivity.
Qed.

(** When adding 3 to the low byte does not pass 255, the frame [qrCode]
    pushes for the data is the one of the specification. *)
Lemma qrCode_store_frame this d size (σ : Store) buf :
  σ !! data this = Some buf →
  fits d →
  Z.of_nat (length (utf8_encode d)) mod 256 < 253 →
  Builder.qrCode this d size σ
  = (Normal this,
     <[data this :=
         buf ++ [0x1D; 0x28; 0x6B; 0x04; 0x00; 0x31; 0x41; 0x32; 0x00]
             ++ [0x1D; 0x28; 0x6B; 0x03; 0x00; 0x31; 0x43; default 6 size]
             ++ [0x1D; 0x28; 0x6B; 0x03; 0x00; 0x31; 0x45; 0x30]
             ++ qr_store_header (Z.of_nat (length (utf8_encode d)))
             ++ utf8_encode d
             ++ [0x1D; 0x28; 0x6B; 0x03; 0x00; 0x31; 0x51; 0x30]]> σ).
Proof.
  intros H Hfit Hsmall. rewrite (qrCode_appends _ _ _ _ _ H Hfit).
  apply qrCode_length_bytes_agree in Hsmall; [|lia].
  unfold qrCode_length_bytes in Hsmall. injection Hsmall as Hlo Hhi.
  unfold qr_store_header. by rewrite <- Hlo, <- Hhi.
Qed.

(** The two inputs the specification names, of 1 byte and of 300 bytes,
    give the length bytes it states. *)
Lemma qrCode_length_bytes_examples :
  qrCode_length_bytes 1 = (4, 0) ∧ qrCode_length_bytes 300 = (47, 1).
Proof. split; reflexivity. Qed.

End QrFrame.

(* ===================================================================== *)
(** * Finding the OUT endpoint *)
(* ===================================================================== *)

Section FindOutEndpoint.

Import USB Printer.

Lemma is_out_false e : is_out e = false ↔ direction e = dir_in.
Proof. unfold is_out. destruct (direction e); split; congruence. Qed.

Lemma is_out_true e : is_out e = true ↔ direction e = dir_out.
Proof. unfold is_out. destruct (direction e); split; congruence. Qed.

Lemma find_out_None eps :
  List.find is_out eps = None ↔ Forall (λ e, direction e = dir_in) eps.
Proof.
  induction eps as [|e eps IH]; cbn [List.find].
  - split; [constructor|done].
  - destruct (is_out e) eqn:He.
    + split; [done|]. intros Hall. apply Forall_cons in Hall as [Hd _].
      apply is_out_false in Hd. congruence.
    + rewrite IH. split.
      * intros Hall. constructor; [by apply is_out_false|done].
      * intros Hall. by apply Forall_cons in Hall as [_ ?].
Qed.

Lemma find_out_Some eps ep :
  List.find is_out eps = Some ep
  ↔ ∃ epre epost,
      eps = epre ++ ep :: epost
      ∧ Forall (λ e, direction e = dir_in) epre
      ∧ direction ep = dir_out.
Proof.
  induction eps as [|e eps IH]; cbn [List.find].
  - split; [done|]. intros (epre & epost & E & _). by destruct epre.
  - destruct (is_out e) eqn:He.
    + split.
      * intros [= ->]. exists [], eps. split; [done|].
        split; [constructor | by apply is_out_true].
      * intros (epre & epost & E & Hpre & Hout).
        destruct epre as [|e' epre]; cbn in E.
        -- congruence.
        -- injection E as -> _. apply Forall_cons in Hpre as [Hd _].
           apply is_out_false in Hd. congruence.
    + rewrite IH. split.
      * intros (epre & epost & -> & Hpre & Hout).
        exists (e :: epre), epost. split; [done|].
        split; [|done]. constructor; [by apply is_out_false|done].
      * intros (epre & epost & E & Hpre & Hout).
        destruct epre as [|e' epre]; cbn in E.
        -- injection E as -> _. apply is_out_true in Hout. congruence.
        -- injection E as -> ->. apply Forall_cons in Hpre as [_ Hpre].
           by exists epre, epost.
Qed.

Lemma alt_out_None alt :
  endpoints alt ≫= List.find is_out = None ↔ has_no_out alt.
Proof.
  unfold has_no_out. destruct (endpoints alt) as [eps|]; cbn.
  - rewrite find_out_None. split.
    + by intros Hall ? [= <-].
    + intros Hall. by apply Hall.
  - split; [by intros _ ? [=] | done].
Qed.

Lemma alt_out_Some alt ep :
  endpoints alt ≫= List.find is_out = Some ep
  ↔ ∃ epre epost,
      endpoints alt = Some (epre ++ ep :: epost)
      ∧ Forall (λ e, direction e = dir_in) epre
      ∧ direction ep = dir_out.
Proof.
  destruct (endpoints alt) as [eps|]; cbn.
  - rewrite find_out_Some. split.
    + intros (epre & epost & -> & ?). by exists epre, epost.
    + intros (epre & epost & [= ->] & ?). by exists epre, epost.
  - split; [done|]. by intros (? & ? & [=] & _).
Qed.

Lemma scan_alternates_None ifc alts :
  scan_alternates ifc alts = None ↔ Forall has_no_out alts.
Proof.
  induction alts as [|alt alts IH]; cbn [scan_alternates].
  - split; [constructor|done].
  - destruct (endpoints alt ≫= List.find is_out) as [ep|] eqn:Halt.
    + split; [done|]. intros Hall. apply Forall_cons in Hall as [Hno _].
      apply alt_out_None in Hno. congruence.
    + rewrite IH. apply alt_out_None in Halt. split.
      * intros Hall. by constructor.
      * intros Hall. by apply Forall_cons in Hall as [_ ?].
Qed.

Lemma scan_alternates_Some ifc alts pe :
  scan_alternates ifc alts = Some pe
  ↔ ∃ apre alt apost epre ep epost,
      alts = apre ++ alt :: apost
      ∧ Forall has_no_out apre
      ∧ endpoints alt = Some (epre ++ ep :: epost)
      ∧ Forall (λ e, direction e = dir_in) epre
      ∧ direction ep = dir_out
      ∧ pe = {| iface := ifc; endpointNumber := USB.endpointNumber ep |}.
Proof.
  induction alts as [|alt alts IH]; cbn [scan_alternates].
  - split; [done|]. intros (apre & ? & ? & ? & ? & ? & E & _).
    by destruct apre.
  - destruct (endpoints alt ≫= List.find is_out) as [ep0|] eqn:Halt.
    + split.
      * intros [= <-]. apply alt_out_Some in Halt as (epre & epost & ? & ? & ?).
        exists [], alt, alts, epre, ep0, epost. repeat split; try done.
      * intros (apre & alt' & apost & epre & ep & epost
                & E & Hpre & Heps & Hin & Hout & ->).
        destruct apre as [|a apre]; cbn in E.
        -- injection E as <- _.
           assert (Hfound : endpoints alt ≫= List.find is_out = Some ep)
             by (apply alt_out_Some; by exists epre, epost).
           congruence.
        -- injection E as -> _. apply Forall_cons in Hpre as [Hno _].
           apply alt_out_None in Hno. congruence.
    + rewrite IH. apply alt_out_None in Halt. split.
      * intros (apre & alt' & apost & epre & ep & epost & -> & Hpre & Hrest).
        exists (alt :: apre), alt', apost, epre, ep, epost.
        split; [done|]. split; [by constructor|done].
      * intros (apre & alt' & apost & epre & ep & epost
                & E & Hpre & Heps & Hin & Hout & Hpe).
        destruct apre as [|a apre]; cbn in E.
        -- injection E as <- _.
           assert (Hfound : endpoints alt ≫= List.find is_out = Some ep)
             by (apply alt_out_Some; by exists epre, epost).
           apply alt_out_None in Halt. congruence.
        -- injection E as -> ->. apply Forall_cons in Hpre as [_ Hpre].
           by exists apre, alt', apost, epre, ep, epost.
Qed.

Lemma scan_interfaces_None ifaces :
  scan_interfaces ifaces = None
  ↔ Forall (λ i, Forall has_no_out (alternates i)) ifaces.
Proof.
  induction ifaces as [|ifc ifaces IH]; cbn [scan_interfaces].
  - split; [constructor|done].
  - destruct (scan_alternates ifc (alternates ifc)) as [pe|] eqn:Hifc.
    + split; [done|]. intros Hall. apply Forall_cons in Hall as [Hno _].
      apply (scan_alternates_None ifc) in Hno. congruence.
    + rewrite IH. apply scan_alternates_None in Hifc. split.
      * intros Hall. by constructor.
      * intros Hall. by apply Forall_cons in Hall as [_ ?].
Qed.

Lemma scan_interfaces_Some ifaces pe :
  scan_interfaces ifaces = Some pe
  ↔ ∃ pre ifc post,
      ifaces = pre ++ ifc :: post
      ∧ Forall (λ i, Forall has_no_out (alternates i)) pre
      ∧ scan_alternates ifc (alternates ifc) = Some pe.
Proof.
  induction ifaces as [|ifc0 ifaces IH]; cbn [scan_interfaces].
  - split; [done|]. intros (pre & ? & ? & E & _). by destruct pre.
  - destruct (scan_alternates ifc0 (alternates ifc0)) as [pe0|] eqn:Hifc.
    + split.
      * intros [= <-]. exists [], ifc0, ifaces. repeat split; done.
      * intros (pre & ifc & post & E & Hpre & Hscan).
        destruct pre as [|i pre]; cbn in E.
        -- injection E as <- _. congruence.
        -- injection E as -> _. apply Forall_cons in Hpre as [Hno _].
           apply (scan_alternates_None i) in Hno. congruence.
    + rewrite IH. apply scan_alternates_None in Hifc. split.
      * intros (pre & ifc & post & -> & Hpre & Hscan).
        exists (ifc0 :: pre), ifc, post.
        split; [done|]. split; [by constructor|done].
      * intros (pre & ifc & post & E & Hpre & Hscan).
        destruct pre as [|i pre]; cbn in E.
        -- injection E as <- _.
           apply (scan_alternates_None ifc0) in Hifc. congruence.
        -- injection E as -> ->. apply Forall_cons in Hpre as [_ Hpre].
           by exists pre, ifc, post.
Qed.

End FindOutEndpoint.

Section FindOutEndpointClaim.

Import USB Printer.

(** C4. [findOutEndpoint] looks at the first configuration only, at its
    interfaces in order and at the alternate settings of each in order, and
    returns the first endpoint whose direction is OUT with the interface that
    owns it: the result is [pe] exactly when the interfaces before the owning
    one have no OUT endpoint, the alternate settings before the matching one
    have none, the endpoints before the returned one are IN, and [pe] is that
    endpoint's number with that interface. It returns null exactly when there
    is no configuration or the first one has no OUT endpoint in any
    interface (in particular when it has no interface). On the device with
    two interfaces whose only OUT endpoint is in the second alternate setting
    of the second interface, the result is that endpoint with the second
    interface, whatever configurations follow the first. *)
Theorem findOutEndpoint_first_match (dev : USBDevice) :
  (∀ pe,
     findOutEndpoint dev = Some pe
     ↔ ∃ config others pre ifc post apre alt apost epre ep epost,
         configurations dev = Some (config :: others)
         ∧ interfaces config = pre ++ ifc :: post
         ∧ Forall (λ i, Forall has_no_out (alternates i)) pre
         ∧ alternates ifc = apre ++ alt :: apost
         ∧ Forall has_no_out apre
         ∧ endpoints alt = Some (epre ++ ep :: epost)
         ∧ Forall (λ e, direction e = dir_in) epre
         ∧ direction ep = dir_out
         ∧ pe = {| iface := ifc; endpointNumber := USB.endpointNumber ep |})
  ∧ (findOutEndpoint dev = None
     ↔ configurations dev = None
       ∨ configurations dev = Some []
       ∨ ∃ config others,
           configurations dev = Some (config :: others)
           ∧ Forall (λ i, Forall has_no_out (alternates i))
               (interfaces config))
  ∧ (∀ others,
       findOutEndpoint (example_device (Some (example_config :: others)))
       = Some {| iface := example_iface1; endpointNumber := 3 |}).
Proof.
  split; [|split].
  - intros pe. unfold findOutEndpoint.
    destruct (configurations dev) as [[|config others]|]; cbn.
    + split; [done|]. by intros (? & ? & ? & ? & ? & ? & ? & ? & ? & ? & ? & [=] & _).
    + rewrite scan_interfaces_Some. split.
      * intros (pre & ifc & post & Hi & Hpre & Hscan).
        apply scan_alternates_Some in Hscan
          as (apre & alt & apost & epre & ep & epost & ? & ? & ? & ? & ? & ?).
        by exists config, others, pre, ifc, post, apre, alt, apost, epre, ep,
          epost.
      * intros (config' & others' & pre & ifc & post & apre & alt & apost
                & epre & ep & epost & [= <- <-] & Hi & Hpre & Ha & Hrest).
        exists pre, ifc, post. split; [done|]. split; [done|].
        apply scan_alternates_Some.
        by exists apre, alt, apost, epre, ep, epost.
    + split; [done|]. by intros (? & ? & ? & ? & ? & ? & ? & ? & ? & ? & ? & [=] & _).
  - unfold findOutEndpoint.
    destruct (configurations dev) as [[|config others]|]; cbn.
    + split; [by right; left | done].
    + rewrite scan_interfaces_None. split.
      * intros Hall. right; right. by exists config, others.
      * intros [[=]|[[=]|(config' & others' & [= <- <-] & Hall)]]. done.
    + split; [by left | done].
  - intros others. reflexivity.
Qed.

End FindOutEndpointClaim.

(* ===================================================================== *)
(** * Printing *)
(* ===================================================================== *)

Section PrintClaims.

Import USB Printer.

(** C6. On a session without a device, [print] returns
    [{success: false, error: "No device connected"}] for every input, and no
    call is made on any device: the record of calls is as it was. *)
Theorem print_without_device (usb : Transport) (dat : list Z)
  (log : list Event) :
  print usb dat {| device := None; calls := log |}
  = (Normal {| success := false;
               bytesWritten := None;
               error := Some (js "No device connected") |},
     {| device := None; calls := log |}).
Proof. reflexivity. Qed.

End PrintClaims.

Section PrintNeverRaises.

Import USB Printer.




(** The case the specification names: the priming transfer throws, the bulk
    transfer stalls, and only the stall is reported. *)
Example print_stall_after_failed_priming :
  let s := {| device := Some (example_device (Some [example_config]));
              calls := [] |} in
  (print stalling_printer [0x1B; 0x40] s).1
  = Normal {| success := false;
              bytesWritten := None;
              error := Some (js "Transfer status: stall") |}
  ∧ map fst (calls (print stalling_printer [0x1B; 0x40] s).2)
    = [call_open; call_selectConfiguration 1; call_claimInterface 1;
       call_controlTransferOut (priming 1) [];
       call_transferOut 3 [0x1B; 0x40]].
Proof. split; reflexivity. Qed.

End PrintNeverRaises.

(* ===================================================================== *)
(** * The receipt and its layout *)
(* ===================================================================== *)

(** A call that appends, on a store where the buffer is known. *)
Lemma appends_inserted {A} (c : M Store A) (a : A) d bs :
  (∀ σ buf,
     σ !! data {| data := d |} = Some buf →
     c σ = (Normal a, <[data {| data := d |} := buf ++ bs]> σ)) →
  ∀ (σ : Store) buf,
    c (<[d := buf]> σ) = (Normal a, <[d := buf ++ bs]> σ).
Proof.
  cbn [data]. intros H σ buf. rewrite (H _ buf) by apply lookup_insert_eq.
  by rewrite insert_insert_eq.
Qed.

Section ReceiptSteps.

Context {engine : Engine}.

Implicit Types (σ : Store) (buf : list Z).

Lemma line_inserted d t σ buf :
  fits t →
  Builder.line {| data := d |} (Some t) (<[d := buf]> σ)
  = (Normal {| data := d |}, <[d := buf ++ utf8_encode t ++ [0x0A]]> σ).
Proof.
  intros Hfit.
  apply (appends_inserted _ _ _ _
           (λ σ buf H, line_appends {| data := d |} (Some t) σ buf H Hfit)).
Qed.

Lemma rule_inserted d c σ buf :
  (Z.of_nat (length (rule c)) <=? 65535) = true →
  Builder.drawLine {| data := d |} (Some (js c)) (Some 32) (<[d := buf]> σ)
  = (Normal {| data := d |}, <[d := buf ++ rule c ++ [0x0A]]> σ).
Proof.
  intros Hshort.
  apply (appends_inserted _ _ _ _
           (λ σ buf H,
              drawLine_appends {| data := d |} (Some (js c)) (Some 32) σ buf H
                ltac:(done) (fits_literal _ Hshort))).
Qed.

Lemma String_concat_2 a b :
  fits (a ++ b) → String_concat [a; b] = Normal (a ++ b).
Proof.
  intros Hfit. rewrite String_concat_fits; cbn [List.concat];
    by rewrite app_nil_r.
Qed.

(** A line made by a template either is pushed, or is not and an error is
    thrown: by the template when the string would be too long, by [push]
    otherwise. *)
Lemma template_line_inserted {A} parts d σ buf
  (k : ESCPOSBuilder → M Store A) :
  fits (List.concat parts) →
  (let* txt := lift (String_concat parts) in
   let* b := Builder.line {| data := d |} (Some txt) in k b) (<[d := buf]> σ)
  = k {| data := d |}
      (<[d := buf ++ utf8_encode (List.concat parts) ++ [0x0A]]> σ).
Proof.
  intros Hfit. unfold bind, lift.
  by rewrite String_concat_fits, line_inserted.
Qed.

Lemma template2_line_inserted {A} a b d σ buf
  (k : ESCPOSBuilder → M Store A) :
  fits (a ++ b) →
  (let* txt := lift (String_concat [a; b]) in
   let* b := Builder.line {| data := d |} (Some txt) in k b) (<[d := buf]> σ)
  = k {| data := d |} (<[d := buf ++ utf8_encode (a ++ b) ++ [0x0A]]> σ).
Proof.
  intros Hfit. rewrite template_line_inserted; cbn [List.concat];
    by rewrite app_nil_r.
Qed.

Lemma template_line_throws {A} parts this σ
  (k : ESCPOSBuilder → M Store A) :
  ¬ fits (List.concat parts) →
  (let* txt := lift (String_concat parts) in
   let* b := Builder.line this (Some txt) in k b) σ
  = (Throw (RangeError (overflow_message (List.concat parts))), σ).
Proof.
  intros Hfit. unfold bind, lift, String_concat, overflow_message.
  destruct (_ <? _); [done|]. by rewrite line_throws.
Qed.

Lemma template2_line_throws {A} a b this σ
  (k : ESCPOSBuilder → M Store A) :
  ¬ fits (a ++ b) →
  (let* txt := lift (String_concat [a; b]) in
   let* b := Builder.line this (Some txt) in k b) σ
  = (Throw (RangeError (overflow_message (a ++ b))), σ).
Proof.
  intros Hfit. rewrite template_line_throws; cbn [List.concat];
    by rewrite app_nil_r.
Qed.

End ReceiptSteps.

Section ReceiptLayout.

Context {engine : Engine}.

Variable general : float → jsstring.
Variable now : jsstring.

Implicit Types (this : ESCPOSBuilder) (σ : Store) (buf : list Z).

Lemma item_texts_concat item :
  List.concat
    [padEnd (name item) 18; js " "; Number.toString general (quantity item);
     js "x "; Number.toFixed2 general (price item)]
  = padEnd (name item) 18 ++ js " "
      ++ Number.toString general (quantity item)
      ++ js "x " ++ Number.toFixed2 general (price item)
  ∧ List.concat
      [js "$"; Number.toFixed2 general (quantity item * price item)%float]
    = js "$" ++ Number.toFixed2 general (quantity item * price item)%float.
Proof. cbn [List.concat]. by rewrite !app_nil_r. Qed.

Lemma forEach_item_appends items :
  ∀ d σ buf subtotal,
    Forall fits (flat_map (item_texts general) items) →
    forEach_item general {| data := d |} items subtotal (<[d := buf]> σ)
    = (Normal
         (fold_left (λ acc item, (acc + quantity item * price item)%float)
            items subtotal),
       <[d := buf ++ flat_map (item_data general) items]> σ).
Proof.
  induction items as [|item items IH]; intros d σ buf subtotal Hfit.
  - cbn. by rewrite app_nil_r.
  - cbn [flat_map] in Hfit. apply Forall_app in Hfit as [Hitem Hfit].
    apply Forall_cons in Hitem as [Hline Hitem].
    apply Forall_cons in Hitem as [Hamount _].
    destruct (item_texts_concat item) as [E1 E2].
    cbn [forEach_item fold_left flat_map].
    rewrite template_line_inserted by (by rewrite E1).
    unfold bind at 1.
    rewrite (appends_inserted _ _ _ _ (align_appends {| data := _ |} _)).
    cbv beta iota.
    rewrite template_line_inserted by (by rewrite E2).
    unfold bind at 1.
    rewrite (appends_inserted _ _ _ _ (align_appends {| data := _ |} _)).
    cbv beta iota.
    rewrite IH by done. rewrite E1, E2. unfold item_data.
    cbn [TextAlign_value]. by rewrite <- !app_assoc.
Qed.

(** When a text of an item does not fit, the loop throws; what the
    rounds before it pushed stays. *)
Lemma forEach_item_throws items :
  ∀ d σ buf subtotal,
    ¬ Forall fits (flat_map (item_texts general) items) →
    ∃ msg bs,
      forEach_item general {| data := d |} items subtotal (<[d := buf]> σ)
      = (Throw (RangeError msg), <[d := buf ++ bs]> σ).
Proof.
  induction items as [|item items IH]; intros d σ buf subtotal Hfit.
  - exfalso. apply Hfit. constructor.
  - destruct (item_texts_concat item) as [E1 E2].
    cbn [forEach_item flat_map item_texts] in *.
    destruct (fits_dec
                (padEnd (name item) 18 ++ js " "
                   ++ Number.toString general (quantity item)
                   ++ js "x " ++ Number.toFixed2 general (price item)))
      as [Hline|Hline].
    2:{ rewrite template_line_throws by (by rewrite E1).
        eexists _, []. by rewrite app_nil_r. }
    rewrite template_line_inserted by (by rewrite E1).
    unfold bind at 1.
    rewrite (appends_inserted _ _ _ _ (align_appends {| data := _ |} _)).
    cbv beta iota.
    destruct (fits_dec
                (js "$"
                   ++ Number.toFixed2 general (quantity item * price item)%float))
      as [Hamount|Hamount].
    2:{ rewrite template_line_throws by (by rewrite E2).
        eexists _, _. by rewrite <- app_assoc. }
    rewrite template_line_inserted by (by rewrite E2).
    unfold bind at 1.
    rewrite (appends_inserted _ _ _ _ (align_appends {| data := _ |} _)).
    cbv beta iota.
    edestruct (IH d σ) as (msg & bs & ->).
    { intros Hrest. apply Hfit. apply Forall_app. split; [|exact Hrest].
      by repeat constructor. }
    eexists msg, _. by rewrite <- !app_assoc.
Qed.

(** The alignment command pushed at the end of a round opens the next
    line. *)
Lemma item_data_lines items rest :
  [0x1B; 0x61; 0x00] ++ flat_map (item_data general) items ++ rest
  = join_lines (flat_map (item_lines general) items)
      ++ [0x1B; 0x61; 0x00] ++ rest.
Proof.
  induction items as [|item items IH]; [reflexivity|].
  cbn [flat_map]. unfold join_lines in *. rewrite flat_map_app.
  rewrite <- !app_assoc, <- IH. unfold item_data, item_lines.
  cbn [flat_map]. by rewrite <- !app_assoc.
Qed.

Lemma Forall_fits_dec l : Forall fits l ∨ ¬ Forall fits l.
Proof.
  induction l as [|t l [IH|IH]]; [left; constructor | |].
  - destruct (fits_dec t); [left; by constructor|].
    right. by intros [? _]%Forall_cons.
  - right. by intros [_ ?]%Forall_cons.
Qed.

End ReceiptLayout.

(** One call of a chain on a builder whose buffer is known. *)
Ltac step_builder :=
  first
    [ rewrite template2_line_inserted by assumption
    | unfold bind at 1;
      first
        [ rewrite (appends_inserted _ _ _ _ (align_appends {| data := _ |} _))
        | rewrite (appends_inserted _ _ _ _
                     (textSize_appends {| data := _ |} _))
        | rewrite (appends_inserted _ _ _ _ (bold_appends {| data := _ |} _))
        | rewrite (appends_inserted _ _ _ _ (feed_appends {| data := _ |} _))
        | rewrite (appends_inserted _ _ _ _ (cut_appends {| data := _ |} _))
        | lazymatch goal with
          | |- context [Builder.line _ (Some (js _)) (<[_ := _]> _)] =>
              rewrite line_inserted by (by apply fits_literal)
          end
        | rewrite line_inserted by assumption
        | rewrite rule_inserted by reflexivity
        | rewrite forEach_item_appends by assumption ];
      cbv beta iota ].

Section ReceiptRefinement.

Context {engine : Engine}.

Variable general : float → jsstring.
Variable now : jsstring.

(** [buildReceipt] returns a new array with the bytes of the layout. *)
Lemma buildReceipt_layout storeName items tax payment σ :
  receipt_fits general now storeName items (default 0%float tax)
    (default (js "CASH") payment) →
  let d := fresh (dom σ) in
  let content :=
    receipt_data general now storeName items (default 0%float tax)
      (default (js "CASH") payment) in
  let σ1 : Store := <[d := content]> σ in
  buildReceipt general now storeName items tax payment σ
  = (Normal (fresh (dom σ1)), <[fresh (dom σ1) := map ToUint8 content]> σ1).
Proof.
  intros Hfit d content σ1.
  unfold receipt_fits, receipt_texts in Hfit.
  apply Forall_app in Hfit as [Hhead Hfit].
  apply Forall_cons in Hhead as [Hstore Hhead].
  apply Forall_cons in Hhead as [Hnow _].
  apply Forall_app in Hfit as [Hitems Hfit].
  apply Forall_app in Hfit as [Hsub Hfit].
  apply Forall_cons in Hsub as [Hsub _].
  apply Forall_app in Hfit as [Htaxfit Hfit].
  apply Forall_cons in Hfit as [Htotal Hfit].
  apply Forall_cons in Hfit as [Hpay _].
  unfold subtotal_of in Hsub, Htotal.
  unfold buildReceipt. cbv zeta. unfold bind at 1.
  rewrite new_initialized. fold d. cbv beta iota.
  do 14 step_builder.
  destruct (0 <? default 0 tax)%float eqn:Htax.
  1: apply Forall_cons in Htaxfit as [Htaxfit _];
     unfold bind at 1 2; unfold lift at 1;
     rewrite String_concat_2 by assumption; cbv beta iota;
     rewrite line_inserted by assumption; cbv beta iota.
  2: unfold bind at 1; unfold ret at 1; cbv beta iota.
  all: repeat step_builder.
  all: erewrite build_copies by apply lookup_insert_eq.
  all: lazymatch goal with
       | |- (Normal _, <[_ := map ToUint8 ?raw]> _) = _ =>
           enough (Hraw : raw = content) by (rewrite Hraw; reflexivity)
       end.
  all: unfold content, receipt_data, receipt_lines, tax_lines, subtotal_of,
         receipt_trailer, rule; rewrite Htax.
  all: cbn [default from_option id TextAlign_value TextSize_value
              CutType_value Z.to_nat Pos.to_nat Pos.iter_op Nat.add
              List.repeat].
  all: rewrite <- !app_assoc.
  all: rewrite (item_data_lines general items).
  all: unfold join_lines; rewrite !flat_map_app; cbn [flat_map].
  all: rewrite <- !app_assoc; reflexivity.
Qed.

(** When a text does not fit, [buildReceipt] throws a [RangeError]; the
    only array it has made by then is its buffer. *)
Lemma buildReceipt_throws storeName items tax payment σ :
  ¬ receipt_fits general now storeName items (default 0%float tax)
      (default (js "CASH") payment) →
  ∃ msg partial,
    buildReceipt general now storeName items tax payment σ
    = (Throw (RangeError msg), <[fresh (dom σ) := partial]> σ).
Proof.
  intros Hfit. unfold buildReceipt. cbv zeta. unfold bind at 1.
  rewrite new_initialized. set (d := fresh (dom σ)). cbv beta iota.
  do 3 step_builder.
  destruct (fits_dec storeName) as [Hstore|Hstore].
  2:{ unfold bind at 1. rewrite line_throws by done. by eexists _, _. }
  do 3 step_builder.
  destruct (fits_dec now) as [Hnow|Hnow].
  2:{ unfold bind at 1. rewrite line_throws by done. by eexists _, _. }
  do 4 step_builder.
  destruct (Forall_fits_dec (flat_map (item_texts general) items))
    as [Hitems|Hitems].
  2:{ unfold bind at 1.
      match goal with
      | |- context [forEach_item general _ items _ (<[d := ?buf]> σ)] =>
          destruct (forEach_item_throws general items d σ buf 0%float Hitems)
            as (msg & bs & Hthrow)
      end.
      rewrite Hthrow. by eexists _, _. }
  do 3 step_builder.
  destruct (fits_dec
              (js "Subtotal: $"
                 ++ Number.toFixed2 general
                      (fold_left
                         (λ acc item, (acc + quantity item * price item)%float)
                         items 0%float))) as [Hsub|Hsub].
  2:{ rewrite template2_line_throws by done. by eexists _, _. }
  step_builder.
  assert (Htaxstep :
    Forall fits
      (if (0 <? default 0 tax)%float
       then [js "Tax: $" ++ Number.toFixed2 general (default 0%float tax)]
       else [])
    ∨ ¬ fits (js "Tax: $" ++ Number.toFixed2 general (default 0%float tax))
      ∧ (0 <? default 0 tax)%float = true).
  { destruct (0 <? default 0 tax)%float; [|left; constructor].
    destruct (fits_dec
                (js "Tax: $" ++ Number.toFixed2 general (default 0%float tax)));
      [left; by repeat constructor | by right]. }
  destruct Htaxstep as [Htaxfit|[Htaxfit Htax]].
  2:{ rewrite Htax. unfold bind at 1 2. unfold lift at 1.
      unfold String_concat.
      destruct (_ <? _); [by eexists _, _|].
      rewrite line_throws; [by eexists _, _|].
      cbn [List.concat default]. by rewrite app_nil_r. }
  destruct (fits_dec
              (js "TOTAL: $"
                 ++ Number.toFixed2 general
                      (fold_left
                         (λ acc item, (acc + quantity item * price item)%float)
                         items 0%float + default 0%float tax)%float))
    as [Htotal|Htotal].
  2:{ destruct (0 <? default 0 tax)%float.
      - apply Forall_cons in Htaxfit as [Htaxfit _].
        unfold bind at 1 2. unfold lift at 1.
        rewrite String_concat_2 by assumption. cbv beta iota.
        rewrite line_inserted by assumption. cbv beta iota.
        do 2 step_builder.
        rewrite template2_line_throws by done. by eexists _, _.
      - unfold bind at 1; unfold ret at 1; cbv beta iota.
        do 2 step_builder.
        rewrite template2_line_throws by done. by eexists _, _. }
  destruct (fits_dec (js "Payment: " ++ default (js "CASH") payment))
    as [Hpay|Hpay].
  2:{ destruct (0 <? default 0 tax)%float.
      - apply Forall_cons in Htaxfit as [Htaxfit _].
        unfold bind at 1 2. unfold lift at 1.
        rewrite String_concat_2 by assumption. cbv beta iota.
        rewrite line_inserted by assumption. cbv beta iota.
        do 5 step_builder.
        rewrite template2_line_throws by done. by eexists _, _.
      - unfold bind at 1; unfold ret at 1; cbv beta iota.
        do 5 step_builder.
        rewrite template2_line_throws by done. by eexists _, _. }
  exfalso. apply Hfit. unfold receipt_fits, receipt_texts, subtotal_of.
  repeat (apply Forall_app; split); try done; by repeat constructor.
Qed.

End ReceiptRefinement.
(* ===================================================================== *)
(** * Numbers and receipts as lines of text *)
(* ===================================================================== *)

Section SingleLine.

Lemma single_line_printable s : printable s → single_line s.
Proof.
  intros H. unfold single_line. rewrite (text_bytes_printable _ H).
  by apply printable_no_LF.
Qed.

Lemma text_bytes_app a b :
  (∀ d b', b = d :: b' → is_low_surrogate d = false) →
  text_bytes (a ++ b) = text_bytes a ++ text_bytes b.
Proof.
  intros H. unfold text_bytes. by rewrite utf8_encode_app, map_app.
Qed.

Lemma text_bytes_printable_app a b :
  printable a → text_bytes (a ++ b) = a ++ text_bytes b.
Proof.
  intros H. unfold text_bytes.
  by rewrite utf8_encode_printable_app, map_app, ToUint8_printable.
Qed.

Lemma single_line_app a b :
  (∀ d b', b = d :: b' → is_low_surrogate d = false) →
  single_line a → single_line b → single_line (a ++ b).
Proof.
  intros H Ha Hb. unfold single_line in *.
  rewrite text_bytes_app by done. rewrite in_app_iff. tauto.
Qed.

Lemma single_line_printable_app a b :
  printable a → single_line b → single_line (a ++ b).
Proof.
  intros Ha Hb. unfold single_line in *.
  rewrite text_bytes_printable_app by done. rewrite in_app_iff.
  pose proof (printable_no_LF _ Ha). tauto.
Qed.

Lemma printable_head_not_low a b :
  printable a → a ≠ [] →
  ∀ d b', a ++ b = d :: b' → is_low_surrogate d = false.
Proof.
  intros Ha Hne d b' E. destruct a as [|c a]; [done|].
  injection E as -> _. apply Forall_cons in Ha as [Hc _].
  unfold is_low_surrogate. destruct (Z.leb_spec 0xDC00 d); [lia|done].
Qed.

Lemma single_line_padEnd s n : single_line s → single_line (padEnd s n).
Proof.
  intros Hs. unfold padEnd. apply single_line_app; [|done|].
  - intros d b' E. destruct (n - length s)%nat; [done|].
    injection E as <- _. reflexivity.
  - apply single_line_printable, printable_repeat. lia.
Qed.

End SingleLine.

Section NumberText.

Variable general : float → jsstring.

Lemma digits_of_uint_printable u : printable (Number.digits_of_uint u).
Proof.
  induction u; cbn [Number.digits_of_uint];
    [constructor | constructor; [lia|done] ..].
Qed.

Lemma decimal_digits_printable n : printable (Number.decimal_digits n).
Proof. apply digits_of_uint_printable. Qed.

Lemma sign_text_printable neg : printable (Number.sign_text neg).
Proof. destruct neg; by apply printableb_spec. Qed.

(** The text of a number is printable ASCII or what the engine gives. *)
Lemma toString_text x :
  printable (Number.toString general x)
  ∨ Number.toString general x = general x.
Proof.
  unfold Number.toString. destruct (Prim2SF x) as [neg|neg| |neg m e].
  - left. by apply printableb_spec.
  - left. apply printable_app; [apply sign_text_printable|].
    by apply printableb_spec.
  - left. by apply printableb_spec.
  - destruct (Number.integer_value m e) as [n|]; [|by right].
    destruct (n <? 2 ^ 53); [|by right].
    left. apply printable_app;
      [apply sign_text_printable | apply decimal_digits_printable].
Qed.

Lemma toFixed2_text x :
  printable (Number.toFixed2 general x)
  ∨ ∃ neg y, Number.toFixed2 general x = Number.sign_text neg ++ general y.
Proof.
  unfold Number.toFixed2. destruct (Prim2SF x) as [neg|neg| |neg m e].
  - left. by apply printableb_spec.
  - left. apply printable_app; [apply sign_text_printable|].
    by apply printableb_spec.
  - left. by apply printableb_spec.
  - destruct (Number.at_least_1e21 m e).
    + destruct (toString_text (PrimFloat.abs x)) as [Hp| ->].
      * left. apply printable_app; [apply sign_text_printable|done].
      * right. by exists neg, (PrimFloat.abs x).
    + left. cbv zeta.
      set (digits := if (_ <=? 2)%nat then _ else _).
      assert (Hd : printable digits).
      { unfold digits. destruct (_ <=? 2)%nat.
        - apply printable_app;
            [apply printable_repeat; lia | apply decimal_digits_printable].
        - apply decimal_digits_printable. }
      apply printable_app; [apply sign_text_printable|].
      apply printable_app; [by apply Forall_take|].
      apply printable_app; [by apply printableb_spec | by apply Forall_drop].
Qed.

Hypothesis general_single_line : ∀ x, single_line (general x).

Lemma toString_single_line x : single_line (Number.toString general x).
Proof.
  destruct (toString_text x) as [H| ->];
    [by apply single_line_printable | apply general_single_line].
Qed.

Lemma toFixed2_single_line x : single_line (Number.toFixed2 general x).
Proof.
  destruct (toFixed2_text x) as [H|(neg & y & ->)].
  - by apply single_line_printable.
  - apply single_line_printable_app;
      [apply sign_text_printable | apply general_single_line].
Qed.

End NumberText.

Section ReceiptText.

Variable general : float → jsstring.
Variable now : jsstring.

Lemma line_ok_text s : single_line s → line_ok (utf8_encode s).
Proof. done. Qed.

Lemma line_ok_command cmd s :
  line_ok cmd → single_line s → line_ok (cmd ++ utf8_encode s).
Proof.
  unfold line_ok, single_line, text_bytes. rewrite map_app, in_app_iff. tauto.
Qed.

Lemma line_ok_bytes l :
  forallb (λ b, negb (ToUint8 b =? LF)) l = true → line_ok l.
Proof.
  unfold line_ok. rewrite forallb_forall, in_map_iff.
  intros H (b & Hb & Hin). apply H in Hin.
  rewrite Hb, Z.eqb_refl in Hin. discriminate.
Qed.

Lemma line_ok_rule c : printable (js c) → line_ok (rule c).
Proof.
  intros Hc. apply line_ok_text, single_line_printable.
  by apply printable_concat_repeat.
Qed.

Hypothesis general_single_line : ∀ x, single_line (general x).

Lemma item_lines_ok item :
  single_line (name item) → Forall line_ok (item_lines general item).
Proof.
  intros Hname. unfold item_lines.
  assert (Hsp : printable (js " ")) by by apply printableb_spec.
  assert (Hx : printable (js "x ")) by by apply printableb_spec.
  assert (Hdollar : printable (js "$")) by by apply printableb_spec.
  constructor; [|constructor; [|constructor]].
  - apply line_ok_command; [by apply line_ok_bytes|].
    apply single_line_app.
    + by apply printable_head_not_low.
    + by apply single_line_padEnd.
    + apply single_line_printable_app; [done|].
      apply single_line_app.
      * by apply printable_head_not_low.
      * by apply toString_single_line.
      * apply single_line_printable_app; [done|].
        by apply toFixed2_single_line.
  - apply line_ok_command; [by apply line_ok_bytes|].
    apply single_line_printable_app; [done|].
    by apply toFixed2_single_line.
Qed.

Lemma items_lines_ok items :
  Forall (λ item, single_line (name item)) items →
  Forall line_ok (flat_map (item_lines general) items).
Proof.
  induction 1 as [|item items Hitem _ IH]; [constructor|].
  cbn [flat_map]. apply Forall_app_2; [by apply item_lines_ok | done].
Qed.

Lemma receipt_lines_ok storeName items tax payment :
  single_line storeName → single_line now → single_line payment →
  Forall (λ item, single_line (name item)) items →
  Forall line_ok (receipt_lines general now storeName items tax payment).
Proof.
  intros Hstore Hnow Hpay Hitems. unfold receipt_lines, tax_lines.
  assert (Hamount : ∀ label x,
            printableb (js label) = true →
            single_line (js label ++ Number.toFixed2 general x)).
  { intros label x Hl. apply single_line_printable_app;
      [by apply printableb_spec | by apply toFixed2_single_line]. }
  repeat apply Forall_app_2.
  - repeat constructor.
    + apply line_ok_command; [by apply line_ok_bytes | done].
    + apply line_ok_command; [by apply line_ok_bytes | done].
    + by apply line_ok_bytes.
    + apply line_ok_rule. by apply printableb_spec.
  - by apply items_lines_ok.
  - repeat constructor.
    + apply line_ok_command; [by apply line_ok_bytes|].
      apply single_line_printable. apply printable_concat_repeat.
      by apply printableb_spec.
    + apply line_ok_command; [by apply line_ok_bytes | by apply Hamount].
  - destruct (0 <? tax)%float; repeat constructor.
    apply line_ok_text. by apply Hamount.
  - repeat constructor.
    + apply line_ok_command; [by apply line_ok_bytes | by apply Hamount].
    + apply line_ok_command; [by apply line_ok_bytes|].
      apply single_line_printable_app; [by apply printableb_spec | done].
    + apply line_ok_rule. by apply printableb_spec.
    + by apply line_ok_bytes.
    + apply line_ok_text, single_line_printable. by apply printableb_spec.
    + apply line_ok_text, single_line_printable. by apply printableb_spec.
    + by apply line_ok_bytes.
    + by apply line_ok_bytes.
    + by apply line_ok_bytes.
Qed.

End ReceiptText.

Section LinesOfReceipt.



End LinesOfReceipt.

Section TaxLine.

Variable general : float → jsstring.
Variable now : jsstring.




End TaxLine.

(* ===================================================================== *)
(** * The claims about the receipt *)
(* ===================================================================== *)

Section ReceiptClaims.

Context {engine : Engine}.

Variable general : float → jsstring.
Variable now : jsstring.

Lemma built_buildReceipt storeName items tax payment σ :
  receipt_fits general now storeName items (default 0%float tax)
    (default (js "CASH") payment) →
  built (buildReceipt general now storeName items tax payment) σ
  = Some (map ToUint8
            (receipt_data general now storeName items (default 0%float tax)
               (default (js "CASH") payment))).
Proof.
  intros Hfit. unfold built. rewrite buildReceipt_layout by done. cbv zeta.
  apply lookup_insert_eq.
Qed.

Lemma receipt_fits_now storeName items tax payment :
  receipt_fits general now storeName items tax payment → fits now.
Proof.
  unfold receipt_fits, receipt_texts. intros Hfit.
  apply Forall_app in Hfit as [Hhead _].
  apply Forall_cons in Hhead as [_ Hhead].
  by apply Forall_cons in Hhead as [? _].
Qed.

(** A receipt of short texts whose numbers are printed here. *)
Lemma receipt_fits_literal storeName items tax payment :
  fits now →
  forallb (λ t, Z.of_nat (length (utf8_encode t)) <=? 65535)
    (receipt_texts general [] storeName items tax payment) = true →
  receipt_fits general now storeName items tax payment.
Proof.
  intros Hnow Hshort. unfold receipt_fits.
  rewrite forallb_forall in Hshort. apply Forall_forall. intros t Ht.
  apply list_elem_of_In in Ht. unfold receipt_texts in *.
  cbn [app] in *. destruct Ht as [<-|[<-|Ht]].
  - apply fits_literal, Hshort. by left.
  - exact Hnow.
  - apply fits_literal, Hshort. right; by right.
Qed.

Lemma shows_line out_lines l s :
  In l out_lines → occurs (text_bytes (js s)) (map ToUint8 l) = true →
  shows (map ToUint8 (join_lines out_lines ++ receipt_trailer)) s = true.
Proof. intros Hin Hocc. unfold shows. by eapply occurs_in_lines. Qed.

Lemma subtotal_line_in_layout storeName items tax payment :
  In ([ESC; 0x61; 0x02]
        ++ utf8_encode
             (js "Subtotal: $"
                ++ Number.toFixed2 general (subtotal_of items)))
    (receipt_lines general now storeName items tax payment).
Proof.
  unfold receipt_lines. do 2 (apply in_or_app; right).
  apply in_or_app; left. right; left. reflexivity.
Qed.

Lemma total_line_in_layout storeName items tax payment :
  In ([ESC; 0x21; 0x10; ESC; 0x45; 0x01]
        ++ utf8_encode
             (js "TOTAL: $"
                ++ Number.toFixed2 general (subtotal_of items + tax)%float))
    (receipt_lines general now storeName items tax payment).
Proof.
  unfold receipt_lines. do 4 (apply in_or_app; right). left. reflexivity.
Qed.

Lemma tax_line_in_layout_when_due storeName items tax payment :
  (0 <? tax)%float = true →
  In (utf8_encode (js "Tax: $" ++ Number.toFixed2 general tax))
    (receipt_lines general now storeName items tax payment).
Proof.
  intros Htax. unfold receipt_lines, tax_lines. rewrite Htax.
  do 3 (apply in_or_app; right). apply in_or_app; left. left. reflexivity.
Qed.


(** C2, as the code has it. The amounts are binary64 numbers; the line
    totals are added up unrounded, and an amount is rounded to two decimals
    only where it is printed: when every text of the receipt fits in one
    call of [push], the output is the layout whose subtotal line prints
    [toFixed(2)] of the unrounded sum and whose total line prints
    [toFixed(2)] of that sum plus the tax. For [buildReceipt("Shop",
    [{"A", 1, 9.995}], 0.005, "CASH")] the output shows ["Subtotal: $9.99"],
    ["Tax: $0.01"] and ["TOTAL: $10.00"]; for two items of 0.004 each, the
    subtotal shown is ["$0.01"], the rounded sum, not the sum of the rounded
    amounts. *)
Theorem buildReceipt_rounds_when_printing storeName items tax payment σ :
  receipt_fits general now storeName items (default 0%float tax)
    (default (js "CASH") payment) →
  built (buildReceipt general now storeName items tax payment) σ
  = Some (map ToUint8
            (receipt_data general now storeName items (default 0%float tax)
               (default (js "CASH") payment)))
  ∧ subtotal_of items
    = fold_left (λ acc item, (acc + quantity item * price item)%float)
        items 0%float
  ∧ In ([ESC; 0x61; 0x02]
          ++ utf8_encode
               (js "Subtotal: $"
                  ++ Number.toFixed2 general (subtotal_of items)))
      (receipt_lines general now storeName items (default 0%float tax)
         (default (js "CASH") payment))
  ∧ In ([ESC; 0x21; 0x10; ESC; 0x45; 0x01]
          ++ utf8_encode
               (js "TOTAL: $"
                  ++ Number.toFixed2 general
                       (subtotal_of items + default 0 tax)%float))
      (receipt_lines general now storeName items (default 0%float tax)
         (default (js "CASH") payment))
  ∧ (∃ out,
       built (buildReceipt general now (js "Shop")
                [ {| name := js "A"; quantity := 1; price := 9.995 |} ]
                (Some 0.005%float) (Some (js "CASH"))) σ
       = Some out
       ∧ shows out "Subtotal: $9.99" = true
       ∧ shows out "Tax: $0.01" = true
       ∧ shows out "TOTAL: $10.00" = true)
  ∧ (∃ out,
       built (buildReceipt general now (js "Shop")
                [ {| name := js "A"; quantity := 1; price := 0.004 |};
                  {| name := js "B"; quantity := 1; price := 0.004 |} ]
                (Some 0%float) (Some (js "CASH"))) σ
       = Some out
       ∧ shows out "$0.00" = true
       ∧ shows out "Subtotal: $0.01" = true
       ∧ shows out "TOTAL: $0.01" = true).
Proof.
  intros Hfit. pose proof (receipt_fits_now _ _ _ _ Hfit) as Hnow.
  split; [by apply built_buildReceipt|].
  split; [reflexivity|].
  split; [apply subtotal_line_in_layout|].
  split; [apply total_line_in_layout|].
  split.
  - eexists. split.
    { apply built_buildReceipt, receipt_fits_literal; [done | by vm_compute]. }
    unfold receipt_data. cbn [default].
    split; [|split].
    + eapply shows_line; [apply subtotal_line_in_layout|].
      vm_compute. reflexivity.
    + eapply shows_line; [by apply tax_line_in_layout_when_due|].
      vm_compute. reflexivity.
    + eapply shows_line; [apply total_line_in_layout|].
      vm_compute. reflexivity.
  - eexists. split.
    { apply built_buildReceipt, receipt_fits_literal; [done | by vm_compute]. }
    unfold receipt_data. cbn [default].
    split; [|split].
    + eapply shows_line.
      * unfold receipt_lines. apply in_or_app; right. apply in_or_app; left.
        cbn [flat_map item_lines]. right; left. reflexivity.
      * vm_compute. reflexivity.
    + eapply shows_line; [apply subtotal_line_in_layout|].
      vm_compute. reflexivity.
    + eapply shows_line; [apply total_line_in_layout|].
      vm_compute. reflexivity.
Qed.

End ReceiptClaims.

Section ReceiptExamples.

Local Existing Instance example_engine.

Lemma example_receipt_fits storeName items tax payment :
  forallb (λ t, Z.of_nat (length (utf8_encode t)) <=? 65535)
    (receipt_texts (λ _, js "NaN") (js "11/2/2026, 9:14:00 AM") storeName
       items tax payment) = true →
  receipt_fits (λ _, js "NaN") (js "11/2/2026, 9:14:00 AM") storeName items
    tax payment.
Proof.
  intros Hshort. unfold receipt_fits.
  rewrite forallb_forall in Hshort. apply Forall_forall. intros t Ht.
  apply list_elem_of_In in Ht. by apply fits_literal, Hshort.
Qed.

(** C2, as the specification states it, fails on its own example: with the
    clock reading "11/2/2026, 9:14:00 AM", the receipt for one item "A" at
    9.995 and a tax of 0.005 shows neither a subtotal of "$10.00" nor a total
    of "$10.01"; it shows "Subtotal: $9.99" and "TOTAL: $10.00". The price
    9.995 is the binary64 number [5626684784446013 / 2^49], which is below
    9.995 and prints as "9.99"; the total printed is that of the unrounded
    sum. *)
Lemma buildReceipt_decimal_counterexample :
  ∃ out,
    built (buildReceipt (λ _, js "NaN") (js "11/2/2026, 9:14:00 AM")
             (js "Shop")
             [ {| name := js "A"; quantity := 1; price := 9.995 |} ]
             (Some 0.005%float) (Some (js "CASH"))) ∅
    = Some out
    ∧ shows out "Subtotal: $10.00" = false
    ∧ shows out "TOTAL: $10.01" = false
    ∧ shows out "Subtotal: $9.99" = true
    ∧ shows out "TOTAL: $10.00" = true
    ∧ Prim2SF 9.995 = S754_finite false 5626684784446013 (-49)
    ∧ 5626684784446013 * 1000 < 9995 * 2 ^ 49.
Proof.
  eexists. split.
  { apply built_buildReceipt, example_receipt_fits. by vm_compute. }
  repeat split; vm_compute; reflexivity.
Qed.



Lemma buildReceipt_rounds_when_printing_witness :
  let general := λ _ : float, js "NaN" in
  let now := js "11/2/2026, 9:14:00 AM" in
  let items := [ {| name := js "A"; quantity := 1; price := 9.995 |} ] in
  receipt_fits general now (js "Shop") items (default 0%float (Some 0.005%float))
    (default (js "CASH") None)
  ∧ built (buildReceipt general now (js "Shop") items (Some 0.005%float) None)
      ∅
    = Some (map ToUint8
              (receipt_data general now (js "Shop") items
                 (default 0%float (Some 0.005%float)) (default (js "CASH") None))).
Proof.
  assert (Hfit :
    receipt_fits (λ _, js "NaN") (js "11/2/2026, 9:14:00 AM") (js "Shop")
      [ {| name := js "A"; quantity := 1; price := 9.995 |} ]
      (default 0%float (Some 0.005%float)) (default (js "CASH") None))
    by (apply example_receipt_fits; by vm_compute).
  split; [exact Hfit|].
  exact (proj1 (buildReceipt_rounds_when_printing (λ _, js "NaN")
                  (js "11/2/2026, 9:14:00 AM") (js "Shop")
                  [ {| name := js "A"; quantity := 1; price := 9.995 |} ]
                  (Some 0.005%float) None ∅ Hfit)).
Defined.

End ReceiptExamples.

(* ===================================================================== *)
(** * More about the builder *)
(* ===================================================================== *)

Section BuilderComposition.

Context {engine : Engine}.

Implicit Types (this : ESCPOSBuilder) (σ : Store) (buf : list Z).

Lemma script_appends ops :
  ∀ this σ buf,
    σ !! data this = Some buf →
    Forall (λ o, o ≠ op_reset) ops →
    (script ops this σ).1 = this
    ∧ ∃ more, (script ops this σ).2 !! data this = Some (buf ++ more).
Proof.
  induction ops as [|o ops IH]; intros this σ buf H Hops; cbn [script].
  - split; [done|]. exists []. by rewrite app_nil_r.
  - apply Forall_cons in Hops as [Ho Hops].
    destruct (call_op_effect o this σ buf H).
    + destruct (IH this (<[data this := buf ++ bs]> σ) (buf ++ bs))
        as [Hthis [more Hmore]]; [apply lookup_insert_eq | done |].
      split; [done|]. exists (bs ++ more). by rewrite app_assoc.
    + destruct (IH this (<[data this := buf ++ bs]> σ) (buf ++ bs))
        as [Hthis [more Hmore]]; [apply lookup_insert_eq | done |].
      split; [done|]. exists (bs ++ more). by rewrite app_assoc.
    + apply IH; [|done]. rewrite lookup_insert_ne; [done|].
      symmetry. eapply fresh_not_allocated; eauto.
    + done.
Qed.

(** X1. Until [reset], the buffer only grows: whatever the client calls (a call
    may throw, [build] may be called in between), the client still holds the
    same builder, and its buffer is the earlier contents followed by what the
    calls pushed. *)
Theorem buffer_only_grows ops this σ buf :
  σ !! data this = Some buf →
  Forall (λ o, o ≠ op_reset) ops →
  (script ops this σ).1 = this
  ∧ ∃ more, (script ops this σ).2 !! data this = Some (buf ++ more).
Proof. apply script_appends. Qed.

(** X2. [feed(n)] does nothing at all for [n <= 0]; for [n >= 0] it pushes
    exactly [n] line feeds; and feeding [n] lines and then [m] lines is
    feeding [n + m] lines. *)
Theorem feed_adds_up this σ buf n m :
  σ !! data this = Some buf →
  (n <= 0 → Builder.feed this (Some n) σ = (Normal this, σ))
  ∧ (0 <= n →
     Builder.feed this (Some n) σ
     = (Normal this, <[data this := buf ++ List.repeat 0x0A (Z.to_nat n)]> σ)
     ∧ length (List.repeat 0x0A (Z.to_nat n)) = Z.to_nat n)
  ∧ (0 <= n → 0 <= m →
     (let* b := Builder.feed this (Some n) in Builder.feed b (Some m)) σ
     = Builder.feed this (Some (n + m)) σ).
Proof.
  intros H. split; [|split].
  - intros Hn. unfold Builder.feed.
    change (default 1 (Some n)) with n.
    replace (Z.to_nat n) with 0%nat by lia. reflexivity.
  - intros Hn. split; [by rewrite (feed_appends _ _ _ _ H) | apply repeat_length].
  - intros Hn Hm. unfold bind.
    rewrite (feed_appends _ _ _ _ H).
    erewrite feed_appends by apply lookup_insert_eq.
    rewrite insert_insert_eq, (feed_appends _ _ _ _ H).
    change (default 1 (Some n)) with n. change (default 1 (Some m)) with m.
    change (default 1 (Some (n + m))) with (n + m).
    rewrite <- app_assoc, <- repeat_app, Z2Nat.inj_add by lia. reflexivity.
Qed.

Lemma feed_adds_up_witness :
  let this := {| data := 1%positive |} in
  let σ : Store := {[ 1%positive := [0x1B; 0x40] ]} in
  σ !! data this = Some [0x1B; 0x40]
  ∧ (0 <= 2 → 0 <= 3 →
     (let* b := Builder.feed this (Some 2) in Builder.feed b (Some 3)) σ
     = Builder.feed this (Some (2 + 3)) σ).
Proof.
  split; [reflexivity|].
  apply (feed_adds_up {| data := 1%positive |}
           {[ 1%positive := [0x1B; 0x40] ]} [0x1B; 0x40] 2 3).
  reflexivity.
Defined.

(** X3. [reset()] throws the accumulated bytes away, where [initialize()] adds
    to them: after [reset()], [build()] returns exactly [0x1B, 0x40],
    whatever the buffer held; after [initialize()] it returns the earlier
    bytes followed by [0x1B, 0x40]. The array that was the buffer before
    [reset()] is left as it was. *)
Theorem reset_discards_buffer this σ buf :
  σ !! data this = Some buf →
  (∃ b r σ',
     (let* b := Builder.reset this in
      let* r := Builder.build b in ret (b, r)) σ = (Normal (b, r), σ')
     ∧ σ' !! r = Some [0x1B; 0x40]
     ∧ σ' !! data b = Some [0x1B; 0x40]
     ∧ data b ≠ data this
     ∧ σ' !! data this = Some buf)
  ∧ (∃ r σ',
       (let* b := Builder.initialize this in Builder.build b) σ
       = (Normal r, σ')
       ∧ σ' !! r = Some (map ToUint8 buf ++ [0x1B; 0x40])
       ∧ σ' !! data this = Some (buf ++ [0x1B; 0x40])).
Proof.
  intros H. split.
  - unfold bind, ret. rewrite reset_initialized.
    set (d := fresh (dom σ)). set (σ1 := <[d := [0x1B; 0x40]]> σ).
    assert (Hd : σ1 !! d = Some [0x1B; 0x40]) by apply lookup_insert_eq.
    rewrite (build_copies {| data := d |} σ1 _ Hd).
    assert (Hne : data this ≠ d) by (eapply fresh_not_allocated; eauto).
    assert (H1 : σ1 !! data this = Some buf)
      by (unfold σ1; by rewrite lookup_insert_ne).
    assert (Hr : d ≠ fresh (dom σ1)) by (eapply fresh_not_allocated; eauto).
    assert (Hr' : data this ≠ fresh (dom σ1))
      by (eapply fresh_not_allocated; eauto).
    eexists _, _, _. split; [reflexivity|].
    split; [apply lookup_insert_eq|].
    split; [cbn [data]; by rewrite lookup_insert_ne|].
    split; [cbn [data]; congruence|]. by rewrite lookup_insert_ne.
  - unfold bind. rewrite (initialize_appends _ _ _ H).
    erewrite build_copies by apply lookup_insert_eq.
    eexists _, _. split; [reflexivity|].
    split; [by rewrite lookup_insert_eq, map_app|].
    rewrite lookup_insert_ne; [apply lookup_insert_eq|].
    symmetry. eapply fresh_not_allocated. apply lookup_insert_eq.
Qed.

Lemma reset_discards_buffer_witness :
  let this := {| data := 1%positive |} in
  let σ : Store := {[ 1%positive := [0x1B; 0x40; 0x41; 0x0A] ]} in
  σ !! data this = Some [0x1B; 0x40; 0x41; 0x0A]
  ∧ ∃ b r σ',
      (let* b := Builder.reset this in
       let* r := Builder.build b in ret (b, r)) σ = (Normal (b, r), σ')
      ∧ σ' !! r = Some [0x1B; 0x40]
      ∧ σ' !! data b = Some [0x1B; 0x40]
      ∧ data b ≠ data this
      ∧ σ' !! data this = Some [0x1B; 0x40; 0x41; 0x0A].
Proof.
  split; [reflexivity|].
  exact (proj1 (reset_discards_buffer {| data := 1%positive |}
                  {[ 1%positive := [0x1B; 0x40; 0x41; 0x0A] ]}
                  [0x1B; 0x40; 0x41; 0x0A] eq_refl)).
Defined.

End BuilderComposition.

Section BuilderCompositionWitnesses.

Local Existing Instance example_engine.

Lemma buffer_only_grows_witness :
  let this := {| data := 1%positive |} in
  let σ : Store := {[ 1%positive := [0x1B; 0x40] ]} in
  let ops := [op_line (Some (js "a")); op_drawLine None (Some (-1));
              op_build; op_cut None] in
  (σ !! data this = Some [0x1B; 0x40] ∧ Forall (λ o, o ≠ op_reset) ops)
  ∧ (script ops this σ).1 = this
  ∧ ∃ more, (script ops this σ).2 !! data this
            = Some ([0x1B; 0x40] ++ more).
Proof.
  assert (H : Forall (λ o, o ≠ op_reset)
                [op_line (Some (js "a")); op_drawLine None (Some (-1));
                 op_build; op_cut None])
    by (repeat constructor; discriminate).
  split; [split; [reflexivity | exact H]|].
  exact (buffer_only_grows _ {| data := 1%positive |}
           {[ 1%positive := [0x1B; 0x40] ]} [0x1B; 0x40] eq_refl H).
Defined.

End BuilderCompositionWitnesses.

Section BuilderBytes.

Context {engine : Engine}.

Implicit Types (this : ESCPOSBuilder) (σ : Store) (buf : list Z).

(** X4. [text(t)] pushes the UTF-8 encoding of [t], all of it in one call of
    [push]: when the bytes are no more than the engine takes as arguments,
    they are appended to the buffer and [build()] hands them out unchanged;
    when they are more, [text] throws a [RangeError] and pushes nothing.
    For a string of 16-bit code units the bytes are UTF-8 as RFC 3629 has
    it: they are bytes, they read back as the characters of the string
    (a surrogate pair as one character, a lone surrogate as U+FFFD), and
    they are at least one and at most three per code unit. The string
    "H", "é", "€", U+1F600 gives 48, C3 A9, E2 82 AC, F0 9F 98 80. *)
Theorem text_pushes_utf8_bytes this t σ buf :
  σ !! data this = Some buf →
  well_formed t →
  (fits t →
   Builder.text this t σ
   = (Normal this, <[data this := buf ++ utf8_encode t]> σ)
   ∧ (let* b := Builder.text this t in Builder.build b) σ
     = (Normal (fresh (dom σ)),
        <[fresh (dom σ) := map ToUint8 buf ++ utf8_encode t]>
          (<[data this := buf ++ utf8_encode t]> σ)))
  ∧ (¬ fits t →
     Builder.text this t σ
     = (Throw (RangeError message_too_many_arguments), σ))
  ∧ Forall is_byte (utf8_encode t)
  ∧ utf8_decode (utf8_encode t) = Some (code_points t)
  ∧ (length t <= length (utf8_encode t) <= 3 * length t)%nat
  ∧ utf8_encode [0x48; 0xE9; 0x20AC; 0xD83D; 0xDE00]
    = [0x48; 0xC3; 0xA9; 0xE2; 0x82; 0xAC; 0xF0; 0x9F; 0x98; 0x80]
  ∧ code_points [0x48; 0xE9; 0x20AC; 0xD83D; 0xDE00]
    = [0x48; 0xE9; 0x20AC; 0x1F600].
Proof.
  intros H Hwf.
  destruct (utf8_encode_well_formed t Hwf) as (Hb & _ & Hl).
  split; [|split; [by apply text_throws|]].
  - intros Hfit. split; [by apply text_appends|].
    unfold bind. rewrite (text_appends _ _ _ _ H Hfit).
    erewrite build_copies by apply lookup_insert_eq.
    rewrite map_app, (ToUint8_bytes _ Hb).
    assert (Hdom : dom (<[data this := buf ++ utf8_encode t]> σ) = dom σ).
    { apply dom_insert_lookup_L. by exists buf. }
    by rewrite Hdom.
  - split; [done|]. split; [by apply utf8_decode_encode|].
    split; [done|]. split; reflexivity.
Qed.

(** X5. Two calls of [text] push what one call with the joined string pushes,
    provided the second string does not start with a low surrogate and the
    joined string fits in one call of [push]. When the two strings fit but
    the joined string does not, the two calls push their bytes and the one
    call throws and pushes nothing. When the first string does not fit,
    both throw and push nothing; when the first fits and the second does
    not, the two calls throw after the first string was pushed, and the one
    call throws and pushes nothing. A string cut between the two halves of a
    surrogate pair is not covered, and there the outputs differ: U+1F600 in
    one piece gives four bytes, cut in two it gives two replacement
    characters. *)
Theorem text_of_joined_strings this a b σ buf :
  σ !! data this = Some buf →
  (∀ d b', b = d :: b' → is_low_surrogate d = false) →
  (fits (a ++ b) →
   (let* x := Builder.text this a in Builder.text x b) σ
   = Builder.text this (a ++ b) σ
   ∧ Builder.text this (a ++ b) σ
     = (Normal this, <[data this := buf ++ utf8_encode a ++ utf8_encode b]> σ))
  ∧ (fits a → fits b → ¬ fits (a ++ b) →
     (let* x := Builder.text this a in Builder.text x b) σ
     = (Normal this, <[data this := buf ++ utf8_encode a ++ utf8_encode b]> σ)
     ∧ Builder.text this (a ++ b) σ
       = (Throw (RangeError message_too_many_arguments), σ))
  ∧ (¬ fits a →
     (let* x := Builder.text this a in Builder.text x b) σ
     = (Throw (RangeError message_too_many_arguments), σ)
     ∧ Builder.text this (a ++ b) σ
       = (Throw (RangeError message_too_many_arguments), σ))
  ∧ (fits a → ¬ fits b →
     (let* x := Builder.text this a in Builder.text x b) σ
     = (Throw (RangeError message_too_many_arguments),
        <[data this := buf ++ utf8_encode a]> σ)
     ∧ Builder.text this (a ++ b) σ
       = (Throw (RangeError message_too_many_arguments), σ))
  ∧ utf8_encode [0xD83D; 0xDE00] = [0xF0; 0x9F; 0x98; 0x80]
  ∧ utf8_encode [0xD83D] ++ utf8_encode [0xDE00]
    = [0xEF; 0xBF; 0xBD; 0xEF; 0xBF; 0xBD].
Proof.
  intros H Hb.
  assert (Htwo : fits a → fits b →
            (let* x := Builder.text this a in Builder.text x b) σ
            = (Normal this,
               <[data this := buf ++ utf8_encode a ++ utf8_encode b]> σ)).
  { intros Ha Hfb. unfold bind. rewrite (text_appends _ _ _ _ H Ha).
    rewrite (text_appends _ _ _ (buf ++ utf8_encode a))
      by first [apply lookup_insert_eq | done].
    by rewrite insert_insert_eq, <- app_assoc. }
  assert (Hlen : length (utf8_encode (a ++ b))
                 = (length (utf8_encode a) + length (utf8_encode b))%nat).
  { by rewrite utf8_encode_app, length_app by done. }
  split; [|split; [|split; [|split; [|split; reflexivity]]]].
  - intros Hfit.
    assert (Hparts : fits a ∧ fits b).
    { unfold fits in *. rewrite Hlen in Hfit. lia. }
    destruct Hparts as [Ha Hfb].
    rewrite (text_appends _ _ _ _ H Hfit), utf8_encode_app by done.
    split; [by apply Htwo | done].
  - intros Ha Hfb Hfit. split; [by apply Htwo | by apply text_throws].
  - intros Ha.
    assert (Hfit : ¬ fits (a ++ b)).
    { unfold fits in *. rewrite Hlen. lia. }
    split; [|by apply text_throws].
    unfold bind. by rewrite text_throws.
  - intros Ha Hfb.
    assert (Hfit : ¬ fits (a ++ b)).
    { unfold fits in *. rewrite Hlen. lia. }
    split; [|by apply text_throws].
    unfold bind. rewrite (text_appends _ _ _ _ H Ha).
    by rewrite text_throws.
Qed.

(** X6. [build()] returns as many elements as the buffer holds, each one the
    buffer's element modulo 256 and hence a byte; a buffer of bytes is
    returned as it is. A number out of range that was pushed (a barcode
    height of 306, say) comes out wrapped, without an error. *)
Theorem build_wraps_to_bytes this σ buf :
  σ !! data this = Some buf →
  ∃ r σ' out,
    Builder.build this σ = (Normal r, σ')
    ∧ σ' !! r = Some out
    ∧ length out = length buf
    ∧ Forall is_byte out
    ∧ (∀ i x, buf !! i = Some x → out !! i = Some (x mod 256))
    ∧ (Forall is_byte buf → out = buf).
Proof.
  intros H. eexists _, _, (map ToUint8 buf).
  split; [by apply build_copies|]. split; [apply lookup_insert_eq|].
  split; [apply length_map|]. split.
  - apply List.Forall_map, Forall_forall. intros x _. apply ToUint8_is_byte.
  - split; [|apply ToUint8_bytes].
    intros i x Hi. change (map ToUint8 buf) with (ToUint8 <$> buf).
    by rewrite list_lookup_fmap, Hi.
Qed.

(** X7. [barcode(d, h)] checks nothing: it pushes the three settings, then
    the UTF-8 bytes of [d] in one call of [push], then a closing [0x00].
    When [d] holds no NUL character, its bytes hold no [0x00], so that the
    closing byte is the first zero after the settings. When the bytes of
    [d] are more than the engine takes as arguments, [barcode] throws a
    [RangeError] after the settings were pushed: neither data nor closing
    byte follow them. *)
Theorem barcode_is_null_terminated this d h σ buf :
  σ !! data this = Some buf →
  well_formed d → ¬ In 0 d →
  (fits d →
   Builder.barcode this d h σ
   = (Normal this,
      <[data this :=
          buf ++ [0x1D; 0x68; default 50 h; 0x1D; 0x77; 0x02; 0x1D; 0x6B; 0x04]
              ++ utf8_encode d ++ [0x00]]> σ))
  ∧ (¬ fits d →
     Builder.barcode this d h σ
     = (Throw (RangeError message_too_many_arguments),
        <[data this :=
            buf ++ [0x1D; 0x68; default 50 h; 0x1D; 0x77; 0x02;
                    0x1D; 0x6B; 0x04]]> σ))
  ∧ Forall is_byte (utf8_encode d)
  ∧ ¬ In 0 (utf8_encode d).
Proof.
  intros H Hwf Hno.
  destruct (utf8_encode_well_formed d Hwf) as (Hb & Hz & _).
  split; [|split; [|by auto]].
  - intros Hfit. by rewrite (barcode_appends _ _ _ _ _ H Hfit).
  - intros Hfit. by rewrite (barcode_throws _ _ _ _ _ H Hfit).
Qed.

(** X8. For data of [len] UTF-8 bytes with [len mod 256 < 253] and
    [len + 3 < 65536], the store-data frame of [qrCode] carries two length
    bytes [pL] and [pH] with [pL + 256 * pH = len + 3]. *)
Theorem qrCode_length_field this d size σ buf :
  let len := Z.of_nat (length (utf8_encode d)) in
  σ !! data this = Some buf →
  len mod 256 < 253 → len + 3 < 65536 →
  ∃ pL pH,
    Builder.qrCode this d size σ
    = (Normal this,
       <[data this :=
           buf ++ [0x1D; 0x28; 0x6B; 0x04; 0x00; 0x31; 0x41; 0x32; 0x00]
               ++ [0x1D; 0x28; 0x6B; 0x03; 0x00; 0x31; 0x43; default 6 size]
               ++ [0x1D; 0x28; 0x6B; 0x03; 0x00; 0x31; 0x45; 0x30]
               ++ [0x1D; 0x28; 0x6B; pL; pH; 0x31; 0x50; 0x30]
               ++ utf8_encode d
               ++ [0x1D; 0x28; 0x6B; 0x03; 0x00; 0x31; 0x51; 0x30]]> σ)
    ∧ is_byte pL ∧ is_byte pH
    ∧ pL + 256 * pH = len + 3.
Proof.
  intros len H Hsmall Hmax. fold len in Hsmall.
  exists (len mod 256 + 3), (len / 256).
  assert (0 <= len) by (unfold len; lia).
  assert (Hfit : fits d) by (apply fits_short; fold len; lia).
  split; [by rewrite (qrCode_appends _ _ _ _ _ H Hfit)|].
  pose proof (Z.mod_pos_bound len 256 ltac:(lia)).
  pose proof (Z.div_mod len 256 ltac:(lia)).
  assert (0 <= len / 256) by (apply Z.div_pos; lia).
  assert (len / 256 < 256) by (apply Z.div_lt_upper_bound; lia).
  unfold is_byte. lia.
Qed.

Lemma concat_repeat_singleton (ch : Z) n :
  List.concat (List.repeat [ch] n) = List.repeat ch n.
Proof. induction n as [|n IH]; [reflexivity|]. cbn. by rewrite IH. Qed.

Lemma utf8_encode_repeat_ascii ch n :
  0 <= ch < 128 → utf8_encode (List.repeat ch n) = List.repeat ch n.
Proof.
  intros Hch. apply utf8_encode_ascii, Forall_forall. intros x Hx.
  apply list_elem_of_In, repeat_spec in Hx. by subst.
Qed.

(** X9. [drawLine(char, length)] with a negative length throws the
    [RangeError] of [repeat] before anything is pushed. With an ASCII
    character and a length [n >= 0] that is no more than the engine takes
    as arguments, it pushes that character [n] times and a line feed,
    [n + 1] bytes in all ([n = 0] gives an empty line). With a larger [n]
    it throws a [RangeError] and pushes nothing: that of [repeat] when the
    line is longer than a string can be, that of [push] otherwise. *)
Theorem drawLine_length this ch n σ buf :
  σ !! data this = Some buf →
  0 <= ch < 128 →
  (n < 0 →
   Builder.drawLine this (Some [ch]) (Some n) σ
   = (Throw (RangeError (message_invalid_count n)), σ))
  ∧ (0 <= n <= max_arguments →
     Builder.drawLine this (Some [ch]) (Some n) σ
     = (Normal this,
        <[data this := buf ++ List.repeat ch (Z.to_nat n) ++ [0x0A]]> σ)
     ∧ Z.of_nat (length (List.repeat ch (Z.to_nat n) ++ [0x0A])) = n + 1)
  ∧ (max_arguments < n →
     Builder.drawLine this (Some [ch]) (Some n) σ
     = (Throw
          (RangeError
             (if max_string_length <? n
              then message_invalid_string_length
              else message_too_many_arguments)), σ)).
Proof.
  intros H Hch.
  assert (Hlen : ∀ k, 0 <= k →
            Z.of_nat
              (length (utf8_encode (List.concat (List.repeat [ch] (Z.to_nat k)))))
            = k).
  { intros k Hk.
    rewrite concat_repeat_singleton, utf8_encode_repeat_ascii by done.
    rewrite repeat_length. lia. }
  split; [|split].
  - intros Hn. by apply drawLine_throws.
  - intros Hn. split.
    + rewrite (drawLine_appends _ _ _ _ _ H).
      * change (default (js "-") (Some [ch])) with [ch].
        change (default 32 (Some n)) with n.
        by rewrite concat_repeat_singleton, utf8_encode_repeat_ascii.
      * change (default 32 (Some n)) with n. lia.
      * unfold fits. change (default (js "-") (Some [ch])) with [ch].
        change (default 32 (Some n)) with n. rewrite Hlen; lia.
    + rewrite length_app, repeat_length. cbn [length]. lia.
  - intros Hn. pose proof max_arguments_floor.
    rewrite drawLine_too_long.
    + change (default (js "-") (Some [ch])) with [ch].
      change (default 32 (Some n)) with n. cbn [length].
      by replace (Z.of_nat 1 * n) with n by lia.
    + change (default 32 (Some n)) with n. lia.
    + unfold fits. change (default (js "-") (Some [ch])) with [ch].
      change (default 32 (Some n)) with n. rewrite Hlen; lia.
Qed.

End BuilderBytes.

Section BuilderBytesWitnesses.

Local Existing Instance example_engine.

Lemma text_pushes_utf8_bytes_witness :
  let this := {| data := 1%positive |} in
  let σ : Store := {[ 1%positive := [0x1B; 0x40] ]} in
  let t := [0x48; 0xE9; 0x20AC; 0xD83D; 0xDE00] in
  (σ !! data this = Some [0x1B; 0x40] ∧ well_formed t)
  ∧ Builder.text this t σ
    = (Normal this, <[data this := [0x1B; 0x40] ++ utf8_encode t]> σ).
Proof.
  assert (Hwf : well_formed [0x48; 0xE9; 0x20AC; 0xD83D; 0xDE00])
    by (repeat constructor; lia).
  assert (Hfit : fits [0x48; 0xE9; 0x20AC; 0xD83D; 0xDE00])
    by (by apply fits_literal).
  split; [split; [reflexivity | exact Hwf]|].
  exact (proj1 (proj1 (text_pushes_utf8_bytes {| data := 1%positive |}
                         [0x48; 0xE9; 0x20AC; 0xD83D; 0xDE00]
                         {[ 1%positive := [0x1B; 0x40] ]} [0x1B; 0x40]
                         eq_refl Hwf) Hfit)).
Defined.

Lemma text_of_joined_strings_witness :
  let this := {| data := 1%positive |} in
  let σ : Store := {[ 1%positive := [0x1B; 0x40] ]} in
  (σ !! data this = Some [0x1B; 0x40]
   ∧ ∀ d b', js "lo" = d :: b' → is_low_surrogate d = false)
  ∧ (let* x := Builder.text this (js "Hel") in Builder.text x (js "lo")) σ
    = Builder.text this (js "Hel" ++ js "lo") σ.
Proof.
  assert (H : ∀ d b', js "lo" = d :: b' → is_low_surrogate d = false)
    by (intros d b' [= <- _]; reflexivity).
  assert (Hfit : fits (js "Hel" ++ js "lo")) by (by apply fits_literal).
  split; [split; [reflexivity | exact H]|].
  exact (proj1 (proj1 (text_of_joined_strings {| data := 1%positive |}
                         (js "Hel") (js "lo")
                         {[ 1%positive := [0x1B; 0x40] ]} [0x1B; 0x40]
                         eq_refl H) Hfit)).
Defined.

Lemma build_wraps_to_bytes_witness :
  let this := {| data := 1%positive |} in
  let σ : Store := {[ 1%positive := [0x1B; 0x40; 0x1D; 0x68; 306] ]} in
  σ !! data this = Some [0x1B; 0x40; 0x1D; 0x68; 306]
  ∧ ∃ r σ' out,
      Builder.build this σ = (Normal r, σ')
      ∧ σ' !! r = Some out
      ∧ length out = length [0x1B; 0x40; 0x1D; 0x68; 306]
      ∧ Forall is_byte out
      ∧ (∀ i x, [0x1B; 0x40; 0x1D; 0x68; 306] !! i = Some x →
                out !! i = Some (x mod 256))
      ∧ (Forall is_byte [0x1B; 0x40; 0x1D; 0x68; 306] →
         out = [0x1B; 0x40; 0x1D; 0x68; 306]).
Proof.
  split; [reflexivity|].
  exact (build_wraps_to_bytes {| data := 1%positive |}
           {[ 1%positive := [0x1B; 0x40; 0x1D; 0x68; 306] ]}
           [0x1B; 0x40; 0x1D; 0x68; 306] eq_refl).
Defined.

Lemma barcode_is_null_terminated_witness :
  let this := {| data := 1%positive |} in
  let σ : Store := {[ 1%positive := [0x1B; 0x40] ]} in
  (σ !! data this = Some [0x1B; 0x40]
   ∧ well_formed (js "AB-12") ∧ ¬ In 0 (js "AB-12"))
  ∧ Builder.barcode this (js "AB-12") None σ
    = (Normal this,
       <[data this :=
           [0x1B; 0x40]
             ++ [0x1D; 0x68; default 50 None; 0x1D; 0x77; 0x02;
                 0x1D; 0x6B; 0x04]
             ++ utf8_encode (js "AB-12") ++ [0x00]]> σ).
Proof.
  assert (Hwf : well_formed (js "AB-12")) by (repeat constructor; lia).
  assert (Hno : ¬ In 0 (js "AB-12")) by (cbn; intuition discriminate).
  assert (Hfit : fits (js "AB-12")) by (by apply fits_literal).
  split; [split; [reflexivity | by split]|].
  exact (proj1 (barcode_is_null_terminated {| data := 1%positive |}
                  (js "AB-12") None {[ 1%positive := [0x1B; 0x40] ]}
                  [0x1B; 0x40] eq_refl Hwf Hno) Hfit).
Defined.

Lemma qrCode_length_field_witness :
  let this := {| data := 1%positive |} in
  let σ : Store := {[ 1%positive := [0x1B; 0x40] ]} in
  let d := List.repeat 65 300 in
  (σ !! data this = Some [0x1B; 0x40]
   ∧ Z.of_nat (length (utf8_encode d)) mod 256 < 253
   ∧ Z.of_nat (length (utf8_encode d)) + 3 < 65536)
  ∧ ∃ pL pH,
      Builder.qrCode this d None σ
      = (Normal this,
         <[data this :=
             [0x1B; 0x40]
               ++ [0x1D; 0x28; 0x6B; 0x04; 0x00; 0x31; 0x41; 0x32; 0x00]
               ++ [0x1D; 0x28; 0x6B; 0x03; 0x00; 0x31; 0x43; default 6 None]
               ++ [0x1D; 0x28; 0x6B; 0x03; 0x00; 0x31; 0x45; 0x30]
               ++ [0x1D; 0x28; 0x6B; pL; pH; 0x31; 0x50; 0x30]
               ++ utf8_encode d
               ++ [0x1D; 0x28; 0x6B; 0x03; 0x00; 0x31; 0x51; 0x30]]> σ)
      ∧ is_byte pL ∧ is_byte pH
      ∧ pL + 256 * pH = Z.of_nat (length (utf8_encode d)) + 3.
Proof.
  assert (H1 : Z.of_nat (length (utf8_encode (List.repeat 65 300))) mod 256
               < 253) by (vm_compute; reflexivity).
  assert (H2 : Z.of_nat (length (utf8_encode (List.repeat 65 300))) + 3
               < 65536) by (vm_compute; reflexivity).
  split; [split; [reflexivity | by split]|].
  exact (qrCode_length_field {| data := 1%positive |} (List.repeat 65 300)
           None {[ 1%positive := [0x1B; 0x40] ]} [0x1B; 0x40] eq_refl H1 H2).
Defined.

Lemma drawLine_length_witness :
  let this := {| data := 1%positive |} in
  let σ : Store := {[ 1%positive := [0x1B; 0x40] ]} in
  (σ !! data this = Some [0x1B; 0x40] ∧ 0 <= 42 < 128)
  ∧ (-1 < 0 →
     Builder.drawLine this (Some [42]) (Some (-1)) σ
     = (Throw (RangeError (message_invalid_count (-1))), σ))
  ∧ message_invalid_count (-1) = js "Invalid count value: -1".
Proof.
  assert (H : 0 <= 42 < 128) by lia.
  split; [split; [reflexivity | exact H]|].
  split; [|reflexivity].
  exact (proj1 (drawLine_length {| data := 1%positive |} 42 (-1)
                  {[ 1%positive := [0x1B; 0x40] ]} [0x1B; 0x40] eq_refl H)).
Defined.

End BuilderBytesWitnesses.

(* ===================================================================== *)
(** * More about the receipt *)
(* ===================================================================== *)

Section ReceiptShape.

Context {engine : Engine}.

Variable general : float → jsstring.
Variable now : jsstring.

Lemma item_lines_count items :
  length (flat_map (item_lines general) items) = (2 * length items)%nat.
Proof.
  induction items as [|item items IH]; [reflexivity|].
  cbn [flat_map length]. rewrite length_app, IH. cbn [item_lines length]. lia.
Qed.

Lemma receipt_lines_count storeName items tax payment :
  length (receipt_lines general now storeName items tax payment)
  = (15 + 2 * length items + if (0 <? tax)%float then 1 else 0)%nat.
Proof.
  unfold receipt_lines, tax_lines. rewrite !length_app, item_lines_count.
  destruct (0 <? tax)%float; cbn [length]; lia.
Qed.

Lemma receipt_lines_end storeName items tax payment :
  ∃ front,
    receipt_lines general now storeName items tax payment
    = front ++ [[]; []; []].
Proof.
  unfold receipt_lines.
  match goal with
  | |- ∃ front,
         ?A ++ ?B ++ ?C ++ ?T ++ [?l1; ?l2; ?l3; ?l4; ?l5; ?l6; []; []; []]
         = _ =>
      exists (A ++ B ++ C ++ T ++ [l1; l2; l3; l4; l5; l6])
  end.
  rewrite <- !app_assoc. reflexivity.
Qed.

Lemma join_lines_app a b : join_lines (a ++ b) = join_lines a ++ join_lines b.
Proof. apply flat_map_app. Qed.

(** X10. [buildReceipt] returns, with a new array, exactly when every text
    of the receipt fits in one call of [push]; when one does not, it throws
    a [RangeError]. When it returns it has allocated its buffer and the
    returned array, two locations that were not in use; when it throws it
    has allocated its buffer only. Either way every array that was in the
    store is as it was. With a store name that does not fit, the error is
    that of [push], thrown when the buffer holds the initialize, centre,
    double size and bold commands and nothing else. *)
Theorem buildReceipt_allocates_only storeName items tax payment (σ : Store) :
  (receipt_fits general now storeName items (default 0%float tax)
     (default (js "CASH") payment) →
   ∃ d r σ',
     buildReceipt general now storeName items tax payment σ = (Normal r, σ')
     ∧ σ !! d = None ∧ σ !! r = None ∧ d ≠ r
     ∧ dom σ' = {[d; r]} ∪ dom σ)
  ∧ (¬ receipt_fits general now storeName items (default 0%float tax)
         (default (js "CASH") payment) →
     ∃ msg d σ',
       buildReceipt general now storeName items tax payment σ
       = (Throw (RangeError msg), σ')
       ∧ σ !! d = None
       ∧ dom σ' = {[d]} ∪ dom σ)
  ∧ (∀ l v,
       σ !! l = Some v →
       (buildReceipt general now storeName items tax payment σ).2 !! l
       = Some v)
  ∧ (¬ fits storeName →
     buildReceipt general now storeName items tax payment σ
     = (Throw (RangeError message_too_many_arguments),
        <[fresh (dom σ) :=
            [0x1B; 0x40; 0x1B; 0x61; 0x01; 0x1B; 0x21; 0x30;
             0x1B; 0x45; 0x01]]> σ)).
Proof.
  set (d := fresh (dom σ)).
  assert (Hd : σ !! d = None) by apply not_elem_of_dom, is_fresh.
  assert (Hreturns :
    receipt_fits general now storeName items (default 0%float tax)
      (default (js "CASH") payment) →
    ∃ content,
      buildReceipt general now storeName items tax payment σ
      = (Normal (fresh (dom (<[d := content]> σ))),
         <[fresh (dom (<[d := content]> σ)) := map ToUint8 content]>
           (<[d := content]> σ))).
  { intros Hfit. eexists.
    apply (buildReceipt_layout general now storeName items tax payment σ Hfit). }
  assert (Hthrows :
    ¬ receipt_fits general now storeName items (default 0%float tax)
        (default (js "CASH") payment) →
    ∃ msg partial,
      buildReceipt general now storeName items tax payment σ
      = (Throw (RangeError msg), <[d := partial]> σ))
    by apply buildReceipt_throws.
  assert (Hdec :
    receipt_fits general now storeName items (default 0%float tax)
      (default (js "CASH") payment)
    ∨ ¬ receipt_fits general now storeName items (default 0%float tax)
          (default (js "CASH") payment)) by apply Forall_fits_dec.
  split; [|split; [|split]].
  - intros Hfit. destruct (Hreturns Hfit) as [content Hrun].
    set (σ1 := <[d := content]> σ) in *.
    set (r := fresh (dom σ1)) in *.
    assert (Hr1 : σ1 !! r = None) by apply not_elem_of_dom, is_fresh.
    assert (Hdr : d ≠ r).
    { intros E. rewrite <- E in Hr1. unfold σ1 in Hr1.
      by rewrite lookup_insert_eq in Hr1. }
    exists d, r, (<[r := map ToUint8 content]> σ1).
    split; [exact Hrun|]. split; [done|]. split.
    { unfold σ1 in Hr1. by rewrite lookup_insert_ne in Hr1. }
    split; [done|].
    unfold σ1. rewrite !dom_insert_L. apply set_eq. intros x.
    rewrite !elem_of_union, !elem_of_singleton. tauto.
  - intros Hfit. destruct (Hthrows Hfit) as (msg & partial & Hrun).
    exists msg, d, (<[d := partial]> σ).
    split; [exact Hrun|]. split; [done|]. by rewrite dom_insert_L.
  - intros l v Hl.
    assert (l ≠ d) by (intros ->; congruence).
    destruct Hdec as [Hfit|Hfit].
    + destruct (Hreturns Hfit) as [content ->]. cbn [snd].
      assert (H1 : (<[d := content]> σ) !! l = Some v)
        by (by rewrite lookup_insert_ne).
      rewrite lookup_insert_ne; [done|].
      intros E. pose proof (is_fresh (dom (<[d := content]> σ))) as Hf.
      apply not_elem_of_dom in Hf. congruence.
    + destruct (Hthrows Hfit) as (msg & partial & ->). cbn [snd].
      by rewrite lookup_insert_ne.
  - intros Hstore. unfold buildReceipt. cbv zeta. unfold bind at 1.
    rewrite new_initialized. fold d. cbv beta iota.
    do 3 step_builder. unfold bind at 1.
    by rewrite line_throws by done.
Qed.

(** X11. Every receipt whose texts fit is an array of bytes that starts with
    the initialize command followed by centre alignment, double size and
    bold, and ends with three line feeds and the full cut. *)
Theorem buildReceipt_begins_and_ends storeName items tax payment σ :
  receipt_fits general now storeName items (default 0%float tax)
    (default (js "CASH") payment) →
  ∃ out,
    built (buildReceipt general now storeName items tax payment) σ = Some out
    ∧ Forall is_byte out
    ∧ [0x1B; 0x40; 0x1B; 0x61; 0x01; 0x1B; 0x21; 0x30; 0x1B; 0x45; 0x01]
        `prefix_of` out
    ∧ [0x0A; 0x0A; 0x0A; 0x1D; 0x56; 0x00] `suffix_of` out.
Proof.
  intros Hfit.
  eexists. split; [by apply built_buildReceipt|]. split; [|split].
  - apply List.Forall_map, Forall_forall. intros x _. apply ToUint8_is_byte.
  - unfold receipt_data, receipt_lines. eexists. reflexivity.
  - unfold receipt_data.
    destruct (receipt_lines_end storeName items (default 0%float tax)
                (default (js "CASH") payment)) as [front ->].
    rewrite join_lines_app, !map_app.
    exists (map ToUint8 (join_lines front)). by rewrite <- app_assoc.
Qed.

(** X12. When the texts that go into a receipt hold no line feed and fit, the
    receipt has 15 line feeds, two more for every item and one more when
    [tax > 0]: cut at the line feeds, it falls into that many lines and the
    cut command after the last one. *)
Theorem buildReceipt_line_count storeName items tax payment σ :
  single_line storeName → single_line now →
  single_line (default (js "CASH") payment) →
  Forall (λ item, single_line (name item)) items →
  (∀ x, single_line (general x)) →
  receipt_fits general now storeName items (default 0%float tax)
    (default (js "CASH") payment) →
  ∃ out,
    built (buildReceipt general now storeName items tax payment) σ = Some out
    ∧ length (lines_of out)
      = (16 + 2 * length items
         + if (0 <? default 0 tax)%float then 1 else 0)%nat
    ∧ last (lines_of out) = Some [0x1D; 0x56; 0x00].
Proof.
  intros Hstore Hnow Hpay Hitems Hgeneral Hfit.
  eexists. split; [by apply built_buildReceipt|].
  unfold receipt_data.
  assert (Hok : Forall line_ok
                  (receipt_lines general now storeName items
                     (default 0%float tax) (default (js "CASH") payment)))
    by by apply receipt_lines_ok.
  rewrite map_app, map_join_lines, lines_of_join.
  - split; [|by rewrite last_snoc].
    rewrite length_app, length_map, receipt_lines_count. cbn [length]. lia.
  - by apply List.Forall_map.
  - by apply (line_ok_bytes receipt_trailer).
Qed.

End ReceiptShape.

Section ReceiptShapeWitnesses.

Local Existing Instance example_engine.

Lemma buildReceipt_begins_and_ends_witness :
  let general := λ _ : float, js "NaN" in
  let now := js "11/2/2026, 9:14:00 AM" in
  let items := [ {| name := js "A"; quantity := 2; price := 10 |} ] in
  receipt_fits general now (js "Shop") items (default 0%float None)
    (default (js "CASH") None)
  ∧ ∃ out,
      built (buildReceipt general now (js "Shop") items None None) ∅
      = Some out
      ∧ Forall is_byte out
      ∧ [0x1B; 0x40; 0x1B; 0x61; 0x01; 0x1B; 0x21; 0x30; 0x1B; 0x45; 0x01]
          `prefix_of` out
      ∧ [0x0A; 0x0A; 0x0A; 0x1D; 0x56; 0x00] `suffix_of` out.
Proof.
  assert (Hfit :
    receipt_fits (λ _, js "NaN") (js "11/2/2026, 9:14:00 AM") (js "Shop")
      [ {| name := js "A"; quantity := 2; price := 10 |} ]
      (default 0%float None) (default (js "CASH") None))
    by (apply example_receipt_fits; by vm_compute).
  split; [exact Hfit|].
  exact (buildReceipt_begins_and_ends (λ _, js "NaN")
           (js "11/2/2026, 9:14:00 AM") (js "Shop")
           [ {| name := js "A"; quantity := 2; price := 10 |} ]
           None None ∅ Hfit).
Defined.

Lemma buildReceipt_line_count_witness :
  let general := λ _ : float, js "NaN" in
  let now := js "11/2/2026, 9:14:00 AM" in
  let items := [ {| name := js "A"; quantity := 2; price := 10 |};
                 {| name := js "B"; quantity := 1; price := 0.5 |} ] in
  (single_line (js "Shop") ∧ single_line now
   ∧ single_line (default (js "CASH") None)
   ∧ Forall (λ item, single_line (name item)) items
   ∧ (∀ x, single_line (general x))
   ∧ receipt_fits general now (js "Shop") items
       (default 0%float (Some 2.5%float)) (default (js "CASH") None))
  ∧ ∃ out,
      built (buildReceipt general now (js "Shop") items (Some 2.5%float) None)
        ∅ = Some out
      ∧ length (lines_of out)
        = (16 + 2 * length items
           + if (0 <? default 0 (Some 2.5))%float then 1 else 0)%nat
      ∧ last (lines_of out) = Some [0x1D; 0x56; 0x00].
Proof.
  assert (H : ∀ s, printableb s = true → single_line s)
    by (intros s Hs; by apply single_line_printable, printableb_spec).
  assert (Hall :
    single_line (js "Shop") ∧ single_line (js "11/2/2026, 9:14:00 AM")
    ∧ single_line (default (js "CASH") None)
    ∧ Forall (λ item, single_line (name item))
        [ {| name := js "A"; quantity := 2; price := 10 |};
          {| name := js "B"; quantity := 1; price := 0.5 |} ]
    ∧ (∀ x : float, single_line ((λ _ : float, js "NaN") x))
    ∧ receipt_fits (λ _, js "NaN") (js "11/2/2026, 9:14:00 AM") (js "Shop")
        [ {| name := js "A"; quantity := 2; price := 10 |};
          {| name := js "B"; quantity := 1; price := 0.5 |} ]
        (default 0%float (Some 2.5%float)) (default (js "CASH") None)).
  { split; [by apply H|]. split; [by apply H|]. split; [by apply H|].
    split; [repeat constructor; by apply H|].
    split; [intros x; by apply H|].
    apply example_receipt_fits. by vm_compute. }
  split; [exact Hall|].
  destruct Hall as (H1 & H2 & H3 & H4 & H5 & H6).
  exact (buildReceipt_line_count (λ _, js "NaN")
           (js "11/2/2026, 9:14:00 AM") (js "Shop")
           [ {| name := js "A"; quantity := 2; price := 10 |};
             {| name := js "B"; quantity := 1; price := 0.5 |} ]
           (Some 2.5%float) None ∅ H1 H2 H3 H4 H5 H6).
Defined.

End ReceiptShapeWitnesses.


Section LongTexts.

Local Existing Instance example_engine.

Lemma fits_repeat_ascii `{!Engine} ch n :
  0 <= ch < 128 → fits (List.repeat ch n) ↔ Z.of_nat n <= max_arguments.
Proof.
  intros Hch. unfold fits.
  by rewrite utf8_encode_repeat_ascii, repeat_length.
Qed.

(** With the engine of the examples, a text of 100 000 bytes is pushed and
    one of 200 000 bytes is not: [text] throws, and so does [buildReceipt]
    for a store name of that length. *)
Example text_of_200000_bytes :
  let this := {| data := 1%positive |} in
  let σ : Store := {[ 1%positive := [0x1B; 0x40] ]} in
  Builder.text this (List.repeat 120 (Z.to_nat 100000)) σ
  = (Normal this,
     <[data this := [0x1B; 0x40] ++ List.repeat 120 (Z.to_nat 100000)]> σ)
  ∧ Builder.text this (List.repeat 120 (Z.to_nat 200000)) σ
    = (Throw (RangeError (js "Maximum call stack size exceeded")), σ)
  ∧ (buildReceipt (λ _, js "NaN") (js "11/2/2026, 9:14:00 AM")
       (List.repeat 120 (Z.to_nat 200000)) [] None None ∅).1
    = Throw (RangeError (js "Maximum call stack size exceeded")).
Proof.
  intros this σ.
  assert (Hfit : fits (List.repeat 120 (Z.to_nat 100000))).
  { apply fits_repeat_ascii; [lia|]. rewrite Z2Nat.id by lia. cbn. lia. }
  assert (Hlong : ¬ fits (List.repeat 120 (Z.to_nat 200000))).
  { rewrite fits_repeat_ascii by lia. rewrite Z2Nat.id by lia. cbn. lia. }
  split; [|split].
  - rewrite (text_appends this _ σ [0x1B; 0x40]) by done.
    by rewrite utf8_encode_repeat_ascii by lia.
  - by rewrite text_throws.
  - unfold buildReceipt. cbv zeta. unfold bind at 1.
    rewrite new_initialized. cbv beta iota.
    do 3 step_builder. unfold bind at 1.
    by rewrite line_throws by done.
Qed.

End LongTexts.
(* ===================================================================== *)
(** * More about the printer session *)
(* ===================================================================== *)

Section SessionFacts.

Import USB Printer.

Variable usb : Transport.

Ltac unfold_session :=
  cbv beta iota zeta delta
    [try_catch bind openAndClaim on_device call invoke ret device calls
     completion_map USB.status USB.bytesWritten].

Ltac split_session :=
  repeat (unfold_session;
  match goal with
  | |- context [do_open ?u ?d ?l] => destruct (do_open u d l) as [[[]|?] ?]
  | |- context [do_selectConfiguration ?u ?v ?d ?l] =>
      destruct (do_selectConfiguration u v d l) as [[[]|?] ?]
  | |- context [do_claimInterface ?u ?v ?d ?l] =>
      destruct (do_claimInterface u v d l) as [[[]|?] ?]
  | |- context [do_controlTransferOut ?u ?p ?b ?d ?l] =>
      destruct (do_controlTransferOut u p b d l) as [[?|?] ?]
  | |- context [do_transferOut ?u ?p ?b ?d ?l] =>
      destruct (do_transferOut u p b d l) as [[[? []]|?] ?]
  | |- context [if ?b then _ else _] => destruct b
  end); unfold_session.

Ltac solve_prefix :=
  first
    [ by apply prefix_nil
    | reflexivity
    | by eexists [_]
    | by eexists [_; _]
    | by eexists [_; _; _]
    | by eexists [_; _; _; _]
    | by eexists [_; _; _; _; _] ].

(** X14. With a device whose first configuration has no OUT endpoint (or that
    has no configuration), [print] returns
    [{success: false, error: "No OUT endpoint found"}] and makes no call on
    the device: it is not even opened. *)
Theorem print_without_endpoint dat s dev :
  device s = Some dev →
  findOutEndpoint dev = None →
  print usb dat s
  = (Normal {| success := false;
               bytesWritten := None;
               error := Some (js "No OUT endpoint found") |}, s).
Proof.
  intros Hdev Hnone. destruct s as [d log]. cbn in Hdev. subst d.
  cbn [print device]. by rewrite Hnone.
Qed.

(** X15. The calls [print] makes on a device with an OUT endpoint are an initial
    part of the plan: [open] (only when the device is not open),
    [selectConfiguration(1)] (at most once), [claimInterface],
    the priming control transfer and the bulk transfer of exactly the given
    bytes to the endpoint found, each at most once and in this order, and
    never [close]; the device stays connected. When no call other than the
    priming one throws, all of the plan is carried out and the outcome is
    that of the bulk transfer: success with the byte count the device
    reports, or the status as the error. *)
Theorem print_follows_plan dat s dev pe :
  device s = Some dev →
  findOutEndpoint dev = Some pe →
  ∃ o s' evs select,
    print usb dat s = (Normal o, s')
    ∧ calls s' = calls s ++ evs
    ∧ is_Some (device s')
    ∧ map fst evs `prefix_of` print_plan dev select pe dat
    ∧ ¬ In call_close (map fst evs)
    ∧ ((∀ c e, In (c, Throw e) evs → is_priming c = true) →
       map fst evs = print_plan dev select pe dat
       ∧ ∃ r, last evs
              = Some (call_transferOut (endpointNumber pe) dat,
                      Normal (reply_out r))
              ∧ o = transfer_outcome r).
Proof.
  intros Hdev Hpe. destruct s as [d log]. cbn in Hdev. subst d.
  cbn [print device calls]. rewrite Hpe. unfold print_plan.
  unfold_session. destruct (opened dev); cbn [negb].
  all: split_session.
  all: rewrite <- ?app_assoc; cbn [app].
  all: eexists _, _, _.
  all: first [ exists true; split; [reflexivity|]; split; [reflexivity|];
               split; [by eexists|]; split; [solve_prefix|]
             | exists false; split; [reflexivity|]; split; [reflexivity|];
               split; [by eexists|]; split; [solve_prefix|] ].
  all: split; [cbn; intuition discriminate|].
  all: intros Hthrows.
  all: try (exfalso;
            match goal with
            | H : ∀ c e, In (c, Throw e) ?l → _ |- _ =>
                match l with
                | context [(?c0, Throw ?e0)] =>
                    lazymatch c0 with
                    | call_controlTransferOut _ _ => fail
                    | _ =>
                        assert (Hbad : is_priming c0 = true)
                          by (apply (H c0 e0); cbn; tauto);
                        discriminate Hbad
                    end
                end
            end).
  all: split; [reflexivity|]; eexists; split; reflexivity.
Qed.

Ltac unfold_claim :=
  cbv beta iota zeta delta [openAndClaim call completion_map].

Ltac split_claim :=
  repeat (unfold_claim;
  match goal with
  | |- context [do_open ?u ?d ?l] => destruct (do_open u d l) as [[[]|?] ?]
  | |- context [do_selectConfiguration ?u ?v ?d ?l] =>
      destruct (do_selectConfiguration u v d l) as [[[]|?] ?]
  | |- context [do_claimInterface ?u ?v ?d ?l] =>
      destruct (do_claimInterface u v d l) as [[[]|?] ?]
  | |- context [if ?b then _ else _] => destruct b eqn:?
  end); unfold_claim.

(** X16. [openAndClaim(device, n)], for any device object it is handed,
    makes an initial part of the calls [open], [selectConfiguration(1)],
    [claimInterface(n)] on that object: it opens the device only when it is
    not open, and it selects configuration 1 exactly when, once the device
    is open, the value of its active configuration is not 1 and it has a
    first configuration. A device that is open with configuration 1 active
    is only claimed. A step that throws ends the call: it is the last call
    made and [openAndClaim] throws the same value. It returns normally
    exactly when [claimInterface] was called and returned, and then all the
    calls of the plan were made. Called with the device of the session, as
    [print] calls it, it leaves the session with the device as the calls
    left it and with the calls added to the record. *)
Theorem openAndClaim_steps dev n log :
  ∃ r dev' evs select,
    openAndClaim usb dev n log = (r, (dev', log ++ evs))
    ∧ map fst evs `prefix_of` claim_plan dev select n
    ∧ (opened dev = true →
       configurationValue <$> configuration dev = Some 1 →
       map fst evs = [call_claimInterface n])
    ∧ (r = Normal tt
       ↔ last evs = Some (call_claimInterface n, Normal reply_void))
    ∧ (∀ e, r = Throw e ↔ ∃ c, last evs = Some (c, Throw e))
    ∧ (∀ c e, In (c, Throw e) evs → last evs = Some (c, Throw e) ∧ r = Throw e)
    ∧ (r = Normal tt → map fst evs = claim_plan dev select n)
    ∧ ((∀ e, ¬ In (call_open, Throw e) evs) →
       select
       = needs_configuration
           (if opened dev then dev else (do_open usb dev log).2))
    ∧ (∀ s, device s = Some dev → calls s = log →
            on_device (λ device, openAndClaim usb device n) s
            = (r, {| device := Some dev'; calls := log ++ evs |})).
Proof.
  assert (Hlink : ∀ r dev' log',
            openAndClaim usb dev n log = (r, (dev', log')) →
            ∀ s, device s = Some dev → calls s = log →
                 on_device (λ device, openAndClaim usb device n) s
                 = (r, {| device := Some dev'; calls := log' |})).
  { intros r dev' log' Hrun [d l] Hd Hl. cbn in Hd, Hl. subst d l.
    unfold on_device. cbn [device calls]. by rewrite Hrun. }
  destruct (openAndClaim usb dev n log) as [r [dev' log']] eqn:Hrun.
  specialize (Hlink r dev' log' eq_refl).
  revert Hrun Hlink.
  unfold claim_plan, needs_configuration. unfold_claim.
  destruct (opened dev) eqn:Hop; cbn [negb].
  all: split_claim.
  all: rewrite <- ?app_assoc; cbn [app].
  all: intros [= <- <- <-] Hlink.
  all: eexists _, _, _.
  all: first [ exists true; split; [reflexivity|];
               split; [solve_prefix|];
               split; [|split; [|split; [|split; [|split; [|split; [
                 first [ intros _; cbn [snd]; congruence
                       | intros Hno; exfalso; eapply Hno; cbn; eauto ]
                 | exact Hlink ]]]]]]
             | exists false; split; [reflexivity|];
               split; [solve_prefix|];
               split; [|split; [|split; [|split; [|split; [|split; [
                 first [ intros _; cbn [snd]; congruence
                       | intros Hno; exfalso; eapply Hno; cbn; eauto ]
                 | exact Hlink ]]]]]] ].
  all: try (intros Hopen Hcfg; try discriminate;
      repeat match goal with
      | H : _ && _ = true |- _ => apply andb_true_iff in H as [H _]
      | H : negb _ = true |- _ => apply negb_true_iff in H
      | H : bool_decide _ = false |- _ => apply bool_decide_eq_false in H
      end; first [reflexivity | contradiction]).
  all: try (split; intros [=]; reflexivity || done).
  all: try (intros ex; split;
                [ intros [= <-]; by eexists
                | intros [cx [=]]; by subst ]).
  all: try (intros cx ex Hin; cbn in Hin;
            repeat (destruct Hin as [Heq|Hin];
                    [ try (inversion Heq; subst; clear Heq; by split) | ]);
            try contradiction).
  all: try (intros [=]).
  all: try (intros _; reflexivity).
Qed.

(** X17. [disconnect] calls [close] only on a device that is open. When [close]
    returns (or is not called), the session has no device afterwards: no
    device info, and [print] answers "No device connected". When [close]
    throws, [disconnect] throws the same value and the device stays
    connected. *)
Theorem disconnect_outcomes dat s :
  ∃ r s',
    disconnect usb s = (r, s')
    ∧ (calls s' = calls s
       ∨ ∃ dev rr,
           device s = Some dev ∧ opened dev = true
           ∧ calls s' = calls s ++ [(call_close, rr)])
    ∧ ((∀ dev, device s = Some dev → opened dev = false) →
       r = Normal tt ∧ calls s' = calls s)
    ∧ (r = Normal tt →
       device s' = None
       ∧ getDeviceInfo s' = None
       ∧ print usb dat s'
         = (Normal {| success := false;
                      bytesWritten := None;
                      error := Some (js "No device connected") |}, s'))
    ∧ (∀ e, r = Throw e →
            is_Some (device s')
            ∧ last (calls s') = Some (call_close, Throw e))
    ∧ (∀ dev e dev',
         device s = Some dev → opened dev = true →
         do_close usb dev (calls s) = (Throw e, dev') →
         r = Throw e
         ∧ s' = {| device := Some dev';
                   calls := calls s ++ [(call_close, Throw e)] |})
    ∧ (∀ dev dev',
         device s = Some dev → opened dev = true →
         do_close usb dev (calls s) = (Normal tt, dev') →
         r = Normal tt
         ∧ s' = {| device := None;
                   calls := calls s ++ [(call_close, Normal reply_void)] |}).
Proof.
  destruct s as [[dev|] log]; unfold disconnect; cbn [device calls].
  - destruct (opened dev) eqn:Hop.
    + unfold invoke. cbn [device calls].
      destruct (do_close usb dev log) as [[[]|e] dev'] eqn:Hclose;
        cbn [completion_map]; eexists _, _; (split; [reflexivity|]).
      * split; [right; by eexists _, _|]. split.
        { intros H. specialize (H dev eq_refl). congruence. }
        split; [done|]. split; [by intros e [=]|]. split.
        -- intros dev0 e dev1 [= <-] _ Hc. congruence.
        -- intros dev0 dev1 [= <-] _ Hc. by split.
      * split; [right; by eexists _, _|]. split.
        { intros H. specialize (H dev eq_refl). congruence. }
        split; [by intros [=]|]. split.
        { intros e0 [= <-]. cbn [device calls].
          split; [by eexists | by rewrite last_snoc]. }
        split.
        -- intros dev0 e0 dev1 [= <-] _ Hc. split; congruence.
        -- intros dev0 dev1 [= <-] _ Hc. congruence.
    + eexists _, _. split; [reflexivity|]. split; [by left|].
      split; [done|]. split; [done|]. split; [by intros e [=]|].
      split; intros; simplify_eq; congruence.
  - eexists _, _. split; [reflexivity|]. split; [by left|].
    split; [done|]. split; [done|]. split; [by intros e [=]|].
    split; intros; simplify_eq.
Qed.

End SessionFacts.

Section SessionWitnesses.

Import USB Printer.

Lemma print_without_endpoint_witness :
  let dev := example_device None in
  let s := {| device := Some dev; calls := [] |} in
  (device s = Some dev ∧ findOutEndpoint dev = None)
  ∧ print stalling_printer [0x1B; 0x40] s
    = (Normal {| success := false;
                 bytesWritten := None;
                 error := Some (js "No OUT endpoint found") |}, s).
Proof.
  split; [split; reflexivity|].
  exact (print_without_endpoint stalling_printer [0x1B; 0x40]
           {| device := Some (example_device None); calls := [] |}
           (example_device None) eq_refl eq_refl).
Defined.

Lemma print_follows_plan_witness :
  let dev := example_device (Some [example_config]) in
  let s := {| device := Some dev; calls := [] |} in
  let pe := {| iface := example_iface1; endpointNumber := 3 |} in
  (device s = Some dev ∧ findOutEndpoint dev = Some pe)
  ∧ ∃ o s' evs select,
      print willing_printer [0x1B; 0x40] s = (Normal o, s')
      ∧ calls s' = calls s ++ evs
      ∧ map fst evs `prefix_of` print_plan dev select pe [0x1B; 0x40].
Proof.
  split; [split; reflexivity|].
  destruct (print_follows_plan willing_printer [0x1B; 0x40]
              {| device := Some (example_device (Some [example_config]));
                 calls := [] |}
              (example_device (Some [example_config]))
              {| iface := example_iface1; endpointNumber := 3 |}
              eq_refl eq_refl)
    as (o & s' & evs & select & Hrun & Hcalls & _ & Hplan & _).
  by exists o, s', evs, select.
Defined.

Lemma openAndClaim_steps_witness :
  let dev := example_device (Some [example_config]) in
  ∃ r dev' evs select,
    openAndClaim willing_printer dev 1 [] = (r, (dev', [] ++ evs))
    ∧ map fst evs `prefix_of` claim_plan dev select 1.
Proof.
  destruct (openAndClaim_steps willing_printer
              (example_device (Some [example_config])) 1 [])
    as (r & dev' & evs & select & Hrun & Hplan & _).
  by exists r, dev', evs, select.
Defined.

End SessionWitnesses.

Section NavigatorFacts.

Import USB Printer.

(** X18. [requestDevice] stores the device the user picked, so that the session
    is connected to it without a call of [connect], and makes no call on
    it; it asks with the filters given, or with one empty filter when none
    are given. When the browser has no WebUSB it throws
    "WebUSB is not supported in this browser", and when the request is
    rejected it throws the rejection; in both cases the session keeps the
    device it had. [getDevices] never changes the session. *)
Theorem requestDevice_selects filters s :
  Navigator.requestDevice None filters s
  = (Throw Navigator.Error_not_supported, s)
  ∧ Navigator.getDevices None s = (Throw Navigator.Error_not_supported, s)
  ∧ ∀ api,
      Navigator.getDevices (Some api) s = (Navigator.answer_getDevices api, s)
      ∧ (∀ dev,
           Navigator.answer_requestDevice api
             (default [ {| Navigator.vendorId := None;
                           Navigator.productId := None |} ] filters)
           = Normal dev →
           Navigator.requestDevice (Some api) filters s
           = (Normal dev, {| device := Some dev; calls := calls s |})
           ∧ connect dev s
             = (Normal tt, {| device := Some dev; calls := calls s |})
           ∧ getDeviceInfo {| device := Some dev; calls := calls s |}
             = Some (info_of dev))
      ∧ (∀ e,
           Navigator.answer_requestDevice api
             (default [ {| Navigator.vendorId := None;
                           Navigator.productId := None |} ] filters)
           = Throw e →
           Navigator.requestDevice (Some api) filters s = (Throw e, s)).
Proof.
  split; [reflexivity|]. split; [reflexivity|].
  intros api. split; [reflexivity|]. split.
  - intros dev Hdev. unfold Navigator.requestDevice, bind, lift, ret.
    by rewrite Hdev.
  - intros e He. unfold Navigator.requestDevice, bind, lift.
    by rewrite He.
Qed.

End NavigatorFacts.

(* ===================================================================== *)
(** * The list of items of the receipt form *)
(* ===================================================================== *)

Section ItemListFacts.

Import PrinterControl.

Lemma filter_indexed_above {A} (l : list A) index k :
  index < k → filter_indexed (λ _ i, negb (i =? index)) k l = l.
Proof.
  revert k. induction l as [|x l IH]; intros k Hk; [reflexivity|].
  cbn [filter_indexed]. destruct (Z.eqb_spec k index); [lia|].
  cbn [negb]. by rewrite IH by lia.
Qed.

Lemma filter_indexed_delete {A} (l : list A) index k :
  k <= index →
  filter_indexed (λ _ i, negb (i =? index)) k l
  = delete (Z.to_nat (index - k)) l.
Proof.
  revert k. induction l as [|x l IH]; intros k Hk; [reflexivity|].
  cbn [filter_indexed]. destruct (Z.eqb_spec k index) as [->|Hne].
  - cbn [negb]. rewrite Z.sub_diag. cbn. apply filter_indexed_above. lia.
  - cbn [negb]. rewrite IH by lia.
    replace (Z.to_nat (index - k)) with (S (Z.to_nat (index - (k + 1))))
      by lia.
    reflexivity.
Qed.

(** X19. [handleRemoveItem(index)] takes out the item at position [index] and
    keeps the others in their order; an index that is negative or not below
    the length changes nothing. *)
Theorem handleRemoveItem_deletes items index :
  (0 <= index < Z.of_nat (length items) →
   handleRemoveItem items index
   = take (Z.to_nat index) items ++ drop (S (Z.to_nat index)) items
   ∧ S (length (handleRemoveItem items index)) = length items)
  ∧ (index < 0 ∨ Z.of_nat (length items) <= index →
     handleRemoveItem items index = items).
Proof.
  unfold handleRemoveItem. split.
  - intros Hi. rewrite filter_indexed_delete, Z.sub_0_r by lia.
    split; [apply delete_take_drop|].
    rewrite length_delete; [lia|]. apply lookup_lt_is_Some. lia.
  - intros [Hneg|Hbig].
    + apply filter_indexed_above. lia.
    + rewrite filter_indexed_delete, Z.sub_0_r by lia.
      rewrite delete_take_drop, take_ge, drop_ge by lia. apply app_nil_r.
Qed.

(** X20. [handleAddItem] puts one item with quantity 1 and price 0 after the
    items there are, which keep their places; removing the item at the old
    length afterwards gives the old list back. The third item added is
    named "Item 3". *)
Theorem handleAddItem_appends general items :
  length (handleAddItem general items) = S (length items)
  ∧ (∀ i item, items !! i = Some item →
               handleAddItem general items !! i = Some item)
  ∧ (∃ item,
       handleAddItem general items !! length items = Some item
       ∧ quantity item = 1%float
       ∧ price item = 0%float)
  ∧ handleRemoveItem (handleAddItem general items)
      (Z.of_nat (length items))
    = items
  ∧ (length items = 2%nat →
     name <$> handleAddItem general items !! 2%nat = Some (js "Item 3")).
Proof.
  unfold handleAddItem. split; [|split; [|split; [|split]]].
  - rewrite length_app. cbn [length]. lia.
  - intros i item Hi. by apply lookup_app_l_Some.
  - eexists. split; [apply list_lookup_middle; reflexivity|]. done.
  - unfold handleRemoveItem.
    rewrite filter_indexed_delete, Z.sub_0_r, Nat2Z.id by lia.
    rewrite delete_take_drop, take_app_length.
    rewrite drop_ge by (rewrite length_app; cbn [length]; lia).
    apply app_nil_r.
  - intros Hlen. rewrite <- Hlen at 1.
    rewrite list_lookup_middle by reflexivity. rewrite Hlen. reflexivity.
Qed.

Lemma handleRemoveItem_deletes_witness :
  let items := [ {| name := js "Item 1"; quantity := 2; price := 10.99 |};
                 {| name := js "Item 2"; quantity := 1; price := 25.5 |} ] in
  0 <= 0 < Z.of_nat (length items)
  ∧ handleRemoveItem items 0
    = take (Z.to_nat 0) items ++ drop (S (Z.to_nat 0)) items.
Proof.
  assert (H : 0 <= 0 < Z.of_nat (length
    [ {| name := js "Item 1"; quantity := 2; price := 10.99 |};
      {| name := js "Item 2"; quantity := 1; price := 25.5 |} ]))
    by (cbn; lia).
  split; [exact H|].
  exact (proj1 (proj1 (handleRemoveItem_deletes _ 0) H)).
Defined.

End ItemListFacts.

(* ===================================================================== *)
(** * The shape of a printed amount *)
(* ===================================================================== *)

Section AmountText.

Variable general : float → jsstring.

Lemma digits_of_uint_digits u : Forall is_digit (Number.digits_of_uint u).
Proof.
  unfold is_digit.
  induction u; cbn [Number.digits_of_uint];
    [constructor | constructor; [lia|done] ..].
Qed.

Lemma is_digit_literal l :
  forallb (λ c, (48 <=? c) && (c <=? 57)) l = true → Forall is_digit l.
Proof.
  rewrite forallb_forall, Forall_forall. intros H c Hc.
  apply list_elem_of_In, H in Hc. unfold is_digit. lia.
Qed.

(** X13. [x.toFixed(2)] of a number that prints in decimal notation is an
    optional minus sign, one digit or more, a point, and exactly two
    digits. *)
Theorem toFixed2_two_decimals x :
  prints_in_decimal x →
  ∃ neg whole cents,
    Number.toFixed2 general x
    = Number.sign_text neg ++ whole ++ js "." ++ cents
    ∧ whole ≠ [] ∧ Forall is_digit whole
    ∧ length cents = 2%nat ∧ Forall is_digit cents.
Proof.
  unfold prints_in_decimal, Number.toFixed2.
  destruct (Prim2SF x) as [neg|neg| |neg m e]; try done.
  - intros _. exists false, (js "0"), (js "00").
    split; [reflexivity|]. split; [done|].
    split; [by apply is_digit_literal|]. split; [done|].
    by apply is_digit_literal.
  - intros ->. cbv zeta.
    set (n := Number.nearest_scaled 2 m e).
    set (digits := if (_ <=? 2)%nat then _ else _).
    assert (Hdig : Forall is_digit digits).
    { unfold digits. destruct (_ <=? 2)%nat; [|apply digits_of_uint_digits].
      apply Forall_app_2; [|apply digits_of_uint_digits].
      apply Forall_forall. intros c Hc.
      apply list_elem_of_In, repeat_spec in Hc. subst. unfold is_digit. lia. }
    assert (Hlen : (3 <= length digits)%nat).
    { unfold digits.
      destruct (Nat.leb_spec (length (Number.decimal_digits n)) 2).
      - rewrite length_app, repeat_length. lia.
      - lia. }
    exists neg, (firstn (length digits - 2) digits),
      (skipn (length digits - 2) digits).
    split; [reflexivity|]. split.
    { intros E. apply (f_equal length) in E.
      rewrite length_take in E. cbn in E. lia. }
    split; [by apply Forall_take|]. split; [|by apply Forall_drop].
    rewrite length_drop. lia.
Qed.

End AmountText.

Lemma toFixed2_two_decimals_witness :
  prints_in_decimal 9.995
  ∧ ∃ neg whole cents,
      Number.toFixed2 (λ _, js "NaN") 9.995
      = Number.sign_text neg ++ whole ++ js "." ++ cents
      ∧ whole ≠ [] ∧ Forall is_digit whole
      ∧ length cents = 2%nat ∧ Forall is_digit cents.
Proof.
  assert (H : prints_in_decimal 9.995) by (vm_compute; reflexivity).
  split; [exact H|].
  exact (toFixed2_two_decimals (λ _, js "NaN") 9.995 H).
Defined.

